(** * Verification of the Phobos and RCRU64 file decryptors

    A shallow embedding of [Phobos/phobos_decrypt_file2.py] and
    [RCRU64/rcru64_decrypt_file.py].  Byte strings are [list byte],
    Python integers are [Z], files are byte lists that are read and
    patched at absolute offsets, and a call that can raise returns an
    [outcome].  The block cipher, the GCM keystream, the RSA unwrap and
    Python's [float] parser are library code: they are the fields of
    two classes, [BlockCipher] and [Externals], over which the engines
    and the statements about them are generic.  Where the path of a
    new file leads is for the file system to say: it is the field of
    a third class, [Directory]. *)

From Stdlib Require Import ZArith Lia Bool.
From Stdlib Require Import Strings.Byte Strings.String.
From stdpp Require Import base list.

Local Open Scope Z_scope.

(** ** Python values and built-ins *)

Module Py.

Abbreviation bytes := (list byte).

(** [b'...'] literals. *)
Definition b (s : string) : bytes := list_byte_of_string s.

Definition byte_to_Z (x : byte) : Z := Z.of_N (Byte.to_N x).

Definition byte_of_Z (z : Z) : byte :=
  match Byte.of_N (Z.to_N (z mod 256)) with
  | Some x => x
  | None => "000"%byte
  end.

(** [len(b)] *)
Definition len (l : bytes) : Z := Z.of_nat (length l).

(** Slice bounds as Python normalises them: a negative index counts
    from the end, and both ends are clamped to [0, len]. *)
Definition clamp (n i : Z) : Z :=
  if i <? 0 then Z.max (i + n) 0 else Z.min i n.

(** [l[lo:hi]] *)
Definition slice (l : bytes) (lo hi : Z) : bytes :=
  let lo' := clamp (len l) lo in
  let hi' := clamp (len l) hi in
  take (Z.to_nat (hi' - lo')) (drop (Z.to_nat lo') l).

(** [l[lo:]] *)
Definition slice_from (l : bytes) (lo : Z) : bytes :=
  drop (Z.to_nat (clamp (len l) lo)) l.

(** [l[:hi]] *)
Definition slice_to (l : bytes) (hi : Z) : bytes :=
  take (Z.to_nat (clamp (len l) hi)) l.

(** [a == b] on byte strings. *)
Fixpoint bytes_eqb (x y : bytes) : bool :=
  match x, y with
  | [], [] => true
  | c :: x', d :: y' => Byte.eqb c d && bytes_eqb x' y'
  | _, _ => false
  end.

(** [l.startswith(sub)] *)
Fixpoint starts_with (sub l : bytes) : bool :=
  match sub, l with
  | [], _ => true
  | _ :: _, [] => false
  | x :: sub', y :: l' => Byte.eqb x y && starts_with sub' l'
  end.

(** Offset, relative to the head of [l], of the first occurrence of
    [sub]. *)
Fixpoint find_rel (sub l : bytes) : option nat :=
  if starts_with sub l then Some 0%nat
  else match l with
       | [] => None
       | _ :: l' => option_map S (find_rel sub l')
       end.

(** [l.find(sub, start)] for [start >= 0]: the lowest index, or [-1]. *)
Definition find (sub l : bytes) (start : Z) : Z :=
  if len l <? start then -1
  else match find_rel sub (drop (Z.to_nat start) l) with
       | Some k => start + Z.of_nat k
       | None => -1
       end.

(** [int.from_bytes(l, byteorder='little')] *)
Fixpoint int_from_le (l : bytes) : Z :=
  match l with
  | [] => 0
  | x :: l' => byte_to_Z x + 256 * int_from_le l'
  end.

(** [n.to_bytes(k, byteorder='little')], for [0 <= n < 256^k]. *)
Fixpoint int_to_le (k : nat) (n : Z) : bytes :=
  match k with
  | O => []
  | S k' => byte_of_Z n :: int_to_le k' (n / 256)
  end.

(** [n.to_bytes(k, byteorder='big')], for [0 <= n < 256^k]. *)
Definition int_to_be (k : nat) (n : Z) : bytes := rev (int_to_le k n).

(** What a call can raise. *)
Inductive exn : Set :=
| ValueError
| StructError
| IndexError
| UnicodeDecodeError
| OSError
| OverflowError
| SystemExit (code : Z).

(** A call returns, raises, or (for a loop that is run on fuel) is
    still running when the fuel is spent. *)
Inductive outcome (A : Type) : Type :=
| Return (a : A)
| Raise (e : exn)
| OutOfFuel.
Arguments Return {A} a.
Arguments Raise {A} e.
Arguments OutOfFuel {A}.

Definition bind {A B} (m : outcome A) (k : A -> outcome B) : outcome B :=
  match m with
  | Return a => k a
  | Raise e => Raise e
  | OutOfFuel => OutOfFuel
  end.

Notation "'do' x <- m ; k" := (bind m (fun x => k))
  (at level 10, x pattern, m at level 100, k at level 200,
   format "'[v' 'do'  x  <-  m ; '/' k ']'").

(** [l[i]]: raises [IndexError] out of range; a negative index counts
    from the end. *)
Definition index (l : bytes) (i : Z) : outcome byte :=
  let j := if i <? 0 then i + len l else i in
  if j <? 0 then Raise IndexError
  else match l !! Z.to_nat j with
       | Some x => Return x
       | None => Raise IndexError
       end.

(** [len(range(start, stop, step))] for [step > 0]. *)
Definition range_count (start stop step : Z) : nat :=
  Z.to_nat ((stop - start + step - 1) / step).

Definition byte_xor (x y : byte) : byte :=
  byte_of_Z (Z.lxor (byte_to_Z x) (byte_to_Z y)).

Definition xor_bytes (x y : bytes) : bytes := zip_with byte_xor x y.

(** [struct.unpack_from('<L', buf, off)]: raises [struct.error] unless
    four bytes are available at [off]. *)
Definition unpack_L (buf : bytes) (off : Z) : outcome Z :=
  if off + 4 <=? len buf then Return (int_from_le (slice buf off (off + 4)))
  else Raise StructError.

(** [struct.unpack_from('<2L', buf, off)] *)
Definition unpack_2L (buf : bytes) (off : Z) : outcome (Z * Z) :=
  if off + 8 <=? len buf
  then Return (int_from_le (slice buf off (off + 4)),
               int_from_le (slice buf (off + 4) (off + 8)))
  else Raise StructError.

(** [struct.unpack_from('<3L', buf, off)] *)
Definition unpack_3L (buf : bytes) (off : Z) : outcome (Z * Z * Z) :=
  if off + 12 <=? len buf
  then Return (int_from_le (slice buf off (off + 4)),
               int_from_le (slice buf (off + 4) (off + 8)),
               int_from_le (slice buf (off + 8) (off + 12)))
  else Raise StructError.

(** [struct.unpack_from('<Q', buf, off)] *)
Definition unpack_Q (buf : bytes) (off : Z) : outcome Z :=
  if off + 8 <=? len buf then Return (int_from_le (slice buf off (off + 8)))
  else Raise StructError.

(** ** Files

    An open file is its content.  [read] is [seek(pos)] followed by
    [read(n)]; [write] is [seek(pos)] followed by [write(data)], which
    overwrites in place, grows the file when it runs past the end and
    zero-fills a gap left by seeking past the end.  Writing nothing
    leaves the file as it is. *)

Definition read (f : bytes) (pos n : Z) : bytes :=
  take (Z.to_nat n) (drop (Z.to_nat pos) f).

Definition write (f : bytes) (pos : Z) (data : bytes) : bytes :=
  match data with
  | [] => f
  | _ =>
    take (Z.to_nat pos) f
      ++ replicate (Z.to_nat pos - length f) "000"%byte
      ++ data
      ++ drop (Z.to_nat pos + length data) f
  end.

(** [f.truncate(n)] for [0 <= n]; a size past the end zero-fills. *)
Definition truncate (f : bytes) (n : Z) : bytes :=
  take (Z.to_nat n) f ++ replicate (Z.to_nat n - length f) "000"%byte.

(** ** [bytes.decode('UTF-16')]

    The code units of the text, in the byte order a leading byte-order
    mark announces (little-endian without one, as on the hosts the
    tool runs on), checked as the strict decoder checks them: an odd
    trailing byte, a high surrogate that no low surrogate follows, or a
    low surrogate on its own raises [UnicodeDecodeError]. *)

Fixpoint utf16_units (big : bool) (l : bytes) : outcome (list Z) :=
  match l with
  | [] => Return []
  | [_] => Raise UnicodeDecodeError
  | x :: y :: l' =>
    let u := if big then 256 * byte_to_Z x + byte_to_Z y
             else byte_to_Z x + 256 * byte_to_Z y in
    do us <- utf16_units big l';
    Return (u :: us)
  end.

Definition is_high_surrogate (u : Z) : bool := (0xD800 <=? u) && (u <=? 0xDBFF).
Definition is_low_surrogate (u : Z) : bool := (0xDC00 <=? u) && (u <=? 0xDFFF).

Fixpoint utf16_points (us : list Z) : outcome (list Z) :=
  match us with
  | [] => Return []
  | u :: us' =>
    if is_high_surrogate u then
      match us' with
      | [] => Raise UnicodeDecodeError
      | v :: us'' =>
        if is_low_surrogate v then
          do ps <- utf16_points us'';
          Return (0x10000 + 1024 * (u - 0xD800) + (v - 0xDC00) :: ps)
        else Raise UnicodeDecodeError
      end
    else if is_low_surrogate u then Raise UnicodeDecodeError
    else do ps <- utf16_points us'; Return (u :: ps)
  end.

Definition utf16_decode (l : bytes) : outcome (list Z) :=
  match l with
  | xff :: xfe :: l' => do us <- utf16_units false l'; utf16_points us
  | xfe :: xff :: l' => do us <- utf16_units true l'; utf16_points us
  | _ => do us <- utf16_units false l; utf16_points us
  end.

(** [s[s.rfind(c) + 1:]] when [c] occurs in [s], and [s] otherwise. *)
Fixpoint after_last (c : Z) (s : list Z) : list Z :=
  match s with
  | [] => []
  | x :: s' =>
    if existsb (Z.eqb c) s' then after_last c s'
    else if x =? c then s' else s
  end.

(** ** [binascii.crc32]

    The reflected CRC-32 (polynomial [0xEDB88320]), bit by bit. *)

Definition CRC_POLY : Z := 0xEDB88320.

Definition crc_shift (c : Z) : Z :=
  if Z.testbit c 0 then Z.lxor (Z.shiftr c 1) CRC_POLY else Z.shiftr c 1.

Definition crc_byte (c : Z) (x : byte) : Z :=
  Nat.iter 8 crc_shift (Z.lxor c (byte_to_Z x)).

Definition crc32 (data : bytes) : Z :=
  Z.lxor (fold_left crc_byte data 0xFFFFFFFF) 0xFFFFFFFF.

(** ** [int(b)] on a byte string

    Surrounding white space, an optional sign, then decimal digits
    that single underscores may separate; anything else raises
    [ValueError]. *)

Definition is_space (x : byte) : bool :=
  let c := byte_to_Z x in ((9 <=? c) && (c <=? 13)) || (c =? 32).

Definition is_digit (x : byte) : bool :=
  let c := byte_to_Z x in (48 <=? c) && (c <=? 57).

Fixpoint lstrip (l : bytes) : bytes :=
  match l with
  | x :: l' => if is_space x then lstrip l' else l
  | [] => []
  end.

Definition strip (l : bytes) : bytes := rev (lstrip (rev (lstrip l))).

Fixpoint digits (acc : Z) (after_digit : bool) (l : bytes) : option Z :=
  match l with
  | [] => if after_digit then Some acc else None
  | x :: l' =>
    if is_digit x then digits (10 * acc + (byte_to_Z x - 48)) true l'
    else if (byte_to_Z x =? 95) && after_digit then digits acc false l'
    else None
  end.

Definition int_of_bytes (l : bytes) : outcome Z :=
  let parsed :=
    match strip l with
    | x :: l' =>
      if byte_to_Z x =? 43 then digits 0 false l'
      else if byte_to_Z x =? 45 then option_map Z.opp (digits 0 false l')
      else digits 0 false (x :: l')
    | [] => None
    end in
  match parsed with
  | Some n => Return n
  | None => Raise ValueError
  end.

End Py.

Import Py.

(** ** The cipher library ([Crypto.Cipher.AES])

    The block function of AES is library code: decryption of one
    16-byte block under a key.  CBC chaining and the checks that
    [AES.new] and [decrypt] make are written out. *)

Class BlockCipher := {
  aes_decrypt_block : bytes -> bytes -> bytes;
  aes_decrypt_block_length :
    forall key c, length (aes_decrypt_block key c) = 16%nat
}.

Module CBC.
Section CBC.
Context `{BlockCipher}.

(** A cipher object: the key and the chaining value, which starts as
    the IV and is the last ciphertext block seen afterwards. *)
Record cipher := { ckey : bytes; chain : bytes }.

Definition valid_key_length (key : bytes) : bool :=
  (len key =? 16) || (len key =? 24) || (len key =? 32).

(** [AES.new(key, AES.MODE_CBC, iv)] *)
Definition new (key iv : bytes) : outcome cipher :=
  if negb (valid_key_length key) then Raise ValueError
  else if negb (len iv =? 16) then Raise ValueError
  else Return {| ckey := key; chain := iv |}.

(** [n] blocks of CBC decryption. *)
Fixpoint decrypt_blocks (n : nat) (key prev data : bytes) : bytes * bytes :=
  match n with
  | O => ([], prev)
  | S n' =>
    let c := take 16 data in
    let '(rest, last) := decrypt_blocks n' key c (drop 16 data) in
    (xor_bytes (aes_decrypt_block key c) prev ++ rest, last)
  end.

(** [cipher.decrypt(data)]: the data must be whole blocks. *)
Definition decrypt (c : cipher) (data : bytes) : outcome (bytes * cipher) :=
  if negb (len data mod 16 =? 0) then Raise ValueError
  else
    let '(plain, last) :=
      decrypt_blocks (Z.to_nat (len data / 16)) (ckey c) (chain c) data in
    Return (plain, {| ckey := ckey c; chain := last |}).

End CBC.
End CBC.

(** ** The directory of the input

    Where the path of the new file leads is for the file system to
    say: [os.path.join] of the directory of the input and the name
    that the container gives may lead to a file that can be created
    or overwritten, to nothing that can be opened for writing (a
    directory, a path through a directory that is not there, a file
    that may not be written), or back to the input itself.  The
    empty name gives the directory of the input, or the empty path:
    it is always refused. *)

Inductive place : Set :=
| Fresh
| Refused
| Input.

Class Directory := {
  place_of : list Z -> place;
  place_of_empty : place_of [] = Refused
}.

(** ** Phobos: [phobos_decrypt_file2.py] *)

Module Phobos.

Definition METADATA_SIZE : Z := 0xB2.
Definition AES_IV_POS : Z := 0x14.
Definition AES_IV_SIZE : Z := 16.
Definition PADDING_SIZE_POS : Z := 0x24.
Definition ENC_KEY_DATA_POS : Z := 0x28.
Definition RSA_KEY_SIZE : Z := 128.
Definition FOOTER_SIZE_POS : Z := 0xA8.
Definition ATTACKER_ID_POS : Z := 0xAC.
Definition ATTACKER_ID_SIZE : Z := 6.
Definition AES_KEY_SIZE : Z := 32.
Definition KEY_ENTRY_SIZE : Z := RSA_KEY_SIZE + AES_KEY_SIZE.
Definition KEY_DATA_XOR : Z := 0x17F31AAB.
Definition ENC_MODE_POS : Z := 4.
Definition ORIG_FILENAME_POS_POS : Z := 0x18.
Definition ENC_MODE1_MAGIC : Z := 0xAF77BC0F.
Definition ENC_MODE2_MAGIC : Z := 0xF0A75E12.
Definition ENC_BLOCK_SIZE : Z := 0xD0000.

(** The key search of [decrypt_file2] (lines 88-96): the loop over
    [range(0, len(key_data), KEY_ENTRY_SIZE)], entered at index [i]
    with [n] iterations to go; [None] is the loop's [else]. *)
Fixpoint find_key_from (n : nat) (i : Z) (enc_key_data key_data : bytes)
  : option bytes :=
  match n with
  | O => None
  | S n' =>
    if bytes_eqb enc_key_data (slice key_data i (i + RSA_KEY_SIZE))
    then Some (slice key_data (i + RSA_KEY_SIZE)
                              (i + RSA_KEY_SIZE + AES_KEY_SIZE))
    else find_key_from n' (i + KEY_ENTRY_SIZE) enc_key_data key_data
  end.

Definition find_key (enc_key_data key_data : bytes) : option bytes :=
  find_key_from (range_count 0 (len key_data) KEY_ENTRY_SIZE) 0
                enc_key_data key_data.

(** The search for the end of the original file name (lines 139-143):
    the loop over [range(orig_filename_pos, len(endblock_data), 2)],
    entered at [i] with [n] iterations to go.  [Return None] is the
    loop's [else]; the second index is evaluated only when the first
    byte is zero, and raises when it is past the end. *)
Fixpoint find_name_end (n : nat) (i : Z) (endblock_data : bytes)
  : outcome (option Z) :=
  match n with
  | O => Return None
  | S n' =>
    do x <- index endblock_data i;
    if byte_to_Z x =? 0 then
      do y <- index endblock_data (i + 1);
      if byte_to_Z y =? 0 then Return (Some i)
      else find_name_end n' (i + 2) endblock_data
    else find_name_end n' (i + 2) endblock_data
  end.

(** The write loop of the multiple-chunk mode (lines 174-178), entered
    at index [i] with [n] iterations to go, on the output file [f].
    [seek] raises [ValueError] for a position that does not fit a
    signed 64-bit offset.  A raise leaves the file as the writes so
    far made it. *)
Fixpoint write_chunks (n : nat) (i : Z) (endblock_data chunk_data : bytes)
    (chunk_size : Z) (f : bytes) : outcome unit * bytes :=
  match n with
  | O => (Return tt, f)
  | S n' =>
    match unpack_Q endblock_data (0x20 + i * 8) with
    | Return chunk_pos =>
      (* f.seek(chunk_pos) *)
      if 2 ^ 63 <=? chunk_pos then (Raise ValueError, f)
      else
      let f' := write f chunk_pos
                  (slice chunk_data (i * chunk_size) ((i + 1) * chunk_size)) in
      write_chunks n' (i + 1) endblock_data chunk_data chunk_size f'
    | Raise e => (Raise e, f)
    | OutOfFuel => (OutOfFuel, f)
    end
  end.

Section Engine.
Context `{BlockCipher} {D : Directory}.

(** The read loop of the single-chunk mode (lines 193-204): what is
    written to the output from the input [fin] that is still unread.
    Every turn but the last consumes [ENC_BLOCK_SIZE] bytes, so fuel
    above [len(fin) / ENC_BLOCK_SIZE] is never spent. *)
Fixpoint decrypt_stream (fuel : nat) (c : CBC.cipher) (fin : bytes)
  : outcome bytes :=
  let enc_data := read fin 0 ENC_BLOCK_SIZE in
  if negb (len enc_data =? ENC_BLOCK_SIZE) then
    let excess_size := Z.land (len enc_data) 0xF in
    do (dec_data, _) <- CBC.decrypt c (slice_to enc_data (- excess_size));
    Return (dec_data ++ slice_from enc_data (- excess_size))
  else
    match fuel with
    | O => OutOfFuel
    | S fuel' =>
      do (dec_data, c') <- CBC.decrypt c enc_data;
      do rest <- decrypt_stream fuel' c' (drop (Z.to_nat ENC_BLOCK_SIZE) fin);
      Return (dec_data ++ rest)
    end.

(** What [decrypt_file2] leaves behind: its result, and the file that
    it wrote (none, or a name and a content).  The input is only
    read, unless the name of the new file leads back to it. *)
Record run := {
  result : outcome bool;
  output : option (list Z * bytes)
}.

Definition finish (r : outcome bool) : run := {| result := r; output := None |}.

(** The multiple-chunk mode (lines 157-182): copy, check, patch,
    trim.  [shutil.copy] raises [SameFileError] when the new path
    leads to the input, and it or [io.open] another [OSError] when
    the path is refused. *)
Definition decrypt_chunks (file endblock_data : bytes) (footer_size : Z)
    (name : list Z) : run :=
  match place_of name with
  | Refused | Input => {| result := Raise OSError; output := None |}
  | Fresh =>
  let f := file in
  match unpack_3L endblock_data 0x0C with
  | Return (num_chunks, chunk_size, chunk_data_crc32) =>
    let chunk_data_pos := 0x20 + num_chunks * 8 in
    let chunk_data :=
      slice endblock_data chunk_data_pos
            (chunk_data_pos + num_chunks * chunk_size) in
    if negb (chunk_data_crc32 =? crc32 chunk_data) then
      {| result := Return false; output := Some (name, f) |}
    else
      match write_chunks (Z.to_nat num_chunks) 0 endblock_data chunk_data
                         chunk_size f with
      | (Return _, f') =>
        if len f' <? footer_size then
          {| result := Raise OSError; output := Some (name, f') |}
        else
          {| result := Return true;
             output := Some (name, truncate f' (len f' - footer_size)) |}
      | (Raise e, f') => {| result := Raise e; output := Some (name, f') |}
      | (OutOfFuel, f') => {| result := OutOfFuel; output := Some (name, f') |}
      end
  | Raise e => {| result := Raise e; output := Some (name, f) |}
  | OutOfFuel => {| result := OutOfFuel; output := Some (name, f) |}
  end
  end.

(** The single-chunk mode (lines 188-208): decrypt the whole input
    into the new file, then trim footer and padding.
    [io.open(new_filepath, 'wb')] raises an [OSError] when the path
    is refused; when the path leads to the input, it empties the
    input, and the loop reads from the empty file. *)
Definition decrypt_single (file aes_key aes_iv : bytes)
    (footer_size padding_size : Z) (name : list Z) : run :=
  match place_of name with
  | Refused => {| result := Raise OSError; output := None |}
  | opened =>
  let file := match opened with Input => [] | _ => file end in
  match CBC.new aes_key aes_iv with
  | Return cipher =>
    match decrypt_stream (S (length file)) cipher file with
    | Return fout =>
      if len fout <? footer_size + padding_size then
        {| result := Raise OSError; output := Some (name, fout) |}
      else
        {| result := Return true;
           output :=
             Some (name, truncate fout (len fout - (footer_size + padding_size))) |}
    | Raise e => {| result := Raise e; output := Some (name, []) |}
    | OutOfFuel => {| result := OutOfFuel; output := Some (name, []) |}
    end
  | Raise e => {| result := Raise e; output := Some (name, []) |}
  | OutOfFuel => {| result := OutOfFuel; output := Some (name, []) |}
  end
  end.

(** What the first part of [decrypt_file2] (lines 69-147) recovers
    from the container. *)
Record info := {
  aes_key : bytes;
  aes_iv : bytes;
  footer_size : Z;
  padding_size : Z;
  endblock_data : bytes;
  enc_mode : Z;
  orig_filename : list Z
}.

(** Lines 69-147 on the content [file] of the input: the metadata, the
    key, the end block and what it says.  [Return None] is
    [return False]; the two [seek]s from the end fail, and are caught,
    when the file is shorter than what they step back. *)
Definition read_info (file key_data : bytes) : outcome (option info) :=
  (* f.seek(-METADATA_SIZE, 2) *)
  if len file <? METADATA_SIZE then Return None
  else
  let metadata := read file (len file - METADATA_SIZE) METADATA_SIZE in
  let attacker_id :=
    slice metadata ATTACKER_ID_POS (ATTACKER_ID_POS + ATTACKER_ID_SIZE) in
  let enc_key_data :=
    slice metadata ENC_KEY_DATA_POS (ENC_KEY_DATA_POS + RSA_KEY_SIZE) in
  match find_key enc_key_data key_data with
  | None => Return None
  | Some aes_key =>
  do footer_size <- unpack_L metadata FOOTER_SIZE_POS;
  if footer_size <=? METADATA_SIZE then Return None
  else
  let endblock_size := footer_size - METADATA_SIZE in
  if negb (Z.land endblock_size 0xF =? 0) then Return None
  else
  (* f.seek(-footer_size, 2) *)
  if len file <? footer_size then Return None
  else
  let enc_endblock_data := read file (len file - footer_size) endblock_size in
  let aes_iv := slice metadata AES_IV_POS (AES_IV_POS + AES_IV_SIZE) in
  do padding_size <- unpack_L metadata PADDING_SIZE_POS;
  do cipher <- CBC.new aes_key aes_iv;
  do (endblock_data, _) <- CBC.decrypt cipher enc_endblock_data;
  do (enc_mode, enc_mode_magic) <- unpack_2L endblock_data ENC_MODE_POS;
  if negb (if enc_mode =? 1 then enc_mode_magic =? ENC_MODE1_MAGIC
           else if enc_mode =? 2 then enc_mode_magic =? ENC_MODE2_MAGIC
           else false)
  then Return None
  else
  do orig_filename_pos <- unpack_L endblock_data ORIG_FILENAME_POS_POS;
  do found <- find_name_end
                (range_count orig_filename_pos (len endblock_data) 2)
                orig_filename_pos endblock_data;
  match found with
  | None => Return None
  | Some i =>
    do orig_filename <- utf16_decode (slice endblock_data orig_filename_pos i);
    Return (Some {| aes_key := aes_key;
                    aes_iv := aes_iv;
                    footer_size := footer_size;
                    padding_size := padding_size;
                    endblock_data := endblock_data;
                    enc_mode := enc_mode;
                    orig_filename := after_last 92 orig_filename |})
  end
  end.

(** [decrypt_file2(filepath, key_data)] (lines 66-210) *)
Definition decrypt_file2 (file key_data : bytes) : run :=
  match read_info file key_data with
  | Return (Some i) =>
    if enc_mode i =? 1
    then decrypt_chunks file (endblock_data i) (footer_size i)
                        (orig_filename i)
    else decrypt_single file (aes_key i) (aes_iv i) (footer_size i)
                        (padding_size i) (orig_filename i)
  | Return None => finish (Return false)
  | Raise e => finish (Raise e)
  | OutOfFuel => finish OutOfFuel
  end.

(** Lines 226-236 of the script, after [keys.txt] is read and
    base64-decoded into [key_data]: the keys, or [sys.exit(1)]. *)
Definition load_keys (key_data : bytes) : outcome bytes :=
  do (num_keys, crc) <- unpack_2L key_data 0;
  let num_keys := Z.lxor num_keys KEY_DATA_XOR in
  let crc := Z.lxor crc KEY_DATA_XOR in
  let key_data := slice key_data 8 (8 + num_keys * KEY_ENTRY_SIZE) in
  if negb (crc =? crc32 key_data) then Raise (SystemExit 1)
  else Return key_data.

(** Lines 226-241: how the script ends ([Return tt] is falling off its
    end), and the file [decrypt_file2] created, if it ran. *)
Definition main (key_data file : bytes)
  : outcome unit * option (list Z * bytes) :=
  match load_keys key_data with
  | Return key_data =>
    let r := decrypt_file2 file key_data in
    match result r with
    | Return true => (Return tt, output r)
    | Return false => (Raise (SystemExit 1), output r)
    | Raise e => (Raise e, output r)
    | OutOfFuel => (OutOfFuel, output r)
    end
  | Raise e => (Raise e, None)
  | OutOfFuel => (OutOfFuel, None)
  end.

End Engine.
End Phobos.

(** ** RCRU64: [rcru64_decrypt_file.py] *)

(** The library and the sibling module the script calls:
    [AES.new(key, AES.MODE_GCM, nonce).decrypt], which turns a
    ciphertext into as many bytes of plaintext;
    [rcru64_crypt.rsa_decrypt], [None] when the private key does not
    open the blob; and [int(float(b) * BLOCK_SIZE)], which raises on
    text that is not a finite number. *)
Class Externals := {
  gcm_decrypt : bytes -> bytes -> bytes -> bytes;
  gcm_decrypt_length :
    forall key nonce data, length (gcm_decrypt key nonce data) = length data;
  rsa_decrypt : bytes -> bytes -> option bytes;
  float_blocks : bytes -> outcome Z
}.

Module RCRU64.

Definition METADATA_MARKER : bytes := b "wenf=".
Definition METADATA_MARKER2 : bytes := b "&4r*3d".
Definition CHUNK_INFO_MARKER1 : bytes := b "P7A1s".
Definition CHUNK_INFO_MARKER2 : bytes := b ":".
Definition CHUNK_INFO_MARKER3 : bytes := b "$f1;".
Definition ENC_SIZE_MARKER : bytes := b "Fs1z3".
Definition KEYDATA_MARKER1 : bytes := b "d7j3".
Definition KEYDATA_MARKER2 : bytes := b "y9a0".
Definition KEYDATA_MARKER3 : bytes := b "m5ha".
Definition SMALL_FILE_END_MARKER1 : bytes := b "nqpso5938fh71jfu".
Definition SMALL_FILE_END_MARKER2 : bytes := b "qpso5938fh71jf".

Definition RSA_KEY_SIZE : Z := 256.
Definition AES_BLOCK_SIZE : Z := 16.
Definition CHUNK_ENC_NONCE_SIZE : Z := 12.
Definition FULL_ENC_NONCE_SIZE1 : Z := 12.
Definition FULL_ENC_NONCE_SIZE2 : Z := 32.
Definition FAST_ENC_NONCE_SIZE : Z := 32.
Definition MAX_METADATA_SIZE : Z := 0x12C.
Definition MIN_METADATA_SIZE : Z := RSA_KEY_SIZE + len METADATA_MARKER.
Definition ADDITIONAL_DATA_SIZE : Z := 1.
Definition MIN_BIG_FILE_SIZE : Z := 0x1F4000.
Definition ENC_BLOCK_SIZE : Z := 0x7D000.
Definition FIRST_ENC_BLOCK_SIZE : Z := 0x2D2A8.
Definition BLOCK_SIZE : Z := 1024000.

Definition RND64_INIT_STATE_DATA : bytes := b "sxuojgdg".
Definition RND64_A1 : Z := 4815.
Definition RND64_A2 : Z := 4815.

Definition MASK64 : Z := 0xFFFFFFFFFFFFFFFF.

Definition rol64 (v s : Z) : Z :=
  Z.lor (Z.land (Z.shiftl v s) MASK64) (Z.shiftr (Z.land v MASK64) (64 - s)).

Definition ror64 (v s : Z) : Z :=
  Z.lor (Z.shiftr v s) (Z.land (Z.shiftl v (64 - s)) MASK64).

(** [rnd64_seed] (lines 95-119) *)
Definition rnd64_seed (state64 a1 a2 : Z) : Z * Z :=
  let x1 := Z.land (state64 + 0xDEADBEEFDEADBEEF) MASK64 in
  let y1 := rol64 x1 15 in
  let x2 := Z.land (Z.lxor x1 0xE6ADBEEFDEADBEEF + y1) MASK64 in
  let y2 := ror64 x2 12 in
  let x3 := Z.land (Z.lxor a1 x2 + y2) MASK64 in
  let y3 := rol64 x3 26 in
  let x4 := Z.land (Z.lxor a2 x3 + y3) MASK64 in
  let y4 := ror64 x4 13 in
  let x5 := Z.land (Z.lxor y1 x4 + y4) MASK64 in
  let y5 := rol64 x5 28 in
  let x6 := Z.land (Z.lxor y2 x5 + y5) MASK64 in
  let y6 := rol64 x6 9 in
  let x7 := Z.land (Z.lxor y3 x6 + y6) MASK64 in
  let y7 := ror64 x7 17 in
  let x8 := Z.land (Z.lxor y4 x7 + y7) MASK64 in
  let y8 := ror64 x8 10 in
  let x9 := Z.land (Z.lxor y5 x8 + y8) MASK64 in
  let x10 := Z.land (Z.lxor y6 x9 + ror64 x9 32) MASK64 in
  let x11 := Z.land (Z.lxor y7 x10 + rol64 x10 25) MASK64 in
  let y12 := ror64 x11 1 in
  let x12 := Z.land (Z.lxor y8 x11 + y12) MASK64 in
  (y12, x12).

(** [rnd64data] (lines 122-127).  The generated number is below
    [2^64] ([rnd64_seed_range]), so [to_bytes(8, ...)] does not
    overflow. *)
Definition rnd64data (state64_data : bytes) : bytes :=
  let state64 := int_from_le (slice_to state64_data 8) in
  let '(rnd64, dummy) := rnd64_seed state64 RND64_A1 RND64_A2 in
  int_to_be 8 rnd64.

(** *** The working file

    [decrypt_file] patches one file in place.  Its state is the
    content of that file and the record of the GCM ciphers it built:
    the nonce of each and the length of what it decrypted. *)

Record gcm_call := { call_nonce : bytes; call_length : Z }.

Record world := { file : bytes; calls : list gcm_call }.

Definition io (A : Type) : Type := world -> outcome A * world.

Definition ret {A} (a : A) : io A := fun w => (Return a, w).

Definition lift {A} (m : outcome A) : io A := fun w => (m, w).

Definition io_bind {A B} (m : io A) (k : A -> io B) : io B :=
  fun w =>
    match m w with
    | (Return a, w') => k a w'
    | (Raise e, w') => (Raise e, w')
    | (OutOfFuel, w') => (OutOfFuel, w')
    end.

Notation "'io!' x <- m ; k" := (io_bind m (fun x => k))
  (at level 10, x pattern, m at level 100, k at level 200,
   format "'[v' 'io!'  x  <-  m ; '/' k ']'").

(** What the file object takes for an offset or a size: a number that
    fits a signed 64-bit integer.  A file is not longer than that, so
    what lies within the file fits. *)
Definition fits (f : bytes) (n : Z) : bool :=
  (- 2 ^ 63 <=? n) && ((n <? 2 ^ 63) || (n <=? len f)).

(** [f.seek(pos)] then [f.read(n)].  [seek] raises [ValueError] for a
    position that does not fit and [OSError] for another negative
    one; [read] raises [OverflowError] for a size that does not fit
    and [ValueError] for another one below [-1], and reads to the end
    for [-1].  Memory is taken to suffice for the size asked. *)
Definition f_read (pos n : Z) : io bytes :=
  fun w =>
    if negb (fits (file w) pos) then (Raise ValueError, w)
    else if pos <? 0 then (Raise OSError, w)
    else if negb (fits (file w) n) then (Raise OverflowError, w)
    else if n <? -1 then (Raise ValueError, w)
    else if n =? -1 then (Return (drop (Z.to_nat pos) (file w)), w)
    else (Return (read (file w) pos n), w).

(** [f.seek(pos)] then [f.write(data)] *)
Definition f_write (pos : Z) (data : bytes) : io unit :=
  fun w =>
    if negb (fits (file w) pos) then (Raise ValueError, w)
    else if pos <? 0 then (Raise OSError, w)
    else (Return tt, {| file := write (file w) pos data; calls := calls w |}).

(** [f.truncate(n)]: [OverflowError] for a size that does not fit,
    [OSError] for another negative one. *)
Definition f_truncate (n : Z) : io unit :=
  fun w =>
    if negb (fits (file w) n) then (Raise OverflowError, w)
    else if n <? 0 then (Raise OSError, w)
    else (Return tt, {| file := truncate (file w) n; calls := calls w |}).

Section Engine.
Context `{Externals}.

(** [AES.new(key, AES.MODE_GCM, nonce)] then [cipher.decrypt(data)]:
    the constructor refuses a key that is not 16, 24 or 32 bytes long
    and an empty nonce. *)
Definition gcm (key nonce data : bytes) : io bytes :=
  fun w =>
    if negb (CBC.valid_key_length key) then (Raise ValueError, w)
    else if len nonce =? 0 then (Raise ValueError, w)
    else (Return (gcm_decrypt key nonce data),
          {| file := file w;
             calls := calls w ++ [{| call_nonce := nonce;
                                     call_length := len data |}] |}).

(** The loop over the chunks after the first, which the script has
    twice: in the chunk mode (lines 372-388) and, with
    [chunk_size = chunk_step = ENC_BLOCK_SIZE], for a small file of
    some blocks (lines 276-293).  A step that is not positive keeps
    the loop running for ever: the loop is run on fuel. *)
Fixpoint decrypt_next_chunks (fuel : nat) (key : bytes)
    (enc_size chunk_size chunk_step pos : Z) (rnd64_state_data : bytes)
  : io unit :=
  if pos <? enc_size then
    match fuel with
    | O => lift OutOfFuel
    | S fuel' =>
      io! enc_data <- f_read pos (Z.min (enc_size - pos) chunk_size);
      match enc_data with
      | [] => ret tt
      | _ =>
        let rnd64_state_data := rnd64data rnd64_state_data in
        let nonce := rnd64_state_data ++ slice_from rnd64_state_data 4 in
        io! data <- gcm key nonce enc_data;
        io! _ <- f_write pos data;
        decrypt_next_chunks fuel' key enc_size chunk_size chunk_step
                            (pos + chunk_step) rnd64_state_data
      end
    end
  else ret tt.

(** How the metadata describe the encryption (lines 167-214): by
    chunks, with their size, spacing and the encrypted size, or full
    or fast; with the wrapped key data in both. *)
Inductive layout : Type :=
| ChunkEnc (enc_keydata : bytes) (chunk_size chunk_space enc_size : Z)
| FullEnc (enc_keydata : bytes).

(** Lines 167-214; [Return None] is [return False]. *)
Definition parse_layout (metadata : bytes) : outcome (option layout) :=
  let pos := find CHUNK_INFO_MARKER1 metadata 0 in
  if 0 <=? pos then
    let enc_keydata := slice_to metadata pos in
    let pos := pos + len CHUNK_INFO_MARKER1 in
    let pos2 := find CHUNK_INFO_MARKER2 metadata pos in
    if pos2 <? 0 then Return None
    else
    do chunk_size <- float_blocks (slice metadata pos pos2);
    let pos := pos2 + len CHUNK_INFO_MARKER2 in
    let pos2 := find CHUNK_INFO_MARKER3 metadata pos in
    if pos2 <? 0 then Return None
    else
    do chunk_space <- float_blocks (slice metadata pos pos2);
    let pos := pos2 + len CHUNK_INFO_MARKER3 in
    let pos := find ENC_SIZE_MARKER metadata pos in
    if pos <? 0 then Return None
    else
    let pos := pos + len ENC_SIZE_MARKER in
    do enc_size <- int_of_bytes (slice_from metadata pos);
    Return (Some (ChunkEnc enc_keydata chunk_size chunk_space enc_size))
  else Return (Some (FullEnc metadata)).

(** Lines 217-243: the key and the nonce of the unwrapped key data;
    [None] is [return False]. *)
Definition parse_keydata (enc_keydata priv_key_data : bytes)
  : option (bytes * bytes) :=
  match rsa_decrypt enc_keydata priv_key_data with
  | None => None
  | Some keydata =>
    let pos := find KEYDATA_MARKER1 keydata 0 in
    if pos <? 0 then None
    else
    let pos := pos + len KEYDATA_MARKER1 in
    let pos2 := find KEYDATA_MARKER2 keydata pos in
    if pos2 <? 0 then None
    else
    let key := slice keydata pos pos2 in
    let pos := pos2 + len KEYDATA_MARKER2 in
    let pos2 := find KEYDATA_MARKER3 keydata pos in
    if pos2 <? 0 then None
    else
    let nonce := slice keydata pos pos2 in
    Some (key, nonce)
  end.

(** The three ways of a full or fast encryption, as lines 250-255 and
    324 tell them apart by the size left of the metadata. *)
Inductive full_mode : Set :=
| SmallFileSomeBlocks
| SmallFileSingleBlock
| FastBigFile.

Definition select_full_mode (file_size : Z) : full_mode :=
  if file_size <? MIN_BIG_FILE_SIZE then
    if ENC_BLOCK_SIZE <? file_size then SmallFileSomeBlocks
    else SmallFileSingleBlock
  else FastBigFile.

(** [max(end_markers, key=len)]: the first of the longest. *)
Fixpoint longest (best : bytes) (l : list bytes) : bytes :=
  match l with
  | [] => best
  | m :: l' => longest (if len best <? len m then m else best) l'
  end.

(** Lines 318-322: the size once the first end marker that occurs in
    [data] is cut off. *)
Fixpoint cut_end_marker (end_markers : list bytes) (data : bytes)
    (size file_size : Z) : Z :=
  match end_markers with
  | [] => file_size
  | end_marker :: rest =>
    let pos := find end_marker data 0 in
    if 0 <=? pos then file_size - (size - pos)
    else cut_end_marker rest data size file_size
  end.

(** Lines 314-322 *)
Definition remove_end_marker (end_markers : list bytes) (file_size : Z)
  : io Z :=
  let size := len (longest [] end_markers) in
  io! data <- f_read (file_size - size) size;
  ret (cut_end_marker end_markers data size file_size).

(** Full encryption, small file, some blocks (lines 256-293, then
    314-322); the result is the new [file_size]. *)
Definition decrypt_small_some_blocks (fuel : nat) (key nonce : bytes)
    (file_size : Z) : io Z :=
  let end_markers := [SMALL_FILE_END_MARKER1] in
  let enc_size := file_size - (ADDITIONAL_DATA_SIZE + 1) in
  io! enc_data <- f_read 0 (Z.min enc_size ENC_BLOCK_SIZE);
  io! data <- gcm key (slice_to nonce FULL_ENC_NONCE_SIZE1) enc_data;
  io! _ <- f_write 0 data;
  io! _ <- decrypt_next_chunks fuel key enc_size ENC_BLOCK_SIZE ENC_BLOCK_SIZE
                               ENC_BLOCK_SIZE RND64_INIT_STATE_DATA;
  remove_end_marker end_markers file_size.

(** Full encryption, small file, single block (lines 295-322) *)
Definition decrypt_small_single_block (key nonce : bytes) (file_size : Z)
  : io Z :=
  let end_markers := [SMALL_FILE_END_MARKER1] in
  let enc_size := file_size - AES_BLOCK_SIZE in
  io! enc_data <- f_read 0 enc_size;
  io! data <- gcm key (slice_to nonce FULL_ENC_NONCE_SIZE2) enc_data;
  io! _ <- f_write 0 data;
  let end_markers := end_markers ++ [SMALL_FILE_END_MARKER2] in
  remove_end_marker end_markers file_size.

(** Fast encryption, big file (lines 324-351) *)
Definition decrypt_fast_big_file (FAST_ENC_NONCE key nonce : bytes)
    (file_size : Z) : io Z :=
  let enc_size := file_size in
  io! enc_data <- f_read 0 (Z.min enc_size
                                  (FIRST_ENC_BLOCK_SIZE - AES_BLOCK_SIZE));
  io! data <- gcm key (slice_to nonce FAST_ENC_NONCE_SIZE) enc_data;
  io! _ <- f_write 0 data;
  let pos := enc_size - ENC_BLOCK_SIZE in
  io! enc_data <- f_read pos (Z.min enc_size (ENC_BLOCK_SIZE - AES_BLOCK_SIZE));
  io! data <- gcm key FAST_ENC_NONCE enc_data;
  io! _ <- f_write pos data;
  ret file_size.

(** Chunk encryption (lines 353-388) *)
Definition decrypt_chunk_enc (fuel : nat) (key nonce : bytes)
    (chunk_size chunk_space enc_size file_size : Z) : io Z :=
  let chunk_step := chunk_size + chunk_space in
  io! enc_data <- f_read 0 (Z.min enc_size chunk_size);
  io! data <- gcm key (slice_to nonce CHUNK_ENC_NONCE_SIZE) enc_data;
  io! _ <- f_write 0 data;
  let pos := chunk_step in
  io! _ <- decrypt_next_chunks fuel key enc_size chunk_size chunk_step pos
                               RND64_INIT_STATE_DATA;
  ret file_size.

(** Lines 390-393, after the decryption [mode] has left the size: the
    additional byte is taken off and the footer removed. *)
Definition then_remove_footer (mode : io Z) : io bool :=
  io! file_size <- mode;
  let file_size := file_size - ADDITIONAL_DATA_SIZE in
  io! _ <- f_truncate file_size;
  ret true.

(** Lines 245-393: the decryption that the layout and the size select,
    and the removal of the footer. *)
Definition decrypt_body (fuel : nat) (FAST_ENC_NONCE key nonce : bytes)
    (l : layout) (file_size : Z) : io bool :=
  then_remove_footer
    match l with
    | FullEnc _ =>
      match select_full_mode file_size with
      | SmallFileSomeBlocks =>
        decrypt_small_some_blocks fuel key nonce file_size
      | SmallFileSingleBlock =>
        decrypt_small_single_block key nonce file_size
      | FastBigFile =>
        decrypt_fast_big_file FAST_ENC_NONCE key nonce file_size
      end
    | ChunkEnc _ chunk_size chunk_space enc_size =>
      decrypt_chunk_enc fuel key nonce chunk_size chunk_space enc_size
                        file_size
    end.

Definition enc_keydata_of (l : layout) : bytes :=
  match l with
  | ChunkEnc enc_keydata _ _ _ => enc_keydata
  | FullEnc enc_keydata => enc_keydata
  end.

(** [decrypt_file(filename, priv_key_data)] (lines 130-395) on the
    working file, with the nonce that the script loaded into
    [FAST_ENC_NONCE]. *)
Definition decrypt_file (fuel : nat) (FAST_ENC_NONCE priv_key_data : bytes)
  : io bool :=
  fun w =>
  let file_size := len (file w) in
  if file_size <? len METADATA_MARKER2 then (Return false, w)
  else
  (* Check and remove end marker *)
  let marker := read (file w) (file_size - len METADATA_MARKER2)
                     (len METADATA_MARKER2) in
  let '(file_size, w) :=
    if bytes_eqb marker METADATA_MARKER2
    then (file_size - len METADATA_MARKER2,
          {| file := truncate (file w) (file_size - len METADATA_MARKER2);
             calls := calls w |})
    else (file_size, w) in
  if file_size <? MIN_METADATA_SIZE then (Return false, w)
  else
  (* Read metadata *)
  let size := Z.min file_size MAX_METADATA_SIZE in
  let metadata := read (file w) (len (file w) - size) size in
  let pos := find METADATA_MARKER metadata 0 in
  if pos <? 0 then (Return false, w)
  else
  let file_size := file_size - (size - pos) in
  let pos := pos + len METADATA_MARKER in
  let metadata := slice_from metadata pos in
  match parse_layout metadata with
  | Raise e => (Raise e, w)
  | OutOfFuel => (OutOfFuel, w)
  | Return None => (Return false, w)
  | Return (Some l) =>
    match parse_keydata (enc_keydata_of l) priv_key_data with
    | None => (Return false, w)
    | Some (key, nonce) =>
      decrypt_body fuel FAST_ENC_NONCE key nonce l file_size w
    end
  end.

End Engine.

(** The name of the working copy (lines 416-420 of the script): the
    file name up to the extension that the ransomware added, or with
    [.dec] added when there is no such extension.  A file name is the
    sequence of its characters. *)
Definition RANSOM_EXT_PREFIX : bytes := b "_[ID-".

Definition new_filename (filename : bytes) : bytes :=
  let pos := find RANSOM_EXT_PREFIX filename 0 in
  if 0 <=? pos then slice_to filename pos else filename ++ b ".dec".

End RCRU64.

(** ** The terms of the statements

    What the statements below say about a keystore, a key file, a
    container and an end block of Phobos. *)

Module PhobosSpec.
Import Phobos.

(** The two fields of the entry with index [i] of a keystore. *)
Definition wrapped_key (key_data : bytes) (i : Z) : bytes :=
  slice key_data (i * 160) (i * 160 + 128).

Definition symmetric_key (key_data : bytes) (i : Z) : bytes :=
  slice key_data (i * 160 + 128) (i * 160 + 160).

(** The wrapped key of a container: bytes [0x28, 0xA8) of its last
    [METADATA_SIZE] bytes. *)
Definition container_wrapped_key (file : bytes) : bytes :=
  slice (read file (len file - METADATA_SIZE) METADATA_SIZE)
        ENC_KEY_DATA_POS (ENC_KEY_DATA_POS + RSA_KEY_SIZE).

(** The footer size that the metadata of a container announce. *)
Definition container_footer_size (file : bytes) : Z :=
  int_from_le
    (slice (read file (len file - METADATA_SIZE) METADATA_SIZE)
           FOOTER_SIZE_POS (FOOTER_SIZE_POS + 4)).

(** The initialisation vector and the padding size that the metadata
    of a container announce. *)
Definition container_iv (file : bytes) : bytes :=
  slice (read file (len file - METADATA_SIZE) METADATA_SIZE)
        AES_IV_POS (AES_IV_POS + AES_IV_SIZE).

Definition container_padding_size (file : bytes) : Z :=
  int_from_le
    (slice (read file (len file - METADATA_SIZE) METADATA_SIZE)
           PADDING_SIZE_POS (PADDING_SIZE_POS + 4)).

(** The end block of a container under a key: the CBC decryption, from
    the initialisation vector of the metadata, of the
    [footer_size - 0xB2] bytes that come before the metadata. *)
Definition container_endblock `{BlockCipher} (file key : bytes) : bytes :=
  let size := container_footer_size file - METADATA_SIZE in
  fst (CBC.decrypt_blocks (Z.to_nat (size / 16)) key (container_iv file)
         (read file (len file - container_footer_size file) size)).

(** The fields of an end block: the mode and its magic number, which
    go together for the two modes, and the position of the name. *)
Definition endblock_mode (eb : bytes) : Z := int_from_le (slice eb 4 8).

Definition endblock_magic (eb : bytes) : Z := int_from_le (slice eb 8 12).

Definition name_pos (eb : bytes) : Z := int_from_le (slice eb 0x18 0x1C).

Definition magic_ok (eb : bytes) : bool :=
  ((endblock_mode eb =? 1) && (endblock_magic eb =? 0xAF77BC0F))
  || ((endblock_mode eb =? 2) && (endblock_magic eb =? 0xF0A75E12)).

(** Two zero bytes at [j] and [j + 1]: the code unit that ends the
    name. *)
Definition zero_unit (eb : bytes) (j : Z) : Prop :=
  eb !! Z.to_nat j = Some "000"%byte
  /\ eb !! Z.to_nat (j + 1) = Some "000"%byte.

(** The header fields of a key file: two little-endian words, each
    under the exclusive or with [0x17F31AAB]; and the payload, which is
    what the file holds of the [count * 160] bytes behind the header. *)
Definition header_count (key_data : bytes) : Z :=
  Z.lxor (int_from_le (slice key_data 0 4)) 0x17F31AAB.

Definition header_crc (key_data : bytes) : Z :=
  Z.lxor (int_from_le (slice key_data 4 8)) 0x17F31AAB.

Definition payload (key_data : bytes) : bytes :=
  slice key_data 8 (8 + header_count key_data * 160).

(** A key file made for a payload: the count of its entries and its
    checksum, obfuscated, then the payload, then anything. *)
Definition key_file (payload trailing : bytes) : bytes :=
  int_to_le 4 (Z.lxor (len payload / KEY_ENTRY_SIZE) KEY_DATA_XOR)
  ++ int_to_le 4 (Z.lxor (crc32 payload) KEY_DATA_XOR)
  ++ payload ++ trailing.

(** Entry [i] of the table of positions, and piece [i] of the chunk
    data. *)
Definition chunk_pos (endblock_data : bytes) (i : Z) : Z :=
  int_from_le (slice endblock_data (0x20 + i * 8) (0x20 + i * 8 + 8)).

Definition chunk_piece (chunk_data : bytes) (chunk_size i : Z) : bytes :=
  slice chunk_data (i * chunk_size) ((i + 1) * chunk_size).

(** The chunk data of an end block, as line 165 cuts them out. *)
Definition chunk_data_of (endblock_data : bytes) (num_chunks chunk_size : Z)
  : bytes :=
  slice endblock_data (0x20 + num_chunks * 8)
        (0x20 + num_chunks * 8 + num_chunks * chunk_size).

(** The three words that the multiple-chunk mode reads at [0x0C] of
    the end block: the number of the chunks, their size, and the
    checksum of the chunk data. *)
Definition endblock_num_chunks (eb : bytes) : Z :=
  int_from_le (slice eb 0x0C 0x10).

Definition endblock_chunk_size (eb : bytes) : Z :=
  int_from_le (slice eb 0x10 0x14).

Definition endblock_crc (eb : bytes) : Z := int_from_le (slice eb 0x14 0x18).

(** How many bytes of a file of [n] bytes the loop of the single-chunk
    mode decrypts: all but the excess over whole cipher blocks of the
    last, short, block, and none of that block when it has no
    excess. *)
Definition decrypted_size (n : Z) : Z :=
  let r := n mod ENC_BLOCK_SIZE in
  if r mod 16 =? 0 then n - r else n - r mod 16.

(** A value of the CRC register: 32 bits. *)
Definition in32 (c : Z) : Prop := 0 <= c < 2 ^ 32.

End PhobosSpec.

(** The working file of RCRU64 after the first lines of
    [decrypt_file], and the sequence of the nonces. *)

Module Rcru64Spec.
Import RCRU64.

(** The working file once lines 141-146 have looked for the tag. *)
Definition stripped (f : bytes) : bytes :=
  if bytes_eqb (read f (len f - len METADATA_MARKER2) (len METADATA_MARKER2))
               METADATA_MARKER2
  then truncate f (len f - len METADATA_MARKER2)
  else f.

(** The window in which line 156 looks for the metadata marker. *)
Definition metadata_window (f : bytes) : bytes :=
  let size := Z.min (len f) MAX_METADATA_SIZE in
  read f (len f - size) size.

(** The nonce that the loop builds in its [k]-th turn when it is
    entered with the state [st]: the state after [k] steps, followed
    by its bytes from the fifth on. *)
Definition nonce_from (st : bytes) (k : nat) : bytes :=
  let s := Nat.iter k rnd64data st in
  s ++ slice_from s 4.

(** The state of the sequencer after [k] steps from the constant, and
    the nonce of chunk [k] for [k >= 1]. *)
Definition sequencer_state (k : nat) : bytes :=
  Nat.iter k rnd64data RND64_INIT_STATE_DATA.

Definition chunk_nonce (k : nat) : bytes :=
  nonce_from RND64_INIT_STATE_DATA k.

(** The nonce of chunk [j] of a chunked decryption, for the nonce
    [nonce] of the key data cut to [size] bytes. *)
Definition nonce_of_chunk (nonce : bytes) (size : Z) (j : nat) : bytes :=
  match j with
  | O => slice_to nonce size
  | S _ => chunk_nonce j
  end.

(** The positions at which the metadata of a chunk encryption have
    their markers, each looked for behind the one before, and the
    texts between them. *)
Definition chunk_marker_pos (md : bytes) : Z := find CHUNK_INFO_MARKER1 md 0.

Definition size_text_end (md : bytes) : Z :=
  find CHUNK_INFO_MARKER2 md (chunk_marker_pos md + len CHUNK_INFO_MARKER1).

Definition space_text_end (md : bytes) : Z :=
  find CHUNK_INFO_MARKER3 md (size_text_end md + len CHUNK_INFO_MARKER2).

Definition size_marker_pos (md : bytes) : Z :=
  find ENC_SIZE_MARKER md (space_text_end md + len CHUNK_INFO_MARKER3).

Definition size_text (md : bytes) : bytes :=
  slice md (chunk_marker_pos md + len CHUNK_INFO_MARKER1) (size_text_end md).

Definition space_text (md : bytes) : bytes :=
  slice md (size_text_end md + len CHUNK_INFO_MARKER2) (space_text_end md).

Definition size_digits (md : bytes) : bytes :=
  slice_from md (size_marker_pos md + len ENC_SIZE_MARKER).

(** The positions of the three markers of the key data. *)
Definition key_start (kd : bytes) : Z :=
  find KEYDATA_MARKER1 kd 0 + len KEYDATA_MARKER1.

Definition key_end (kd : bytes) : Z := find KEYDATA_MARKER2 kd (key_start kd).

Definition nonce_end (kd : bytes) : Z :=
  find KEYDATA_MARKER3 kd (key_end kd + len KEYDATA_MARKER2).

(** The size that the first read of the decryption part asks for
    (lines 262, 302, 329 and 358). *)
Definition first_read (l : layout) (file_size : Z) : Z :=
  match l with
  | ChunkEnc _ chunk_size _ enc_size => Z.min enc_size chunk_size
  | FullEnc _ =>
    match select_full_mode file_size with
    | SmallFileSomeBlocks =>
      Z.min (file_size - (ADDITIONAL_DATA_SIZE + 1)) ENC_BLOCK_SIZE
    | SmallFileSingleBlock => file_size - AES_BLOCK_SIZE
    | FastBigFile => Z.min file_size (FIRST_ENC_BLOCK_SIZE - AES_BLOCK_SIZE)
    end
  end.

(** The nonces of the first [m] ciphers of a chunked decryption. *)
Definition nonces (first : bytes) (m : nat) : list bytes :=
  take m (first :: map chunk_nonce (seq 1 (m - 1))).

End Rcru64Spec.

(** ** Stand-ins for the libraries

    Small instances of the two interfaces, on which the engines can be
    run: a block function that only mixes the key into the block, a
    keystream that is the first byte of the nonce, an unwrap that
    returns the blob, and a number parser that reads whole numbers of
    bytes. *)

Module Toy.

Definition block16 (l : bytes) : bytes := take 16 (l ++ replicate 16 "000"%byte).

Lemma block16_length (l : bytes) : length (block16 l) = 16%nat.
Proof.
  unfold block16. rewrite length_take, length_app, length_replicate. lia.
Qed.

Lemma xor_block16_length (key c : bytes) :
  length (xor_bytes (block16 c) (block16 key)) = 16%nat.
Proof.
  unfold xor_bytes. rewrite length_zip_with, !block16_length. reflexivity.
Qed.

#[export] Instance cipher : BlockCipher := {|
  aes_decrypt_block key c := xor_bytes (block16 c) (block16 key);
  aes_decrypt_block_length := xor_block16_length
|}.

Definition keystream (nonce data : bytes) : bytes :=
  match nonce with
  | [] => data
  | x :: _ => map (byte_xor x) data
  end.

Lemma keystream_length (key nonce data : bytes) :
  length (keystream nonce data) = length data.
Proof. destruct nonce; simpl; [reflexivity | apply length_map]. Qed.

#[export] Instance externals : Externals := {|
  gcm_decrypt key nonce data := keystream nonce data;
  gcm_decrypt_length := keystream_length;
  rsa_decrypt enc_keydata priv_key_data := Some enc_keydata;
  float_blocks := int_of_bytes
|}.

(** A directory in which every name but the empty one can be
    created. *)
Definition fresh_but_empty (name : list Z) : place :=
  match name with
  | [] => Refused
  | _ => Fresh
  end.

#[export] Instance directory : Directory := {|
  place_of := fresh_but_empty;
  place_of_empty := eq_refl
|}.

(** Containers that the stand-in cipher opens: the CBC encryption that
    the stand-in block function undoes, and the layout of the end
    block and of the metadata that [Phobos.read_info] reads. *)

Definition le32 (n : Z) : bytes := int_to_le 4 n.
Definition le64 (n : Z) : bytes := int_to_le 8 n.

Definition pad16 (l : bytes) : bytes :=
  l ++ replicate ((16 - length l mod 16) mod 16) "000"%byte.

Fixpoint cbc_encrypt_blocks (n : nat) (key prev plain : bytes) : bytes :=
  match n with
  | O => []
  | S n' =>
    let c := xor_bytes (xor_bytes (block16 (take 16 plain)) prev) (block16 key) in
    c ++ cbc_encrypt_blocks n' key c (drop 16 plain)
  end.

Definition cbc_encrypt (key iv plain : bytes) : bytes :=
  cbc_encrypt_blocks (length plain / 16) key iv plain.

Definition key : bytes := replicate 32 "k"%byte.
Definition wrapped : bytes := replicate 128 "w"%byte.
Definition iv : bytes := replicate 16 "i"%byte.
Definition keystore : bytes := wrapped ++ key.

(** A file name as the end block holds it: UTF-16, little-endian,
    closed by a zero code unit. *)
Definition utf16le (name : string) : bytes :=
  flat_map (fun c => [c; "000"%byte]) (list_byte_of_string name)
  ++ ["000"%byte; "000"%byte].

Definition metadata (padding_size footer_size : Z) : bytes :=
  replicate 0x14 "000"%byte ++ iv ++ le32 padding_size ++ wrapped
  ++ le32 footer_size ++ replicate 6 "A"%byte.

Definition container (body endblock : bytes) (padding_size : Z) : bytes :=
  let endblock := pad16 endblock in
  body ++ cbc_encrypt key iv endblock
       ++ metadata padding_size (len endblock + 0xB2).

(** The end block of the multiple-chunk mode: header, table of
    positions, chunk data, file name. *)
Definition endblock_chunks (table : list Z) (chunk_size crc : Z)
    (chunk_data : bytes) (name : string) : bytes :=
  le32 0 ++ le32 1 ++ le32 0xAF77BC0F
  ++ le32 (Z.of_nat (length table)) ++ le32 chunk_size ++ le32 crc
  ++ le32 (0x20 + 8 * Z.of_nat (length table) + len chunk_data) ++ le32 0
  ++ flat_map le64 table ++ chunk_data ++ utf16le name.

(** The end block of the single-chunk mode. *)
Definition endblock_single (name : string) : bytes :=
  le32 0 ++ le32 2 ++ le32 0xF0A75E12 ++ replicate 12 "000"%byte
  ++ le32 0x20 ++ le32 0 ++ utf16le name.

End Toy.

(** ** Sample inputs *)

Module Samples.
Import PhobosSpec Rcru64Spec.

(** A keystore of two entries with the same wrapped key and different
    symmetric keys, and a container with that wrapped key. *)
Definition twin_keystore : bytes :=
  replicate 128 "w"%byte ++ replicate 32 "1"%byte
  ++ replicate 128 "w"%byte ++ replicate 32 "2"%byte.

Definition twin_container : bytes :=
  replicate 0x28 "000"%byte ++ replicate 128 "w"%byte
  ++ replicate 10 "000"%byte.

(** A key file with one entry and the header that goes with it. *)
Definition one_key_payload : bytes :=
  replicate 128 "w"%byte ++ replicate 32 "k"%byte.

Definition one_key_file : bytes :=
  int_to_le 4 (Z.lxor 1 Phobos.KEY_DATA_XOR)
  ++ int_to_le 4 (Z.lxor (crc32 one_key_payload) Phobos.KEY_DATA_XOR)
  ++ one_key_payload.

(** A key file that announces three entries and holds one, with the
    checksum of that one. *)
Definition inflated_key_file : bytes :=
  int_to_le 4 (Z.lxor 3 Phobos.KEY_DATA_XOR)
  ++ int_to_le 4 (Z.lxor (crc32 one_key_payload) Phobos.KEY_DATA_XOR)
  ++ one_key_payload.

(** A container of the multiple-chunk mode whose stored checksum is
    wrong. *)
Definition bad_crc_container : bytes :=
  Toy.container (b "0123456789abcdef")
    (Toy.endblock_chunks [2; 8] 4 0 (b "ABCDEFGH") "a.txt") 0.



Definition nameless_container : bytes :=
  Toy.container (b "0123456789abcdef") (Toy.endblock_single "") 3.

(** An end block of 48 bytes that announces one chunk of 16 bytes for
    position 0 and holds 8 of them, with the checksum of those 8 (they
    start with the file name [ab] and its terminator), and a file of
    32 bytes. *)
Definition short_chunk_data : bytes :=
  b "a" ++ ["000"%byte] ++ b "b" ++ ["000"%byte; "000"%byte; "000"%byte]
  ++ b "XY".

Definition short_endblock : bytes :=
  Toy.le32 0 ++ Toy.le32 1 ++ Toy.le32 0xAF77BC0F
  ++ Toy.le32 1 ++ Toy.le32 16 ++ Toy.le32 (crc32 short_chunk_data)
  ++ Toy.le32 0x28 ++ Toy.le32 0 ++ Toy.le64 0 ++ short_chunk_data.

Definition filled_file : bytes := replicate 32 "z"%byte.

(** A container of the single-chunk mode, 240 bytes long: 14 bytes of
    data, an end block of 48 bytes, the metadata. *)
Definition aligned_container : bytes :=
  Toy.container (b "0123456789abcd") (Toy.endblock_single "a.txt") 3.

(** A container of the single-chunk mode, 242 bytes long, whose 16
    bytes of data are encrypted under the key and the initialisation
    vector of the container. *)
Definition unaligned_container : bytes :=
  Toy.container (Toy.cbc_encrypt Toy.key Toy.iv (b "0123456789abcdef"))
                (Toy.endblock_single "a.txt") 3.

(** A keystore cut after the wrapped key of its only entry, the key
    file that holds it, and a container with that wrapped key and an
    end block of 16 bytes. *)
Definition truncated_keystore : bytes := Toy.wrapped.

Definition truncated_key_file : bytes :=
  Toy.le32 (Z.lxor 1 Phobos.KEY_DATA_XOR)
  ++ Toy.le32 (Z.lxor (crc32 truncated_keystore) Phobos.KEY_DATA_XOR)
  ++ truncated_keystore.

Definition plain_container : bytes :=
  replicate 16 "000"%byte ++ Toy.metadata 0 (16 + 0xB2).

(** Containers that open under the key of the keystore and fail
    behind it: a mode 1 with the magic number of mode 2; a name of
    eight letters that no zero code unit ends, once at position
    [0x20] and once at the odd position [0x21], from where the scan
    takes the last byte of the end block for the first of a pair; a
    name that is a single high surrogate; and an end block of 16
    bytes, which stops short of the position of the name. *)
Definition single_header (name_pos : Z) : bytes :=
  Toy.le32 0 ++ Toy.le32 2 ++ Toy.le32 0xF0A75E12 ++ replicate 12 "000"%byte
  ++ Toy.le32 name_pos ++ Toy.le32 0.

Definition open_name : bytes :=
  flat_map (fun c => [c; "000"%byte]) (b "abcdefgh").

Definition wrong_magic_container : bytes :=
  Toy.container (b "0123456789abcdef")
    (Toy.le32 0 ++ Toy.le32 1 ++ Toy.le32 0xF0A75E12
     ++ replicate 20 "000"%byte) 0.

Definition unterminated_container : bytes :=
  Toy.container (b "0123456789abcdef") (single_header 0x20 ++ open_name) 0.

Definition odd_name_container : bytes :=
  Toy.container (b "0123456789abcdef") (single_header 0x21 ++ open_name) 0.

Definition surrogate_container : bytes :=
  Toy.container (b "0123456789abcdef")
    (single_header 0x20 ++ ["000"%byte; "216"%byte; "000"%byte; "000"%byte]) 0.

Definition headless_container : bytes :=
  Toy.container (b "0123456789abcdef")
    (Toy.le32 0 ++ Toy.le32 2 ++ Toy.le32 0xF0A75E12 ++ Toy.le32 0) 0.

(** Working files of RCRU64 with 20 bytes of data, the metadata
    marker, the given start of the metadata, and 240 dots. *)
Definition tagged_world (metadata : bytes) : RCRU64.world :=
  {| RCRU64.file :=
       replicate 20 "z"%byte ++ RCRU64.METADATA_MARKER ++ metadata
       ++ replicate 240 "."%byte;
     RCRU64.calls := [] |}.

(** A working file of 2048000 zero bytes, which stands for a fast
    encrypted file with the metadata already taken off. *)
Definition big_world : RCRU64.world :=
  {| RCRU64.file := replicate (Z.to_nat 2048000) "000"%byte;
     RCRU64.calls := [] |}.

(** A working file of 304 bytes: 20 bytes of a fully encrypted file,
    the metadata marker, and key data that hold a key of 32 bytes and
    a nonce. *)
Definition small_world : RCRU64.world :=
  {| RCRU64.file :=
       replicate 20 "z"%byte ++ RCRU64.METADATA_MARKER
       ++ RCRU64.KEYDATA_MARKER1 ++ Toy.key
       ++ RCRU64.KEYDATA_MARKER2 ++ b "nonce"
       ++ RCRU64.KEYDATA_MARKER3 ++ replicate 230 "."%byte;
     RCRU64.calls := [] |}.

(** A working file of 24 bytes, of which 20 are encrypted in chunks of
    4 bytes that are 4 bytes apart: three chunks. *)
Definition chunked_world : RCRU64.world :=
  {| RCRU64.file := replicate 24 "z"%byte; RCRU64.calls := [] |}.

End Samples.

Example crc32_check_value : crc32 (b "123456789") = 0xCBF43926.
Proof. vm_compute. reflexivity. Qed.

Example slice_minus_zero : slice_to (b "abc") (- 0) = [] /\ slice_from (b "abc") (- 0) = b "abc".
Proof. split; reflexivity. Qed.

Example int_of_bytes_examples :
  int_of_bytes (b "1024000") = Return 1024000 /\
  int_of_bytes (b " -1_0 ") = Return (-10) /\
  int_of_bytes (b "") = Raise ValueError /\
  int_of_bytes (b "1__0") = Raise ValueError /\
  int_of_bytes (b "12a") = Raise ValueError.
Proof. repeat split; reflexivity. Qed.

Example utf16_examples :
  utf16_decode (b "a" ++ [x00] ++ b "b" ++ [x00]) = Return [97; 98] /\
  utf16_decode [x00; xdc] = Raise UnicodeDecodeError /\
  utf16_decode [x3d; xd8; x00; xde] = Return [0x1F600] /\
  after_last 92 [67; 92; 97; 92; 98] = [98] /\ after_last 92 [97; 98] = [97; 98].
Proof. repeat split; reflexivity. Qed.

Example find_examples :
  find (b "ab") (b "xxabab") 0 = 2 /\ find (b "ab") (b "xxabab") 3 = 4 /\
  find (b "ab") (b "xxabab") 5 = -1 /\ find (b "") (b "xy") 2 = 2 /\
  find (b "") (b "xy") 3 = -1.
Proof. repeat split; reflexivity. Qed.

(** * Properties *)

(** ** Byte strings *)

Lemma byte_eqb_eq (x y : byte) : Byte.eqb x y = true <-> x = y.
Proof.
  split; [apply Byte.byte_dec_bl | apply Byte.byte_dec_lb].
Qed.

Lemma bytes_eqb_eq (x y : bytes) : bytes_eqb x y = true <-> x = y.
Proof.
  revert y; induction x as [|c x IH]; intros [|d y]; simpl; try easy.
  rewrite andb_true_iff, byte_eqb_eq, IH. split.
  - intros [-> ->]; reflexivity.
  - intros [= -> ->]; auto.
Qed.

Lemma bytes_eqb_neq (x y : bytes) : bytes_eqb x y = false <-> x <> y.
Proof.
  rewrite <- bytes_eqb_eq. destruct (bytes_eqb x y); split; congruence.
Qed.

Lemma byte_to_Z_range (x : byte) : 0 <= byte_to_Z x < 256.
Proof. unfold byte_to_Z. pose proof (Byte.to_N_bounded x). lia. Qed.

Lemma byte_to_Z_inj (x y : byte) : byte_to_Z x = byte_to_Z y -> x = y.
Proof.
  unfold byte_to_Z. intros E. apply N2Z.inj in E.
  pose proof (Byte.of_to_N x) as Hx. rewrite E, Byte.of_to_N in Hx. congruence.
Qed.

Lemma int_from_le_nonneg (l : bytes) : 0 <= int_from_le l.
Proof.
  induction l as [|x l IH]; simpl; [lia|].
  pose proof (byte_to_Z_range x). lia.
Qed.

Lemma land_15 (n : Z) : Z.land n 0xF = n mod 16.
Proof. change 0xF with (Z.ones 4). rewrite Z.land_ones by lia. reflexivity. Qed.

Lemma len_nonneg (l : bytes) : 0 <= len l.
Proof. unfold len; lia. Qed.

Lemma len_app (x y : bytes) : len (x ++ y) = len x + len y.
Proof. unfold len; rewrite length_app; lia. Qed.

Lemma clamp_range (n i : Z) : 0 <= n -> 0 <= clamp n i <= n.
Proof. unfold clamp; destruct (i <? 0) eqn:E; lia. Qed.

Lemma clamp_inside (n i : Z) : 0 <= i <= n -> clamp n i = i.
Proof. unfold clamp; destruct (i <? 0) eqn:E; lia. Qed.

Lemma len_slice (l : bytes) (lo hi : Z) :
  0 <= lo <= hi -> len (slice l lo hi) = Z.min hi (len l) - Z.min lo (len l).
Proof.
  intros Hb. unfold slice, len, clamp.
  replace (lo <? 0) with false by lia. replace (hi <? 0) with false by lia.
  rewrite length_take, length_drop. lia.
Qed.

(** ** CBC decryption in pieces *)

Module CbcFacts.
Import Phobos.

Section CbcFacts.
Context `{BlockCipher}.

Lemma decrypt_blocks_app (n : nat) :
  forall (key prev x y : bytes) (m : nat),
  length x = (16 * n)%nat ->
  CBC.decrypt_blocks (n + m) key prev (x ++ y)
  = let '(p1, last1) := CBC.decrypt_blocks n key prev x in
    let '(p2, last2) := CBC.decrypt_blocks m key last1 y in
    (p1 ++ p2, last2).
Proof.
  induction n as [|n IH]; intros key prev x y m Hx.
  - destruct x; [|simpl in Hx; lia]. cbn [CBC.decrypt_blocks Nat.add app].
    destruct (CBC.decrypt_blocks m key prev y). reflexivity.
  - replace (S n + m)%nat with (S (n + m)) by lia.
    cbn [CBC.decrypt_blocks].
    rewrite take_app_le, drop_app_le by lia.
    rewrite IH by (rewrite length_drop; lia).
    destruct (CBC.decrypt_blocks n key (take 16 x) (drop 16 x)) as [p1 l1].
    destruct (CBC.decrypt_blocks m key l1 y) as [p2 l2].
    rewrite <- app_assoc. reflexivity.
Qed.

Lemma decrypt_blocks_length (n : nat) :
  forall (key prev data : bytes),
  length prev = 16%nat -> (16 * n <= length data)%nat ->
  length (fst (CBC.decrypt_blocks n key prev data)) = (16 * n)%nat /\
  length (snd (CBC.decrypt_blocks n key prev data)) = 16%nat.
Proof.
  induction n as [|n IH]; intros key prev data Hprev Hdata.
  - cbn. auto.
  - cbn [CBC.decrypt_blocks].
    destruct (IH key (take 16 data) (drop 16 data)) as [Hp Hl].
    { rewrite length_take. lia. }
    { rewrite length_drop. lia. }
    destruct (CBC.decrypt_blocks n key (take 16 data) (drop 16 data))
      as [rest last]. cbn [fst snd] in *.
    split; [|exact Hl].
    unfold xor_bytes. rewrite length_app, length_zip_with.
    rewrite aes_decrypt_block_length. lia.
Qed.

(** Decrypting whole blocks in two calls is decrypting them in
    one: the cipher object carries the chain on. *)
Lemma cbc_decrypt_app (c : CBC.cipher) (x y : bytes) :
  len x mod 16 = 0 -> len y mod 16 = 0 ->
  CBC.decrypt c (x ++ y)
  = do (p1, c1) <- CBC.decrypt c x;
    do (p2, c2) <- CBC.decrypt c1 y;
    Return (p1 ++ p2, c2).
Proof.
  intros Hx Hy. unfold CBC.decrypt.
  rewrite len_app.
  replace ((len x + len y) mod 16 =? 0) with true
    by (symmetry; apply Z.eqb_eq; Z.div_mod_to_equations; lia).
  rewrite Hx, Hy. cbn [Z.eqb negb].
  replace (Z.to_nat ((len x + len y) / 16))
    with (Z.to_nat (len x / 16) + Z.to_nat (len y / 16))%nat; cycle 1.
  { pose proof (len_nonneg x). pose proof (len_nonneg y).
    rewrite <- Z2Nat.inj_add by (apply Z.div_pos; lia). f_equal.
    Z.div_mod_to_equations. lia. }
  rewrite decrypt_blocks_app; cycle 1.
  { unfold len in *. Z.div_mod_to_equations. lia. }
  destruct (CBC.decrypt_blocks _ (CBC.ckey c) (CBC.chain c) x) as [p1 l1].
  cbn [bind CBC.ckey CBC.chain].
  destruct (CBC.decrypt_blocks _ (CBC.ckey c) l1 y) as [p2 l2].
  reflexivity.
Qed.

Lemma cbc_decrypt_whole (c : CBC.cipher) (data : bytes) :
  length (CBC.chain c) = 16%nat -> len data mod 16 = 0 ->
  exists plain c',
    CBC.decrypt c data = Return (plain, c') /\
    len plain = len data /\ length (CBC.chain c') = 16%nat.
Proof.
  intros Hchain Hdata. unfold CBC.decrypt. rewrite Hdata. cbn [Z.eqb negb].
  destruct (decrypt_blocks_length (Z.to_nat (len data / 16)) (CBC.ckey c)
              (CBC.chain c) data Hchain) as [Hp Hl].
  { unfold len in *. Z.div_mod_to_equations. lia. }
  destruct (CBC.decrypt_blocks _ _ _ data) as [plain last].
  cbn [fst snd] in *. eexists _, _. split; [reflexivity|].
  split; [|exact Hl]. unfold len in *. rewrite Hp.
  Z.div_mod_to_equations. lia.
Qed.

Lemma cbc_new_chain (key iv : bytes) (c : CBC.cipher) :
  CBC.new key iv = Return c -> length (CBC.chain c) = 16%nat.
Proof.
  unfold CBC.new.
  destruct (negb (CBC.valid_key_length _)); [discriminate|].
  destruct (len iv =? 16) eqn:E; [|discriminate].
  intros [= <-]. cbn [CBC.chain]. apply Z.eqb_eq in E.
  unfold len in E. lia.
Qed.

End CbcFacts.
End CbcFacts.

(** ** C7: the key search *)

Module KeySearch.
Import PhobosSpec.

Import Phobos.

Lemma find_key_from_spec (n : nat) (k : Z) (enc key_data : bytes) :
  0 <= k ->
  match find_key_from n (k * 160) enc key_data with
  | Some key =>
    exists i, k <= i < k + Z.of_nat n /\
      wrapped_key key_data i = enc /\
      key = symmetric_key key_data i /\
      forall j, k <= j < i -> wrapped_key key_data j <> enc
  | None =>
    forall j, k <= j < k + Z.of_nat n -> wrapped_key key_data j <> enc
  end.
Proof.
  revert k; induction n as [|n IH]; intros k Hk; simpl.
  - intros j Hj; lia.
  - destruct (bytes_eqb enc _) eqn:E.
    + apply bytes_eqb_eq in E. exists k. split; [lia|].
      unfold wrapped_key, symmetric_key, RSA_KEY_SIZE, AES_KEY_SIZE in *.
      split; [symmetry; exact E|]. split.
      * f_equal; lia.
      * intros j Hj; lia.
    + apply bytes_eqb_neq in E.
      replace (k * 160 + KEY_ENTRY_SIZE) with ((k + 1) * 160)
        by (unfold KEY_ENTRY_SIZE, RSA_KEY_SIZE, AES_KEY_SIZE; lia).
      specialize (IH (k + 1) ltac:(lia)).
      assert (Hne : wrapped_key key_data k <> enc)
        by (unfold wrapped_key; unfold RSA_KEY_SIZE in E; congruence).
      destruct (find_key_from n ((k + 1) * 160) enc key_data) as [key|].
      * destruct IH as (i & Hi & Hw & Hs & Hfirst). exists i.
        split; [lia|]. split; [exact Hw|]. split; [exact Hs|].
        intros j Hj. destruct (Z.eq_dec j k) as [->|]; [exact Hne|].
        apply Hfirst; lia.
      * intros j Hj. destruct (Z.eq_dec j k) as [->|]; [exact Hne|].
        apply IH; lia.
Qed.

Lemma range_count_entries (key_data : bytes) (i : Z) :
  0 <= i ->
  (i < Z.of_nat (range_count 0 (len key_data) KEY_ENTRY_SIZE)
   <-> i * 160 < len key_data).
Proof.
  intros Hi. unfold range_count, KEY_ENTRY_SIZE, RSA_KEY_SIZE, AES_KEY_SIZE.
  pose proof (len_nonneg key_data) as Hl.
  replace (len key_data - 0 + (128 + 32) - 1) with (len key_data + 159) by lia.
  rewrite Z2Nat.id by (apply Z.div_pos; lia).
  split; intros Hlt; Z.div_mod_to_equations; lia.
Qed.

End KeySearch.

Module KeyLookup.
Import Phobos PhobosSpec KeySearch Samples.

Section KeyLookup.
Context `{BlockCipher} {D : Directory}.

Lemma read_info_key (file key_data : bytes) (i : info) :
  read_info file key_data = Return (Some i) ->
  find_key (container_wrapped_key file) key_data = Some (aes_key i).
Proof.
  unfold read_info, container_wrapped_key.
  destruct (len file <? METADATA_SIZE); [discriminate|].
  destruct (find_key _ key_data) as [key|]; [|discriminate].
  intros Hr. f_equal.
  repeat match type of Hr with
  | bind ?m _ = _ => destruct m as [?|?|]; simpl in Hr; try discriminate
  | (if ?c then _ else _) = _ => destruct c; try discriminate
  | (let (_, _) := ?p in _) = _ => destruct p
  | match ?m with _ => _ end = _ => destruct m; try discriminate
  end.
  inversion Hr. reflexivity.
Qed.

Lemma decrypt_file2_no_key (file key_data : bytes) :
  find_key (container_wrapped_key file) key_data = None ->
  decrypt_file2 file key_data = finish (Return false).
Proof.
  intros Hfind. unfold decrypt_file2, read_info.
  destruct (len file <? METADATA_SIZE); [reflexivity|].
  fold (container_wrapped_key file). rewrite Hfind. reflexivity.
Qed.

(** C7 (amended). The key search of [decrypt_file2] walks the keystore
    in entries of 160 bytes and answers with the symmetric-key field
    of the first entry whose wrapped-key field equals the wrapped key
    of the container, whatever later entries hold.  The field is what
    the keystore holds of the 32 bytes behind the wrapped key: all 32
    exactly when the entry is whole, as every entry is in a keystore
    of whole entries, and fewer, or none, when the keystore ends
    inside the entry.  When no entry matches, the search fails and
    [decrypt_file2] returns [False]. *)
Theorem find_key_first_match (file key_data : bytes) :
  match find_key (container_wrapped_key file) key_data with
  | Some key =>
    (exists i, 0 <= i /\ i * 160 < len key_data /\
       wrapped_key key_data i = container_wrapped_key file /\
       key = symmetric_key key_data i /\
       (forall j, 0 <= j < i ->
          wrapped_key key_data j <> container_wrapped_key file) /\
       len key = Z.max 0 (Z.min 32 (len key_data - (i * 160 + 128))) /\
       (len key = 32 <-> i * 160 + 160 <= len key_data) /\
       (len key_data mod 160 = 0 -> len key = 32)) /\
    (forall i, read_info file key_data = Return (Some i) -> aes_key i = key)
  | None =>
    (forall i, 0 <= i -> i * 160 < len key_data ->
       wrapped_key key_data i <> container_wrapped_key file) /\
    decrypt_file2 file key_data = finish (Return false)
  end.
Proof.
  pose proof (find_key_from_spec
                (range_count 0 (len key_data) KEY_ENTRY_SIZE) 0
                (container_wrapped_key file) key_data ltac:(lia)) as Hspec.
  change (0 * 160) with 0 in Hspec. fold (find_key (container_wrapped_key file) key_data) in Hspec.
  destruct (find_key (container_wrapped_key file) key_data) as [key|] eqn:Hfind.
  - split.
    + destruct Hspec as (i & Hi & Hw & Hs & Hfirst).
      assert (Hlt : i * 160 < len key_data)
        by (apply range_count_entries; lia).
      exists i. split; [lia|]. split; [lia|]. split; [exact Hw|].
      split; [exact Hs|]. split; [intros j Hj; apply Hfirst; lia|].
      assert (Hlen : len key
                     = Z.max 0 (Z.min 32 (len key_data - (i * 160 + 128)))).
      { subst key. unfold symmetric_key. rewrite len_slice by lia. lia. }
      split; [exact Hlen|]. split; [lia|].
      intros Hmod. rewrite Hlen. Z.div_mod_to_equations; lia.
    + intros i Hi. apply read_info_key in Hi. congruence.
  - split.
    + intros i Hi Hlt. apply Hspec.
      pose proof (proj2 (range_count_entries key_data i Hi) Hlt). lia.
    + apply decrypt_file2_no_key, Hfind.
Qed.

End KeyLookup.

Lemma find_key_first_match_witness :
  find_key (container_wrapped_key twin_container) twin_keystore
  = Some (replicate 32 "1"%byte).
Proof.
  pose proof (find_key_first_match (H := Toy.cipher) (D := Toy.directory)
                twin_container twin_keystore) as Hk.
  destruct (find_key _ twin_keystore) as [key|] eqn:Hfind.
  - destruct Hk as [(i & Hi & Hlt & Hw & -> & Hfirst & _) _].
    assert (i = 0 \/ i = 1) as [-> | ->]
      by (change (len twin_keystore) with 320 in Hlt; lia).
    + reflexivity.
    + exfalso. apply (Hfirst 0); [lia | reflexivity].
  - exfalso. destruct Hk as [Hnone _]. apply (Hnone 0); [lia | reflexivity | reflexivity].
Defined.

(** A keystore that ends behind the wrapped key of its entry: the
    entry matches the container, and the key that the search answers
    with is empty. *)
Lemma cut_entry_counterexample :
  len truncated_keystore = 128 /\
  wrapped_key truncated_keystore 0 = container_wrapped_key plain_container /\
  exists key,
    find_key (container_wrapped_key plain_container) truncated_keystore
    = Some key /\
    len key <> 32.
Proof.
  split; [reflexivity|]. split; [vm_compute; reflexivity|].
  exists []. split; [vm_compute; reflexivity | discriminate].
Qed.

End KeyLookup.

(** ** C8: the key file *)

Module Crc.
Import PhobosSpec.

Lemma lxor_range (n a c : Z) :
  0 < n -> 0 <= a < 2 ^ n -> 0 <= c < 2 ^ n -> 0 <= Z.lxor a c < 2 ^ n.
Proof.
  intros Hn Ha Hc.
  assert (Hnn : 0 <= Z.lxor a c) by (apply Z.lxor_nonneg; lia).
  split; [exact Hnn|].
  destruct (Z.eq_dec (Z.lxor a c) 0) as [->|Hz]; [apply Z.pow_pos_nonneg; lia|].
  apply Z.log2_lt_pow2; [lia|].
  pose proof (Z.log2_lxor a c ltac:(lia) ltac:(lia)) as Hl.
  assert (Z.log2 a < n).
  { destruct (Z.eq_dec a 0) as [->|]; [simpl; lia|].
    apply Z.log2_lt_pow2; lia. }
  assert (Z.log2 c < n).
  { destruct (Z.eq_dec c 0) as [->|]; [simpl; lia|].
    apply Z.log2_lt_pow2; lia. }
  lia.
Qed.

Lemma lxor_inj_l (a c d : Z) : Z.lxor a c = Z.lxor a d -> c = d.
Proof.
  intros E. rewrite <- (Z.lxor_0_l c), <- (Z.lxor_0_l d), <- (Z.lxor_nilpotent a).
  rewrite !Z.lxor_assoc. congruence.
Qed.

Lemma lxor_inj_r (a c d : Z) : Z.lxor c a = Z.lxor d a -> c = d.
Proof. rewrite !(Z.lxor_comm _ a). apply lxor_inj_l. Qed.

Lemma testbit_32 (c : Z) : in32 c -> Z.testbit c 32 = false.
Proof.
  intros Hc. apply Z.testbit_false; [lia|].
  rewrite Z.div_small by exact Hc. reflexivity.
Qed.

Lemma crc_shift_range (c : Z) : in32 c -> in32 (crc_shift c).
Proof.
  intros Hc. unfold crc_shift.
  assert (Hs : 0 <= Z.shiftr c 1 < 2 ^ 32).
  { rewrite Z.shiftr_div_pow2 by lia. unfold in32 in Hc.
    change (2 ^ 1) with 2. Z.div_mod_to_equations; lia. }
  destruct (Z.testbit c 0); [|exact Hs].
  apply lxor_range; [lia | exact Hs | unfold CRC_POLY; lia].
Qed.

(** The bit shifted out is the top bit of what comes out. *)
Lemma crc_shift_top (c : Z) : in32 c -> Z.testbit (crc_shift c) 31 = Z.testbit c 0.
Proof.
  intros Hc. unfold crc_shift. destruct (Z.testbit c 0).
  - rewrite Z.lxor_spec, Z.shiftr_spec by lia.
    change (31 + 1) with 32. rewrite testbit_32 by exact Hc. reflexivity.
  - rewrite Z.shiftr_spec by lia. change (31 + 1) with 32.
    apply testbit_32; exact Hc.
Qed.

Lemma crc_shift_inj (c d : Z) :
  in32 c -> in32 d -> crc_shift c = crc_shift d -> c = d.
Proof.
  intros Hc Hd E.
  assert (Hbit : Z.testbit c 0 = Z.testbit d 0)
    by (rewrite <- !crc_shift_top by assumption; congruence).
  assert (Hhigh : Z.shiftr c 1 = Z.shiftr d 1).
  { unfold crc_shift in E. rewrite <- Hbit in E.
    destruct (Z.testbit c 0); [apply lxor_inj_r in E|]; exact E. }
  rewrite !Z.shiftr_div_pow2 in Hhigh by lia. change (2 ^ 1) with 2 in Hhigh.
  pose proof (Z.bit0_mod c) as Hc0. pose proof (Z.bit0_mod d) as Hd0.
  rewrite Hbit in Hc0.
  rewrite (Z.div_mod c 2), (Z.div_mod d 2) by lia. congruence.
Qed.

Lemma iter_shift_range (n : nat) (c : Z) :
  in32 c -> in32 (Nat.iter n crc_shift c).
Proof. intros Hc. induction n; simpl; [exact Hc | apply crc_shift_range, IHn]. Qed.

Lemma iter_shift_inj (n : nat) (c d : Z) :
  in32 c -> in32 d -> Nat.iter n crc_shift c = Nat.iter n crc_shift d -> c = d.
Proof.
  intros Hc Hd. induction n; simpl; [auto|].
  intros E. apply IHn, crc_shift_inj; auto using iter_shift_range.
Qed.

Lemma crc_byte_range (c : Z) (x : byte) : in32 c -> in32 (crc_byte c x).
Proof.
  intros Hc. apply iter_shift_range, lxor_range; [lia | exact Hc |].
  pose proof (byte_to_Z_range x). lia.
Qed.

Lemma crc_byte_inj_state (c d : Z) (x : byte) :
  in32 c -> in32 d -> crc_byte c x = crc_byte d x -> c = d.
Proof.
  intros Hc Hd E. pose proof (byte_to_Z_range x).
  apply iter_shift_inj in E; [eapply lxor_inj_r; exact E | |];
    apply lxor_range; unfold in32 in *; lia.
Qed.

Lemma crc_byte_inj_byte (c : Z) (x y : byte) :
  in32 c -> crc_byte c x = crc_byte c y -> x = y.
Proof.
  intros Hc E. pose proof (byte_to_Z_range x). pose proof (byte_to_Z_range y).
  apply iter_shift_inj in E;
    [apply byte_to_Z_inj; eapply lxor_inj_l; exact E | |];
    apply lxor_range; unfold in32 in *; lia.
Qed.

Lemma crc_fold_range (l : bytes) (c : Z) :
  in32 c -> in32 (fold_left crc_byte l c).
Proof.
  revert c; induction l as [|x l IH]; intros c Hc; simpl;
    [exact Hc | apply IH, crc_byte_range, Hc].
Qed.

Lemma crc_fold_inj (l : bytes) (c d : Z) :
  in32 c -> in32 d -> fold_left crc_byte l c = fold_left crc_byte l d -> c = d.
Proof.
  revert c d; induction l as [|x l IH]; intros c d Hc Hd; simpl; [auto|].
  intros E. apply IH in E; auto using crc_byte_range.
  eapply crc_byte_inj_state; eauto.
Qed.

(** [crc32] tells apart two byte strings that differ in one byte. *)
Lemma crc32_one_byte (l1 l2 : bytes) (x y : byte) :
  crc32 (l1 ++ x :: l2) = crc32 (l1 ++ y :: l2) -> x = y.
Proof.
  unfold crc32. intros E. apply lxor_inj_r in E.
  rewrite !fold_left_app in E. simpl in E.
  assert (Hs : in32 (fold_left crc_byte l1 4294967295))
    by (apply crc_fold_range; unfold in32; lia).
  apply crc_fold_inj in E; auto using crc_byte_range.
  eapply crc_byte_inj_byte; eauto.
Qed.

End Crc.

Lemma slice_take_drop (l : bytes) (lo hi : Z) :
  0 <= lo <= hi ->
  slice l lo hi = take (Z.to_nat (hi - lo)) (drop (Z.to_nat lo) l).
Proof.
  intros Hb. unfold slice, clamp.
  replace (lo <? 0) with false by lia. replace (hi <? 0) with false by lia.
  pose proof (len_nonneg l) as Hl. unfold len in *.
  destruct (Z_le_gt_dec lo (Z.of_nat (length l))).
  - rewrite (Z.min_l lo) by lia.
    apply list_eq; intros i. rewrite !lookup_take, !lookup_drop.
    repeat case_decide; try reflexivity; try lia.
    symmetry. apply lookup_ge_None_2. lia.
  - rewrite !(drop_ge l) by lia. rewrite !take_nil. reflexivity.
Qed.

Module KeyFile.
Import Phobos PhobosSpec Crc Samples.

Lemma header_count_nonneg (key_data : bytes) : 0 <= header_count key_data.
Proof.
  unfold header_count. apply Z.lxor_nonneg.
  pose proof (int_from_le_nonneg (slice key_data 0 4)). lia.
Qed.

Lemma load_keys_unfold (key_data : bytes) :
  8 <= len key_data ->
  load_keys key_data =
    if negb (header_crc key_data =? crc32 (payload key_data))
    then Raise (SystemExit 1) else Return (payload key_data).
Proof.
  intros Hl. unfold load_keys, unpack_2L.
  replace (0 + 8 <=? len key_data) with true by lia. reflexivity.
Qed.

(** Replacing a byte behind the header changes neither header field,
    and changes the payload in that byte when it is part of it. *)
Lemma header_insert (key_data : bytes) (p : nat) (y : byte) :
  (8 <= p)%nat ->
  header_count (<[p := y]> key_data) = header_count key_data /\
  header_crc (<[p := y]> key_data) = header_crc key_data.
Proof.
  intros Hp. unfold header_count, header_crc.
  rewrite !slice_take_drop by lia.
  rewrite !drop_insert_ge by lia. rewrite !take_insert_ge by lia. auto.
Qed.

Lemma payload_insert (key_data : bytes) (p : nat) (x y : byte) :
  (8 <= p < 8 + length (payload key_data))%nat ->
  key_data !! p = Some x ->
  exists l1 l2, payload key_data = l1 ++ x :: l2 /\
                payload (<[p := y]> key_data) = l1 ++ y :: l2.
Proof.
  intros Hp Hx. unfold payload in *.
  destruct (header_insert key_data p y ltac:(lia)) as [-> _].
  pose proof (header_count_nonneg key_data) as Hc.
  set (n := header_count key_data * 160) in *.
  assert (0 <= n) by (unfold n; lia).
  rewrite !slice_take_drop in * by lia.
  replace (Z.to_nat 8) with 8%nat in * by reflexivity.
  rewrite length_take, length_drop in Hp.
  rewrite drop_insert_ge by lia. rewrite take_insert_lt by lia.
  set (pl := take (Z.to_nat (8 + n - 8)) (drop 8 key_data)).
  assert (Hpl : pl !! (p - 8)%nat = Some x).
  { unfold pl. rewrite lookup_take_lt by lia. rewrite lookup_drop.
    replace (8 + (p - 8))%nat with p by lia. exact Hx. }
  exists (take (p - 8) pl), (drop (S (p - 8)) pl). split.
  - symmetry. apply take_drop_middle. exact Hpl.
  - apply insert_take_drop. apply lookup_lt_Some in Hpl. exact Hpl.
Qed.

Section KeyFile.
Context `{BlockCipher} {D : Directory}.

Lemma main_rejects (key_data file : bytes) :
  load_keys key_data = Raise (SystemExit 1) ->
  main key_data file = (Raise (SystemExit 1), None).
Proof. unfold main. intros ->. reflexivity. Qed.

Lemma len_payload (key_data : bytes) :
  8 <= len key_data ->
  len (payload key_data)
  = Z.min (header_count key_data * 160) (len key_data - 8).
Proof.
  intros Hl. pose proof (header_count_nonneg key_data) as Hc.
  unfold payload. rewrite len_slice by lia. lia.
Qed.

Lemma load_keys_short (key_data : bytes) :
  len key_data < 8 -> load_keys key_data = Raise StructError.
Proof.
  intros Hl. unfold load_keys, unpack_2L.
  replace (0 + 8 <=? len key_data) with false by lia. reflexivity.
Qed.

(** C8 (amended). The loader reads two little-endian words, takes the
    exclusive or of each with [0x17F31AAB], and accepts the keys
    exactly when the second equals the CRC-32 of the payload: what the
    file holds of the [count * 160] bytes behind the 8-byte header,
    which is all of them only when the file is that long, since the
    count is not compared with the length.  Otherwise the script ends
    with exit status 1 and no decryption has run; this is what happens
    after any one byte of the payload of an accepted key file is
    changed.  A key file that is shorter than the header ends the
    script with [struct.error]. *)
Theorem load_keys_checks_crc (key_data : bytes) :
  (len key_data < 8 ->
   load_keys key_data = Raise StructError /\
   forall file, main key_data file = (Raise StructError, None)) /\
  (8 <= len key_data ->
   KEY_DATA_XOR = 0x17F31AAB /\ KEY_ENTRY_SIZE = 160 /\
   len (payload key_data)
     = Z.min (header_count key_data * 160) (len key_data - 8) /\
   (load_keys key_data = Return (payload key_data)
    <-> header_crc key_data = crc32 (payload key_data)) /\
   (header_crc key_data <> crc32 (payload key_data) ->
    load_keys key_data = Raise (SystemExit 1) /\
    forall file, main key_data file = (Raise (SystemExit 1), None)) /\
   (header_crc key_data = crc32 (payload key_data) ->
    forall (p : nat) (x y : byte) (file : bytes),
      (8 <= p < 8 + length (payload key_data))%nat ->
      key_data !! p = Some x -> x <> y ->
      load_keys (<[p := y]> key_data) = Raise (SystemExit 1) /\
      main (<[p := y]> key_data) file = (Raise (SystemExit 1), None))).
Proof.
  split.
  { intros Hshort. pose proof (load_keys_short key_data Hshort) as Hr.
    split; [exact Hr|]. intros file. unfold main. rewrite Hr. reflexivity. }
  intros Hl. rewrite load_keys_unfold by exact Hl.
  split; [reflexivity|]. split; [reflexivity|].
  split; [apply len_payload, Hl|].
  split; [|split].
  - destruct (header_crc key_data =? crc32 (payload key_data)) eqn:E; simpl.
    + apply Z.eqb_eq in E. tauto.
    + apply Z.eqb_neq in E. split; [discriminate | tauto].
  - intros Hne.
    assert (Hr : load_keys key_data = Raise (SystemExit 1)).
    { rewrite load_keys_unfold by exact Hl.
      apply Z.eqb_neq in Hne. rewrite Hne. reflexivity. }
    apply Z.eqb_neq in Hne. rewrite Hne. simpl.
    split; [reflexivity|]. intros file. apply main_rejects, Hr.
  - intros Heq p x y file Hp Hx Hxy.
    assert (Hr : load_keys (<[p := y]> key_data) = Raise (SystemExit 1)).
    { rewrite load_keys_unfold
        by (unfold len in *; rewrite length_insert; exact Hl).
      destruct (header_insert key_data p y ltac:(lia)) as [_ ->].
      destruct (payload_insert key_data p x y Hp Hx) as (l1 & l2 & E1 & E2).
      rewrite Heq, E1, E2.
      destruct (crc32 (l1 ++ x :: l2) =? crc32 (l1 ++ y :: l2)) eqn:E;
        [|reflexivity].
      apply Z.eqb_eq, crc32_one_byte in E. contradiction. }
    split; [exact Hr | apply main_rejects, Hr].
Qed.

End KeyFile.

Lemma load_keys_checks_crc_witness :
  load_keys one_key_file = Return one_key_payload /\
  load_keys (<[100%nat := "W"%byte]> one_key_file) = Raise (SystemExit 1) /\
  load_keys (b "short") = Raise StructError.
Proof.
  pose proof (load_keys_checks_crc (H := Toy.cipher) (D := Toy.directory)
                one_key_file) as [_ Hfile].
  destruct (Hfile ltac:(vm_compute; discriminate))
    as (_ & _ & _ & Hacc & _ & Hflip).
  assert (Hcrc : header_crc one_key_file = crc32 (payload one_key_file))
    by (vm_compute; reflexivity).
  split; [|split].
  - apply Hacc in Hcrc. exact Hcrc.
  - apply (Hflip Hcrc 100%nat "w"%byte "W"%byte []).
    + vm_compute. split; lia.
    + reflexivity.
    + discriminate.
  - apply (load_keys_checks_crc (H := Toy.cipher) (D := Toy.directory)
             (b "short")).
    vm_compute. reflexivity.
Defined.

(** The count of a key file is not compared with its length: a file
    that announces three entries and holds one, with the checksum of
    that one, is accepted, and the payload is the one entry. *)
Lemma inflated_count_counterexample :
  header_count inflated_key_file = 3 /\
  len inflated_key_file = 8 + 1 * 160 /\
  header_crc inflated_key_file = crc32 (payload inflated_key_file) /\
  load_keys inflated_key_file = Return one_key_payload /\
  len one_key_payload <> 3 * 160.
Proof.
  split; [vm_compute; reflexivity|]. split; [vm_compute; reflexivity|].
  split; [vm_compute; reflexivity|]. split; [vm_compute; reflexivity|].
  vm_compute. discriminate.
Qed.

End KeyFile.

(** ** Files: what a write leaves where *)

Lemma read_lookup (f : bytes) (pos n : Z) (j : nat) :
  read f pos n !! j
  = if decide (j < Z.to_nat n)%nat then f !! (Z.to_nat pos + j)%nat else None.
Proof. unfold read. rewrite lookup_take, lookup_drop. reflexivity. Qed.

Lemma write_lookup (f : bytes) (pos : Z) (data : bytes) (k : nat) :
  data <> [] ->
  write f pos data !! k
  = if decide (k < Z.to_nat pos)%nat then
      if decide (k < length f)%nat then f !! k else Some "000"%byte
    else if decide (k < Z.to_nat pos + length data)%nat
         then data !! (k - Z.to_nat pos)%nat
         else f !! k.
Proof.
  intros Hd. unfold write. destruct data as [|x data]; [contradiction|].
  set (d := x :: data) in *. set (p := Z.to_nat pos).
  destruct (decide (k < p)%nat) as [Hk|Hk].
  - destruct (decide (k < length f)%nat) as [Hf|Hf].
    + rewrite lookup_app_l by (rewrite length_take; lia).
      apply lookup_take_lt; lia.
    + rewrite lookup_app_r by (rewrite length_take; lia).
      rewrite length_take.
      rewrite lookup_app_l by (rewrite length_replicate; lia).
      apply lookup_replicate_2. lia.
  - rewrite lookup_app_r by (rewrite length_take; lia).
    rewrite length_take.
    rewrite lookup_app_r by (rewrite length_replicate; lia).
    rewrite length_replicate.
    replace (k - p `min` length f - (p - length f))%nat with (k - p)%nat by lia.
    destruct (decide (k < p + length d)%nat) as [Hkd|Hkd].
    + apply lookup_app_l. lia.
    + rewrite lookup_app_r by lia. rewrite lookup_drop. f_equal. lia.
Qed.

(** What was written is read back. *)
Lemma read_write_same (f : bytes) (pos : Z) (data : bytes) :
  read (write f pos data) pos (len data) = data.
Proof.
  destruct (decide (data = [])) as [->|Hd]; [reflexivity|].
  apply list_eq; intros j. rewrite read_lookup. unfold len.
  rewrite Nat2Z.id.
  destruct (decide (j < length data)%nat) as [Hj|Hj].
  - rewrite write_lookup by exact Hd.
    rewrite decide_False by lia. rewrite decide_True by lia.
    f_equal. lia.
  - symmetry. apply lookup_ge_None_2. lia.
Qed.

(** A write leaves alone a piece of the file that it does not
    overlap. *)
Lemma read_write_other (f : bytes) (pos q : Z) (data piece : bytes) :
  0 <= pos -> 0 <= q ->
  read f q (len piece) = piece ->
  q + len piece <= pos \/ pos + len data <= q ->
  read (write f pos data) q (len piece) = piece.
Proof.
  intros Hpos Hq Hpiece Hdisj.
  destruct (decide (data = [])) as [->|Hd]; [exact Hpiece|].
  apply list_eq; intros j.
  rewrite <- Hpiece at 2. rewrite !read_lookup.
  destruct (decide (j < Z.to_nat (len piece))%nat) as [Hj|Hj]; [|reflexivity].
  assert (Hin : is_Some (f !! (Z.to_nat q + j)%nat)).
  { assert (Hs : is_Some (piece !! j))
      by (apply lookup_lt_is_Some; unfold len in Hj; lia).
    rewrite <- Hpiece, read_lookup, decide_True in Hs by exact Hj. exact Hs. }
  apply lookup_lt_is_Some in Hin.
  rewrite write_lookup by exact Hd. unfold len in *.
  destruct Hdisj as [Hbefore|Hafter].
  - rewrite decide_True by lia. rewrite decide_True by lia. reflexivity.
  - rewrite decide_False by lia. rewrite decide_False by lia. reflexivity.
Qed.

(** ** C3, C4: the multiple-chunk mode *)

Module ScatteredChunks.
Import Phobos PhobosSpec Samples.

Lemma chunk_pos_nonneg (endblock_data : bytes) (i : Z) :
  0 <= chunk_pos endblock_data i.
Proof. apply int_from_le_nonneg. Qed.

Lemma len_chunk_piece (chunk_data : bytes) (chunk_size i : Z) :
  0 <= chunk_size -> 0 <= i ->
  len (chunk_piece chunk_data chunk_size i) <= chunk_size.
Proof.
  intros Hc Hi. unfold chunk_piece. rewrite len_slice by nia.
  pose proof (len_nonneg chunk_data). nia.
Qed.

Lemma len_chunk_piece_whole (chunk_data : bytes) (chunk_size i n : Z) :
  0 <= chunk_size -> 0 <= i < n -> n * chunk_size <= len chunk_data ->
  len (chunk_piece chunk_data chunk_size i) = chunk_size.
Proof.
  intros Hc Hi Hn. unfold chunk_piece. rewrite len_slice by nia. nia.
Qed.

(** The loop from index [k] on: every piece is where its table entry
    says, and what was in the file outside the destinations is still
    there. *)
Lemma write_chunks_places (n : nat) :
  forall (k : Z) (endblock_data chunk_data : bytes) (chunk_size : Z)
         (f f' : bytes),
  0 <= k -> 0 <= chunk_size ->
  write_chunks n k endblock_data chunk_data chunk_size f = (Return tt, f') ->
  (forall i j, k <= i < j -> j < k + Z.of_nat n ->
     chunk_pos endblock_data i + chunk_size <= chunk_pos endblock_data j
     \/ chunk_pos endblock_data j + chunk_size <= chunk_pos endblock_data i) ->
  (forall i, k <= i < k + Z.of_nat n ->
     unpack_Q endblock_data (0x20 + i * 8)
       = Return (chunk_pos endblock_data i) /\
     read f' (chunk_pos endblock_data i)
          (len (chunk_piece chunk_data chunk_size i))
       = chunk_piece chunk_data chunk_size i) /\
  (forall q piece, 0 <= q ->
     read f q (len piece) = piece ->
     (forall i, k <= i < k + Z.of_nat n ->
        q + len piece <= chunk_pos endblock_data i
        \/ chunk_pos endblock_data i + chunk_size <= q) ->
     read f' q (len piece) = piece).
Proof.
  induction n as [|n IH]; intros k eb cd cs f f' Hk Hcs Hrun Hdisj.
  - simpl in Hrun. injection Hrun as <-. split; [intros i Hi; lia | auto].
  - simpl in Hrun.
    assert (Hq : unpack_Q eb (32 + k * 8) = Return (chunk_pos eb k)
                 \/ unpack_Q eb (32 + k * 8) = Raise StructError).
    { unfold unpack_Q. destruct (_ <=? _); [left|right]; reflexivity. }
    destruct Hq as [Hq|Hq]; rewrite Hq in Hrun; [|discriminate].
    destruct (_ <=? chunk_pos eb k); [discriminate|].
    set (f1 := write f (chunk_pos eb k) (chunk_piece cd cs k)) in *.
    pose proof (chunk_pos_nonneg eb k) as Hpk.
    pose proof (len_chunk_piece cd cs k Hcs Hk) as Hlk.
    destruct (IH (k + 1) eb cd cs f1 f' ltac:(lia) Hcs Hrun) as [Hplaced Hkept].
    { intros i j Hi Hj. apply Hdisj; lia. }
    split.
    + intros i Hi. destruct (Z.eq_dec i k) as [->|Hne].
      * split; [exact Hq|]. apply Hkept; [exact Hpk | apply read_write_same |].
        intros j Hj. destruct (Hdisj k j ltac:(lia) ltac:(lia)); lia.
      * apply Hplaced. lia.
    + intros q piece Hq0 Hread Hout. apply Hkept; [exact Hq0 | | ].
      * apply read_write_other; try assumption.
        destruct (Hout k ltac:(lia)); lia.
      * intros i Hi. apply Hout. lia.
Qed.

(** C4 (amended). When the write loop has run over a table whose
    destinations [chunk_pos, chunk_pos + chunk_size) do not overlap,
    then for every index below [num_chunks] the output holds, from the
    position in entry [i] of the table, piece [i] of the chunk data,
    in whatever order the table lists the positions.  The piece is
    [chunk_size] bytes long when the chunk data hold all of
    [num_chunks * chunk_size] bytes. *)
Theorem chunks_land_at_table_offsets
    (endblock_data chunk_data f f' : bytes) (num_chunks chunk_size : Z) :
  0 <= chunk_size ->
  write_chunks (Z.to_nat num_chunks) 0 endblock_data chunk_data chunk_size f
    = (Return tt, f') ->
  (forall i j, 0 <= i < j -> j < num_chunks ->
     chunk_pos endblock_data i + chunk_size <= chunk_pos endblock_data j
     \/ chunk_pos endblock_data j + chunk_size <= chunk_pos endblock_data i) ->
  forall i, 0 <= i < num_chunks ->
    unpack_Q endblock_data (0x20 + i * 8)
      = Return (chunk_pos endblock_data i) /\
    read f' (chunk_pos endblock_data i)
         (len (chunk_piece chunk_data chunk_size i))
      = chunk_piece chunk_data chunk_size i /\
    (num_chunks * chunk_size <= len chunk_data ->
     len (chunk_piece chunk_data chunk_size i) = chunk_size).
Proof.
  intros Hcs Hrun Hdisj i Hi.
  destruct (write_chunks_places (Z.to_nat num_chunks) 0 endblock_data
              chunk_data chunk_size f f' ltac:(lia) Hcs Hrun) as [Hplaced _].
  { intros a c Ha Hc. apply Hdisj; lia. }
  destruct (Hplaced i ltac:(lia)) as [Hpos Hread].
  split; [exact Hpos|]. split; [exact Hread|].
  intros Hwhole. eapply len_chunk_piece_whole; eauto.
Qed.

Section ScatteredChunks.
Context `{BlockCipher} {D : Directory}.


(** Without the copy the mode is over before it has looked at the end
    block. *)
Lemma decrypt_chunks_no_copy
    (file endblock_data : bytes) (footer_size : Z) (name : list Z) :
  place_of name <> Fresh ->
  decrypt_chunks file endblock_data footer_size name
    = {| result := Raise OSError; output := None |}.
Proof.
  intros Hplace. unfold decrypt_chunks.
  destruct (place_of name); [contradiction | reflexivity | reflexivity].
Qed.

(** A name that is refused ends [decrypt_file2] in either mode before
    a file is written. *)
Lemma decrypt_file2_refused (file key_data : bytes) (i : info) :
  read_info file key_data = Return (Some i) ->
  place_of (orig_filename i) = Refused ->
  decrypt_file2 file key_data = {| result := Raise OSError; output := None |}.
Proof.
  intros Hinfo Hplace. unfold decrypt_file2. rewrite Hinfo.
  destruct (enc_mode i =? 1).
  - apply decrypt_chunks_no_copy. congruence.
  - unfold decrypt_single. rewrite Hplace. reflexivity.
Qed.


End ScatteredChunks.



(** The loop completes on them and the 16 bytes at the position of
    the chunk are not the piece, which has 8. *)
Lemma short_chunk_data_counterexample :
  let chunk_data := chunk_data_of short_endblock 1 16 in
  chunk_data = short_chunk_data /\
  unpack_3L short_endblock 0x0C
    = Return (1, 16, crc32 chunk_data) /\
  chunk_pos short_endblock 0 = 0 /\
  exists f',
    write_chunks 1 0 short_endblock chunk_data 16 filled_file
      = (Return tt, f') /\
    read f' (chunk_pos short_endblock 0) 16
      <> chunk_piece chunk_data 16 0.
Proof.
  cbv zeta. split; [vm_compute; reflexivity|].
  split; [vm_compute; reflexivity|].
  split; [vm_compute; reflexivity|].
  eexists. split; [vm_compute; reflexivity|].
  vm_compute. discriminate.
Qed.

Lemma chunks_land_at_table_offsets_witness :
  read (write (write filled_file 8 (b "ABCD")) 2 (b "EFGH")) 8 4 = b "ABCD" /\
  read (write (write filled_file 8 (b "ABCD")) 2 (b "EFGH")) 2 4 = b "EFGH".
Proof.
  set (endblock := Toy.endblock_chunks [8; 2] 4 0 (b "ABCDEFGH") "a.txt").
  pose proof (chunks_land_at_table_offsets endblock (b "ABCDEFGH") filled_file
                (write (write filled_file 8 (b "ABCD")) 2 (b "EFGH")) 2 4
                ltac:(lia) ltac:(vm_compute; reflexivity)) as Hland.
  assert (Hdisj : forall i j, 0 <= i < j -> j < 2 ->
            chunk_pos endblock i + 4 <= chunk_pos endblock j
            \/ chunk_pos endblock j + 4 <= chunk_pos endblock i).
  { intros i j Hi Hj. assert (i = 0) as -> by lia. assert (j = 1) as -> by lia.
    right. vm_compute. discriminate. }
  split.
  - exact (proj1 (proj2 (Hland Hdisj 0 ltac:(lia)))).
  - exact (proj1 (proj2 (Hland Hdisj 1 ltac:(lia)))).
Defined.

End ScatteredChunks.

(** ** C5: the single-chunk mode *)

Module SingleStream.
Import Phobos Samples.

Section SingleStream.
Context `{BlockCipher} {D : Directory}.

Lemma read_whole (fin : bytes) (n : Z) : len fin <= n -> read fin 0 n = fin.
Proof. intros Hn. unfold read, len in *. simpl. apply take_ge. lia. Qed.

(** A last block whose length is a multiple of 16 goes to the output
    as it is: with no excess, [enc_data[:-excess_size]] is empty and
    [enc_data[-excess_size:]] is the whole block. *)
Lemma decrypt_stream_short_aligned (fuel : nat) (c : CBC.cipher) (fin : bytes) :
  len fin < ENC_BLOCK_SIZE -> len fin mod 16 = 0 ->
  decrypt_stream fuel c fin = Return fin.
Proof.
  intros Hshort Haligned.
  assert (Hstep : forall fuel', decrypt_stream fuel' c fin =
    let enc_data := read fin 0 ENC_BLOCK_SIZE in
    if negb (len enc_data =? ENC_BLOCK_SIZE) then
      let excess_size := Z.land (len enc_data) 0xF in
      do (dec_data, _) <- CBC.decrypt c (slice_to enc_data (- excess_size));
      Return (dec_data ++ slice_from enc_data (- excess_size))
    else
      match fuel' with
      | O => OutOfFuel
      | S fuel'' =>
        do (dec_data, c') <- CBC.decrypt c enc_data;
        do rest <- decrypt_stream fuel'' c' (drop (Z.to_nat ENC_BLOCK_SIZE) fin);
        Return (dec_data ++ rest)
      end) by (intros [|?]; reflexivity).
  rewrite Hstep. cbv zeta. rewrite read_whole by lia.
  replace (len fin =? ENC_BLOCK_SIZE) with false by lia. simpl negb. cbv iota.
  rewrite land_15, Haligned. change (- 0) with 0.
  unfold slice_to, slice_from. rewrite clamp_inside by (pose proof (len_nonneg fin); lia).
  reflexivity.
Qed.

(** A last block with an excess is decrypted up to the excess, which
    is copied. *)
Lemma decrypt_stream_short_unaligned (fuel : nat) (c : CBC.cipher)
    (fin : bytes) :
  len fin < ENC_BLOCK_SIZE -> len fin mod 16 <> 0 ->
  let aligned := len fin - len fin mod 16 in
  decrypt_stream fuel c fin
  = do (dec_data, _) <- CBC.decrypt c (take (Z.to_nat aligned) fin);
    Return (dec_data ++ drop (Z.to_nat aligned) fin).
Proof.
  intros Hshort Hexcess. cbv zeta.
  assert (Hstep : decrypt_stream fuel c fin =
    let enc_data := read fin 0 ENC_BLOCK_SIZE in
    if negb (len enc_data =? ENC_BLOCK_SIZE) then
      let excess_size := Z.land (len enc_data) 0xF in
      do (dec_data, _) <- CBC.decrypt c (slice_to enc_data (- excess_size));
      Return (dec_data ++ slice_from enc_data (- excess_size))
    else
      match fuel with
      | O => OutOfFuel
      | S fuel' =>
        do (dec_data, c') <- CBC.decrypt c enc_data;
        do rest <- decrypt_stream fuel' c' (drop (Z.to_nat ENC_BLOCK_SIZE) fin);
        Return (dec_data ++ rest)
      end) by (destruct fuel; reflexivity).
  rewrite Hstep. cbv zeta. rewrite read_whole by lia.
  replace (len fin =? ENC_BLOCK_SIZE) with false by lia. simpl negb. cbv iota.
  rewrite land_15.
  pose proof (Z.mod_pos_bound (len fin) 16 ltac:(lia)) as Hm.
  pose proof (Z.mod_le (len fin) 16 (len_nonneg fin) ltac:(lia)) as Hle.
  unfold slice_to, slice_from, clamp.
  replace (- (len fin mod 16) <? 0) with true by lia.
  replace (Z.max (- (len fin mod 16) + len fin) 0)
    with (len fin - len fin mod 16) by lia.
  reflexivity.
Qed.

Lemma bind_in_fuel {A B} (m : outcome A) (k : A -> outcome B) :
  m <> OutOfFuel -> (forall a, k a <> OutOfFuel) -> bind m k <> OutOfFuel.
Proof. destruct m; simpl; auto. Qed.

Lemma cbc_decrypt_in_fuel (c : CBC.cipher) (data : bytes) :
  CBC.decrypt c data <> OutOfFuel.
Proof.
  unfold CBC.decrypt. destruct (negb _); [discriminate|].
  destruct (CBC.decrypt_blocks _ _ _ _). discriminate.
Qed.

Lemma drop_block_shorter (fin : bytes) (n : Z) :
  0 < n -> len (read fin 0 n) = n ->
  (length (drop (Z.to_nat n) fin) < length fin)%nat.
Proof.
  intros Hn Hread. unfold read, len in Hread.
  rewrite length_take, length_drop in Hread. rewrite length_drop. lia.
Qed.

(** The fuel that [decrypt_single] gives the read loop is never spent:
    every turn that asks for fuel has read a whole block. *)
Lemma decrypt_stream_fuel (fuel : nat) :
  forall (c : CBC.cipher) (fin : bytes),
  (length fin < fuel)%nat -> decrypt_stream fuel c fin <> OutOfFuel.
Proof.
  assert (Hpos : 0 < ENC_BLOCK_SIZE) by reflexivity.
  induction fuel as [|fuel IH]; intros c fin Hlen; [lia|].
  cbn [decrypt_stream].
  destruct (negb (len (read fin 0 ENC_BLOCK_SIZE) =? ENC_BLOCK_SIZE)) eqn:Hlast.
  - apply bind_in_fuel; [apply cbc_decrypt_in_fuel|].
    intros [dec_data c']. discriminate.
  - apply negb_false_iff, Z.eqb_eq in Hlast.
    pose proof (drop_block_shorter fin ENC_BLOCK_SIZE Hpos Hlast) as Hshorter.
    apply bind_in_fuel; [apply cbc_decrypt_in_fuel|].
    intros [dec_data c']. apply bind_in_fuel; [|discriminate].
    apply IH. lia.
Qed.

Lemma read_info_cipher (file key_data : bytes) (i : info) :
  read_info file key_data = Return (Some i) ->
  exists c, CBC.new (aes_key i) (aes_iv i) = Return c.
Proof.
  unfold read_info. intros Hr.
  repeat match type of Hr with
  | bind ?m _ = _ => destruct m as [?|?|] eqn:?; simpl in Hr; try discriminate
  | (if ?c then _ else _) = _ => destruct c; try discriminate
  | (let (_, _) := ?p in _) = _ => destruct p
  | match ?m with _ => _ end = _ => destruct m; try discriminate
  end.
  inversion Hr; subst; simpl. eauto.
Qed.

(** A container that [read_info] accepts has a footer above the
    metadata, and unsigned sizes. *)
Lemma read_info_sizes (file key_data : bytes) (i : info) :
  read_info file key_data = Return (Some i) ->
  METADATA_SIZE < footer_size i /\ 0 <= padding_size i.
Proof.
  unfold read_info. intros Hr.
  destruct (len file <? METADATA_SIZE); [discriminate|].
  destruct (find_key _ key_data) as [key|]; [|discriminate].
  destruct (unpack_L _ FOOTER_SIZE_POS) as [fs|e|]; cbn [bind] in Hr;
    try discriminate.
  destruct (fs <=? METADATA_SIZE) eqn:Efs; [discriminate|].
  apply Z.leb_gt in Efs.
  destruct (negb _); [discriminate|].
  destruct (len file <? fs); [discriminate|].
  destruct (unpack_L _ PADDING_SIZE_POS) as [ps|e|] eqn:Eps; cbn [bind] in Hr;
    try discriminate.
  assert (Hps : 0 <= ps).
  { revert Eps. unfold unpack_L. destruct (_ <=? _); [|discriminate].
    intros [= <-]. apply int_from_le_nonneg. }
  repeat match type of Hr with
  | bind ?m _ = _ => destruct m as [?|?|]; cbn [bind] in Hr; try discriminate
  | (if ?c then _ else _) = _ => destruct c; try discriminate
  | (let (_, _) := ?p in _) = _ => destruct p
  | match ?m with _ => _ end = _ => destruct m; try discriminate
  end.
  inversion Hr; subst; cbn [footer_size padding_size]. split; assumption.
Qed.

(** In the single-chunk mode, a name that leads back to the input has
    the input emptied when the new file is opened: the loop reads
    nothing, and the last [seek] raises. *)
Lemma decrypt_file2_onto_input (file key_data : bytes) (i : info) :
  read_info file key_data = Return (Some i) ->
  enc_mode i <> 1 ->
  place_of (orig_filename i) = Input ->
  decrypt_file2 file key_data
    = {| result := Raise OSError; output := Some (orig_filename i, []) |}.
Proof.
  intros Hinfo Hmode Hplace.
  destruct (read_info_cipher _ _ _ Hinfo) as [c Hc].
  destruct (read_info_sizes _ _ _ Hinfo) as [Hfs Hps].
  unfold decrypt_file2. rewrite Hinfo.
  apply Z.eqb_neq in Hmode. rewrite Hmode.
  unfold decrypt_single. rewrite Hplace, Hc.
  rewrite decrypt_stream_short_aligned by reflexivity.
  replace (len [] <? footer_size i + padding_size i) with true
    by (unfold METADATA_SIZE in Hfs; change (len []) with 0; lia).
  reflexivity.
Qed.

(** C5, where the code departs from it. When a container of the
    single-chunk mode is shorter than [ENC_BLOCK_SIZE] and its length
    is a multiple of 16, and the new file can be created,
    [decrypt_file2] succeeds and the new file is the input cut at
    footer and padding: the block is written as it was read, and none
    of it is decrypted.  Where the name of the new file is refused,
    [io.open] raises and nothing is written; where it leads back to
    the input, the input is emptied and the last [seek] raises. *)
Theorem aligned_last_block_left_encrypted
    (file key_data : bytes) (i : info) :
  read_info file key_data = Return (Some i) ->
  enc_mode i <> 1 ->
  len file < ENC_BLOCK_SIZE ->
  len file mod 16 = 0 ->
  footer_size i + padding_size i <= len file ->
  decrypt_file2 file key_data
    = match place_of (orig_filename i) with
      | Fresh =>
        {| result := Return true;
           output :=
             Some (orig_filename i,
                   truncate file
                            (len file - (footer_size i + padding_size i))) |}
      | Refused => {| result := Raise OSError; output := None |}
      | Input =>
        {| result := Raise OSError; output := Some (orig_filename i, []) |}
      end.
Proof.
  intros Hinfo Hmode Hshort Haligned Hfooter.
  destruct (place_of (orig_filename i)) eqn:Hplace.
  - destruct (read_info_cipher _ _ _ Hinfo) as [c Hc].
    unfold decrypt_file2. rewrite Hinfo.
    apply Z.eqb_neq in Hmode. rewrite Hmode.
    unfold decrypt_single. rewrite Hplace, Hc.
    rewrite decrypt_stream_short_aligned by assumption.
    replace (len file <? footer_size i + padding_size i) with false by lia.
    reflexivity.
  - unfold decrypt_file2. rewrite Hinfo.
    apply Z.eqb_neq in Hmode. rewrite Hmode.
    unfold decrypt_single. rewrite Hplace. reflexivity.
  - apply decrypt_file2_onto_input; assumption.
Qed.

End SingleStream.

Lemma aligned_last_block_left_encrypted_witness :
  let r := decrypt_file2 (H := Toy.cipher) (D := Toy.directory) aligned_container Toy.keystore in
  result r = Return true /\ option_map snd (output r) = Some (b "0123456789a").
Proof.
  cbv zeta.
  erewrite (aligned_last_block_left_encrypted (H := Toy.cipher)
              (D := Toy.directory)); cycle 1.
  - vm_compute. reflexivity.
  - vm_compute. discriminate.
  - vm_compute. reflexivity.
  - vm_compute. reflexivity.
  - vm_compute. discriminate.
  - split; reflexivity.
Defined.

End SingleStream.

(** ** C10: the end tag of RCRU64 *)

Module EndTag.
Import RCRU64 Rcru64Spec.

Lemma len_truncate (f : bytes) (n : Z) : 0 <= n -> len (truncate f n) = n.
Proof.
  intros Hn. unfold truncate, len.
  rewrite length_app, length_take, length_replicate. lia.
Qed.

Lemma truncate_app (x y : bytes) : truncate (x ++ y) (len x) = x.
Proof.
  unfold truncate, len. rewrite Nat2Z.id, take_app_length.
  rewrite length_app. replace (length x - (length x + length y))%nat with 0%nat by lia.
  apply app_nil_r.
Qed.

Lemma stripped_tagged (body : bytes) : stripped (body ++ METADATA_MARKER2) = body.
Proof.
  unfold stripped. rewrite len_app.
  replace (len body + len METADATA_MARKER2 - len METADATA_MARKER2)
    with (len body) by lia.
  assert (Hread : read (body ++ METADATA_MARKER2) (len body)
                       (len METADATA_MARKER2) = METADATA_MARKER2).
  { unfold read, len. rewrite !Nat2Z.id, drop_app_length. apply take_ge. lia. }
  rewrite Hread.
  replace (bytes_eqb METADATA_MARKER2 METADATA_MARKER2) with true
    by (symmetry; apply bytes_eqb_eq; reflexivity).
  apply truncate_app.
Qed.

Section EndTag.
Context `{Externals}.

(** [decrypt_file] past its first test, on the file as the search for
    the tag left it. *)
Lemma decrypt_file_front (fuel : nat) (FAST_ENC_NONCE priv_key_data : bytes)
    (w : world) :
  len METADATA_MARKER2 <= len (file w) ->
  decrypt_file fuel FAST_ENC_NONCE priv_key_data w =
    let w1 := {| file := stripped (file w); calls := calls w |} in
    if len (file w1) <? MIN_METADATA_SIZE then (Return false, w1)
    else
    let metadata := metadata_window (file w1) in
    let pos := find METADATA_MARKER metadata 0 in
    if pos <? 0 then (Return false, w1)
    else
    let file_size :=
      len (file w1) - (Z.min (len (file w1)) MAX_METADATA_SIZE - pos) in
    match parse_layout (slice_from metadata (pos + len METADATA_MARKER)) with
    | Raise e => (Raise e, w1)
    | OutOfFuel => (OutOfFuel, w1)
    | Return None => (Return false, w1)
    | Return (Some l) =>
      match parse_keydata (enc_keydata_of l) priv_key_data with
      | None => (Return false, w1)
      | Some (key, nonce) =>
        decrypt_body fuel FAST_ENC_NONCE key nonce l file_size w1
      end
    end.
Proof.
  intros Hlen. unfold decrypt_file, stripped, metadata_window.
  replace (len (file w) <? len METADATA_MARKER2) with false by lia.
  destruct (bytes_eqb _ METADATA_MARKER2); cbv zeta; cbn [file calls].
  - rewrite len_truncate by lia. reflexivity.
  - destruct w; reflexivity.
Qed.

Lemma decrypt_body_result (fuel : nat) (FAST_ENC_NONCE key nonce : bytes)
    (l : layout) (file_size : Z) (w : world) :
  fst (decrypt_body fuel FAST_ENC_NONCE key nonce l file_size w) <> Return false.
Proof.
  unfold decrypt_body, then_remove_footer, io_bind.
  match goal with
  | |- fst (match ?m with _ => _ end) <> _ => destruct m as [[fs|e|] w']
  end; simpl; try discriminate.
  destruct (f_truncate (fs - ADDITIONAL_DATA_SIZE) w') as [[[]|e|] w''];
    simpl; discriminate.
Qed.

(** C10. On a working file that ends with [METADATA_MARKER2], the
    tag is cut off before anything else is looked at, and a run that
    then returns [False] leaves the file without it: so it is when the
    rest is below the minimum metadata size, and when the metadata
    marker is not in the window.  The file is then not what it was. *)
Theorem end_tag_stays_removed
    (fuel : nat) (FAST_ENC_NONCE priv_key_data body : bytes)
    (cs : list gcm_call) :
  let w := {| file := body ++ METADATA_MARKER2; calls := cs |} in
  let w1 := {| file := body; calls := cs |} in
  let r := decrypt_file fuel FAST_ENC_NONCE priv_key_data w in
  (fst r = Return false -> snd r = w1) /\
  (len body < MIN_METADATA_SIZE -> r = (Return false, w1)) /\
  (find METADATA_MARKER (metadata_window body) 0 < 0 -> r = (Return false, w1)) /\
  file w1 <> file w.
Proof.
  cbv zeta.
  rewrite decrypt_file_front by (cbn [file]; rewrite len_app; pose proof (len_nonneg body); lia).
  cbv zeta. cbn [file calls]. rewrite stripped_tagged.
  split; [|split; [|split]].
  - destruct (len body <? MIN_METADATA_SIZE); [reflexivity|].
    destruct (find METADATA_MARKER (metadata_window body) 0 <? 0); [reflexivity|].
    destruct (parse_layout _) as [[l|]|e|]; try reflexivity; try discriminate.
    destruct (parse_keydata _ _) as [[key nonce]|]; [|reflexivity].
    intros Hr. apply decrypt_body_result in Hr. contradiction.
  - intros Hsmall.
    replace (len body <? MIN_METADATA_SIZE) with true by lia. reflexivity.
  - intros Hnone. destruct (len body <? MIN_METADATA_SIZE); [reflexivity|].
    replace (find METADATA_MARKER (metadata_window body) 0 <? 0) with true by lia.
    reflexivity.
  - intros E. apply (f_equal (@length byte)) in E.
    rewrite length_app in E. simpl in E. lia.
Qed.

End EndTag.

Lemma end_tag_stays_removed_witness :
  decrypt_file (H := Toy.externals) 0 [] []
    {| file := b "data" ++ METADATA_MARKER2; calls := [] |}
  = (Return false, {| file := b "data"; calls := [] |}).
Proof.
  apply (end_tag_stays_removed (H := Toy.externals) 0 [] [] (b "data") []).
  vm_compute. reflexivity.
Defined.

End EndTag.

(** ** C6: the tiers of the full and fast encryption *)

Module Tiers.
Import RCRU64.

Section Tiers.
Context `{Externals}.

(** C6. A file that the metadata describe as fully or fast encrypted
    is decrypted by the size left of the metadata: at
    [MIN_BIG_FILE_SIZE] (0x1F4000) and above as a big file, below as a
    small file; and a small file of at most [ENC_BLOCK_SIZE] (0x7D000)
    bytes as a single block, a longer one as some blocks. *)
Theorem full_mode_tiers
    (fuel : nat) (FAST_ENC_NONCE key nonce enc_keydata : bytes) :
  MIN_BIG_FILE_SIZE = 0x1F4000 /\ ENC_BLOCK_SIZE = 0x7D000 /\
  decrypt_body fuel FAST_ENC_NONCE key nonce (FullEnc enc_keydata)
               MIN_BIG_FILE_SIZE
    = then_remove_footer
        (decrypt_fast_big_file FAST_ENC_NONCE key nonce MIN_BIG_FILE_SIZE) /\
  decrypt_body fuel FAST_ENC_NONCE key nonce (FullEnc enc_keydata)
               (MIN_BIG_FILE_SIZE - 1)
    = then_remove_footer
        (decrypt_small_some_blocks fuel key nonce (MIN_BIG_FILE_SIZE - 1)) /\
  decrypt_body fuel FAST_ENC_NONCE key nonce (FullEnc enc_keydata)
               ENC_BLOCK_SIZE
    = then_remove_footer
        (decrypt_small_single_block key nonce ENC_BLOCK_SIZE) /\
  forall file_size,
    (select_full_mode file_size = FastBigFile
     <-> MIN_BIG_FILE_SIZE <= file_size) /\
    (select_full_mode file_size = SmallFileSingleBlock
     <-> file_size <= ENC_BLOCK_SIZE) /\
    (select_full_mode file_size = SmallFileSomeBlocks
     <-> ENC_BLOCK_SIZE < file_size < MIN_BIG_FILE_SIZE) /\
    decrypt_body fuel FAST_ENC_NONCE key nonce (FullEnc enc_keydata) file_size
      = then_remove_footer
          match select_full_mode file_size with
          | SmallFileSomeBlocks =>
            decrypt_small_some_blocks fuel key nonce file_size
          | SmallFileSingleBlock =>
            decrypt_small_single_block key nonce file_size
          | FastBigFile =>
            decrypt_fast_big_file FAST_ENC_NONCE key nonce file_size
          end.
Proof.
  repeat (split; [reflexivity|]).
  intros file_size.
  assert (Hsel :
    (select_full_mode file_size = FastBigFile
     <-> MIN_BIG_FILE_SIZE <= file_size) /\
    (select_full_mode file_size = SmallFileSingleBlock
     <-> file_size <= ENC_BLOCK_SIZE) /\
    (select_full_mode file_size = SmallFileSomeBlocks
     <-> ENC_BLOCK_SIZE < file_size < MIN_BIG_FILE_SIZE)).
  { unfold select_full_mode, MIN_BIG_FILE_SIZE, ENC_BLOCK_SIZE.
    destruct (file_size <? 2048000) eqn:Hbig;
      destruct (512000 <? file_size) eqn:Hblock;
      repeat split; intros; try discriminate; try reflexivity;
      first [lia | exfalso; lia]. }
  destruct Hsel as (Hfast & Hsingle & Hsome).
  repeat (split; [assumption|]). reflexivity.
Qed.

End Tiers.
End Tiers.

(** ** The steps of [decrypt_file] that go through *)

Module Steps.
Import RCRU64.

Lemma len_read_inside (f : bytes) (pos n : Z) :
  0 <= pos -> 0 <= n -> pos + n <= len f -> len (read f pos n) = n.
Proof.
  intros Hpos Hn Hin. unfold read, len in *.
  rewrite length_take, length_drop. lia.
Qed.

Lemma len_write_inside (f : bytes) (pos : Z) (data : bytes) :
  0 <= pos -> pos + len data <= len f -> len (write f pos data) = len f.
Proof.
  intros Hpos Hin. unfold write, len in *. destruct data as [|x data]; [reflexivity|].
  rewrite !length_app, length_take, length_replicate, length_drop. lia.
Qed.

Lemma len_write_grows (f : bytes) (pos : Z) (data : bytes) :
  len f <= len (write f pos data).
Proof.
  unfold write, len. destruct data as [|x data]; [lia|].
  rewrite !length_app, length_take, length_replicate, length_drop. lia.
Qed.

(** Arithmetic on positions and sizes, with what is known of the
    length of a file that has been written to. *)
Ltac inside :=
  cbn [file calls];
  repeat match goal with
  | |- context [len (write ?f ?p ?d)] =>
    lazymatch goal with
    | _ : len f <= len (write f p d) |- _ => fail
    | _ => pose proof (len_write_grows f p d)
    end
  end;
  lia.

Lemma write_lookup_outside (f : bytes) (pos : Z) (data : bytes) (k : nat) :
  0 <= pos -> (k < length f)%nat ->
  (Z.of_nat k < pos \/ pos + len data <= Z.of_nat k) ->
  write f pos data !! k = f !! k.
Proof.
  intros Hpos Hk Hout. destruct (decide (data = [])) as [->|Hd]; [reflexivity|].
  rewrite write_lookup by exact Hd. unfold len in Hout.
  destruct Hout as [Hbefore|Hafter].
  - rewrite decide_True by lia. rewrite decide_True by lia. reflexivity.
  - rewrite decide_False by lia. rewrite decide_False by lia. reflexivity.
Qed.

Lemma io_bind_return {A B} (m : io A) (k : A -> io B) (w w' : world) (a : A) :
  m w = (Return a, w') -> io_bind m k w = k a w'.
Proof. unfold io_bind. intros ->. reflexivity. Qed.

Lemma fits_inside (f : bytes) (n : Z) :
  - 2 ^ 63 <= n -> n < 2 ^ 63 \/ n <= len f -> fits f n = true.
Proof. unfold fits. lia. Qed.

Lemma f_read_ok (pos n : Z) (w : world) :
  0 <= pos -> 0 <= n ->
  pos < 2 ^ 63 \/ pos <= len (file w) ->
  n < 2 ^ 63 \/ n <= len (file w) ->
  f_read pos n w = (Return (read (file w) pos n), w).
Proof.
  intros Hpos Hn Hp Hs. unfold f_read.
  rewrite !fits_inside by lia. cbn [negb].
  replace (pos <? 0) with false by lia. replace (n <? -1) with false by lia.
  replace (n =? -1) with false by lia. reflexivity.
Qed.

Lemma f_write_ok (pos : Z) (data : bytes) (w : world) :
  0 <= pos -> pos < 2 ^ 63 \/ pos <= len (file w) ->
  f_write pos data w
  = (Return tt, {| file := write (file w) pos data; calls := calls w |}).
Proof.
  intros Hpos Hp. unfold f_write. rewrite fits_inside by lia. cbn [negb].
  replace (pos <? 0) with false by lia. reflexivity.
Qed.

Lemma f_truncate_ok (n : Z) (w : world) :
  0 <= n -> n < 2 ^ 63 \/ n <= len (file w) ->
  f_truncate n w = (Return tt, {| file := truncate (file w) n; calls := calls w |}).
Proof.
  intros Hn Hs. unfold f_truncate. rewrite fits_inside by lia. cbn [negb].
  replace (n <? 0) with false by lia. reflexivity.
Qed.

(** A read leaves the file as it is, however it ends. *)
Lemma f_read_world (pos n : Z) (w : world) :
  exists r, f_read pos n w = (r, w).
Proof.
  unfold f_read. repeat destruct (negb _); repeat destruct (_ <? _);
    try destruct (_ =? _); eauto.
Qed.

Section Steps.
Context `{Externals}.

Lemma gcm_ok (key nonce data : bytes) (w : world) :
  CBC.valid_key_length key = true -> nonce <> [] ->
  gcm key nonce data w
  = (Return (gcm_decrypt key nonce data),
     {| file := file w;
        calls := calls w ++ [{| call_nonce := nonce;
                                call_length := len data |}] |}).
Proof.
  intros Hkey Hnonce. unfold gcm. rewrite Hkey. simpl negb. cbv iota.
  replace (len nonce =? 0) with false; [reflexivity|].
  symmetry. apply Z.eqb_neq. unfold len. destruct nonce; [contradiction|].
  simpl. lia.
Qed.

Lemma len_gcm_decrypt (key nonce data : bytes) :
  len (gcm_decrypt key nonce data) = len data.
Proof. unfold len. rewrite gcm_decrypt_length. reflexivity. Qed.

End Steps.
End Steps.

(** ** C2: fast encryption of a big file *)

Module FastMode.
Import RCRU64 Steps Samples.

Section FastMode.
Context `{Externals}.

(** C2. For a fully or fast encrypted file whose size left of the
    metadata is at least [MIN_BIG_FILE_SIZE], with a key and nonces
    that the cipher accepts, [decrypt_file] builds two ciphers and
    patches two regions: the first [min(enc_size, 0x2D2A8 - 16)] bytes,
    decrypted under the first 32 bytes of the nonce of the key data,
    and [ENC_BLOCK_SIZE - 16] bytes from [enc_size - ENC_BLOCK_SIZE],
    decrypted under [FAST_ENC_NONCE].  Every byte between the two
    regions is what it was, also after the footer is removed. *)
Theorem fast_mode_two_regions
    (fuel : nat) (FAST_ENC_NONCE key nonce enc_keydata : bytes)
    (enc_size : Z) (w : world) :
  CBC.valid_key_length key = true ->
  slice_to nonce FAST_ENC_NONCE_SIZE <> [] ->
  FAST_ENC_NONCE <> [] ->
  MIN_BIG_FILE_SIZE <= enc_size <= len (file w) ->
  let head_size := Z.min enc_size (0x2D2A8 - 16) in
  let tail_pos := enc_size - ENC_BLOCK_SIZE in
  let tail_size := ENC_BLOCK_SIZE - 16 in
  let head :=
    gcm_decrypt key (slice_to nonce FAST_ENC_NONCE_SIZE)
                (read (file w) 0 head_size) in
  let tail :=
    gcm_decrypt key FAST_ENC_NONCE (read (file w) tail_pos tail_size) in
  let patched := write (write (file w) 0 head) tail_pos tail in
  decrypt_body fuel FAST_ENC_NONCE key nonce (FullEnc enc_keydata) enc_size w
    = (Return true,
       {| file := truncate patched (enc_size - ADDITIONAL_DATA_SIZE);
          calls := calls w
            ++ [{| call_nonce := slice_to nonce FAST_ENC_NONCE_SIZE;
                   call_length := head_size |};
                {| call_nonce := FAST_ENC_NONCE;
                   call_length := tail_size |}] |}) /\
  read patched 0 head_size = head /\
  read patched tail_pos tail_size = tail /\
  forall k : nat, head_size <= Z.of_nat k < tail_pos ->
    patched !! k = file w !! k /\
    truncate patched (enc_size - ADDITIONAL_DATA_SIZE) !! k = file w !! k.
Proof.
  intros Hkey Hnonce Hfast Hsize. cbv zeta.
  unfold MIN_BIG_FILE_SIZE, ENC_BLOCK_SIZE, ADDITIONAL_DATA_SIZE in *.
  set (head_size := Z.min enc_size (0x2D2A8 - 16)).
  set (f := file w) in *.
  set (nonce32 := slice_to nonce FAST_ENC_NONCE_SIZE) in *.
  set (head := gcm_decrypt key nonce32 (read f 0 head_size)).
  set (tail := gcm_decrypt key FAST_ENC_NONCE (read f (enc_size - 512000) (512000 - 16))).
  assert (Hhs : head_size = 0x2D2A8 - 16) by (unfold head_size; lia).
  assert (Hlh : len head = head_size).
  { unfold head. rewrite len_gcm_decrypt. apply len_read_inside; lia. }
  assert (Hlt : len tail = 512000 - 16).
  { unfold tail. rewrite len_gcm_decrypt. apply len_read_inside; lia. }
  assert (Hl1 : len (write f 0 head) = len f)
    by (apply len_write_inside; lia).
  assert (Htail_read :
    read (write f 0 head) (enc_size - 512000) (512000 - 16)
    = read f (enc_size - 512000) (512000 - 16)).
  { set (piece := read f (enc_size - 512000) (512000 - 16)).
    assert (Hlp : len piece = 512000 - 16)
      by (apply len_read_inside; lia).
    rewrite <- Hlp. apply read_write_other; try lia.
    rewrite Hlp. reflexivity. }
  split; [|split; [|split]].
  - unfold decrypt_body, then_remove_footer.
    replace (select_full_mode enc_size) with FastBigFile
      by (unfold select_full_mode, MIN_BIG_FILE_SIZE;
          replace (enc_size <? 2048000) with false by lia; reflexivity).
    unfold decrypt_fast_big_file, FIRST_ENC_BLOCK_SIZE, AES_BLOCK_SIZE,
      ENC_BLOCK_SIZE, ADDITIONAL_DATA_SIZE.
    fold head_size.
    replace (Z.min enc_size (512000 - 16)) with (512000 - 16) by lia.
    erewrite io_bind_return; cycle 1.
    { erewrite io_bind_return by (apply f_read_ok; cbn [file calls]; fold f; inside).
      erewrite io_bind_return by (apply gcm_ok; assumption).
      erewrite io_bind_return by (apply f_write_ok; cbn [file calls]; fold f; inside).
      cbn [file calls].
      erewrite io_bind_return by (apply f_read_ok; cbn [file calls]; fold f; inside).
      cbn [file calls]. fold f nonce32 head. rewrite Htail_read.
      erewrite io_bind_return by (apply gcm_ok; assumption).
      erewrite io_bind_return by (apply f_write_ok; cbn [file calls]; fold f; inside).
      cbn [file calls]. reflexivity. }
    erewrite io_bind_return by (apply f_truncate_ok; cbn [file calls]; fold f; inside).
    cbn [file calls]. unfold ret.
    rewrite <- app_assoc. rewrite len_read_inside by lia.
    rewrite len_read_inside by lia. reflexivity.
  - rewrite <- Hlh at 1.
    apply read_write_other; [lia | lia | apply read_write_same | lia].
  - rewrite <- Hlt. apply read_write_same.
  - intros k Hk.
    assert (Hkf : (k < length f)%nat) by (unfold len in *; lia).
    assert (Hpatched :
      write (write f 0 head) (enc_size - 512000) tail !! k = f !! k).
    { rewrite write_lookup_outside; try lia.
      - apply write_lookup_outside; try lia.
      - unfold len in Hl1. lia. }
    split; [exact Hpatched|].
    unfold truncate. rewrite lookup_app_l.
    + rewrite lookup_take_lt by lia. exact Hpatched.
    + rewrite length_take.
      assert (len (write (write f 0 head) (enc_size - 512000) tail) = len f)
        by (rewrite len_write_inside; lia).
      unfold len in *. lia.
Qed.

End FastMode.

Lemma fast_mode_two_regions_witness :
  fst (decrypt_body (H := Toy.externals) 0 (b "fast") Toy.key (b "nonce")
                    (FullEnc []) 2048000 big_world)
  = Return true.
Proof.
  pose proof (fast_mode_two_regions (H := Toy.externals) 0 (b "fast") Toy.key
                (b "nonce") [] 2048000 big_world) as Hfast.
  cbv zeta in Hfast.
  destruct Hfast as [Hrun _].
  - reflexivity.
  - discriminate.
  - discriminate.
  - unfold big_world, MIN_BIG_FILE_SIZE, len. cbn [file].
    rewrite length_replicate. lia.
  - rewrite Hrun. reflexivity.
Defined.

End FastMode.

(** ** C1: the nonces of the chunks *)

Module NonceSequence.
Import RCRU64 Rcru64Spec Steps Samples.

Lemma length_int_to_le (k : nat) (n : Z) : length (int_to_le k n) = k.
Proof. revert n; induction k; intros n; simpl; [reflexivity | f_equal; apply IHk]. Qed.

Lemma length_rnd64data (st : bytes) : length (rnd64data st) = 8%nat.
Proof.
  unfold rnd64data. destruct (rnd64_seed _ _ _) as [rnd64 dummy].
  unfold int_to_be. rewrite length_rev. apply length_int_to_le.
Qed.

Lemma nonce_from_succ (st : bytes) (k : nat) :
  nonce_from (rnd64data st) k = nonce_from st (S k).
Proof. unfold nonce_from. rewrite Nat.iter_succ_r. reflexivity. Qed.

Lemma map_nonce_from_succ (st : bytes) (m : nat) :
  map (nonce_from (rnd64data st)) (seq 1 m) = map (nonce_from st) (seq 2 m).
Proof.
  rewrite <- (seq_shift m 1), map_map.
  apply map_ext. intros k. apply nonce_from_succ.
Qed.

Lemma lor_range (n a c : Z) :
  0 < n -> 0 <= a < 2 ^ n -> 0 <= c < 2 ^ n -> 0 <= Z.lor a c < 2 ^ n.
Proof.
  intros Hn Ha Hc.
  assert (Hnn : 0 <= Z.lor a c) by (apply Z.lor_nonneg; lia).
  split; [exact Hnn|].
  destruct (Z.eq_dec (Z.lor a c) 0) as [->|Hz]; [apply Z.pow_pos_nonneg; lia|].
  apply Z.log2_lt_pow2; [lia|].
  rewrite Z.log2_lor by lia.
  assert (Z.log2 a < n).
  { destruct (Z.eq_dec a 0) as [->|]; [simpl; lia|].
    apply Z.log2_lt_pow2; lia. }
  assert (Z.log2 c < n).
  { destruct (Z.eq_dec c 0) as [->|]; [simpl; lia|].
    apply Z.log2_lt_pow2; lia. }
  lia.
Qed.

Lemma land_mask64_range (v : Z) : 0 <= Z.land v MASK64 < 2 ^ 64.
Proof.
  change MASK64 with (Z.ones 64). rewrite Z.land_ones by lia.
  apply Z.mod_pos_bound. lia.
Qed.

Lemma ror64_range (v s : Z) :
  0 <= v < 2 ^ 64 -> 0 <= s -> 0 <= ror64 v s < 2 ^ 64.
Proof.
  intros Hv Hs. unfold ror64. apply lor_range; [lia | | apply land_mask64_range].
  rewrite Z.shiftr_div_pow2 by lia.
  assert (0 < 2 ^ s) by (apply Z.pow_pos_nonneg; lia).
  split; [apply Z.div_pos; lia|].
  apply Z.div_lt_upper_bound; nia.
Qed.

(** The number that [rnd64_seed] returns first is the last rotation. *)
Lemma rnd64_seed_fst (state64 a1 a2 : Z) :
  exists x11, fst (rnd64_seed state64 a1 a2) = ror64 (Z.land x11 MASK64) 1.
Proof. unfold rnd64_seed. cbv zeta. eexists. reflexivity. Qed.

Lemma rnd64_seed_range (state64 a1 a2 : Z) :
  0 <= fst (rnd64_seed state64 a1 a2) < 2 ^ 64.
Proof.
  destruct (rnd64_seed_fst state64 a1 a2) as [x11 ->].
  apply ror64_range; [apply land_mask64_range | lia].
Qed.

Lemma length_sequencer_state (k : nat) : length (sequencer_state k) = 8%nat.
Proof. destruct k; [reflexivity | apply length_rnd64data]. Qed.

Lemma slice_to_all (l : bytes) (n : Z) : len l = n -> slice_to l n = l.
Proof.
  intros <-. unfold slice_to. pose proof (len_nonneg l).
  rewrite clamp_inside by lia. apply take_ge. unfold len. lia.
Qed.

Lemma rnd64data_unfold (st : bytes) :
  len st = 8 ->
  rnd64data st
  = int_to_be 8 (fst (rnd64_seed (int_from_le st) RND64_A1 RND64_A2)).
Proof.
  intros Hl. unfold rnd64data. rewrite slice_to_all by exact Hl.
  destruct (rnd64_seed _ _ _). reflexivity.
Qed.

Section NonceSequence.
Context `{Externals}.

(** Whatever the loop does and however it ends, the ciphers it built
    took their nonces from the sequence, in order and from its
    start. *)
Lemma next_chunks_nonces (fuel : nat) :
  forall (key : bytes) (enc_size chunk_size chunk_step pos : Z)
         (st : bytes) (w : world),
  exists m,
    map call_nonce
        (calls (snd (decrypt_next_chunks fuel key enc_size chunk_size
                                         chunk_step pos st w)))
    = map call_nonce (calls w) ++ map (nonce_from st) (seq 1 m).
Proof.
  induction fuel as [|fuel IH]; intros key es cs step pos st w;
    cbn [decrypt_next_chunks];
    (destruct (pos <? es); [|exists 0%nat; cbn [snd calls map seq lift ret]; rewrite app_nil_r; reflexivity]).
  - exists 0%nat. cbn [snd calls map seq lift ret]. rewrite app_nil_r. reflexivity.
  - unfold io_bind at 1.
    assert (Hread : exists r, f_read pos (Z.min (es - pos) cs) w = (r, w))
      by apply f_read_world.
    destruct Hread as [r ->].
    destruct r as [[|x enc_data]|e|];
      try (exists 0%nat; cbn [snd calls map seq lift ret]; rewrite app_nil_r; reflexivity).
    set (st' := rnd64data st).
    unfold io_bind at 1, gcm.
    destruct (negb (CBC.valid_key_length key));
      [exists 0%nat; cbn [snd calls map seq lift ret]; rewrite app_nil_r; reflexivity|].
    destruct (len (st' ++ slice_from st' 4) =? 0);
      [exists 0%nat; cbn [snd calls map seq lift ret]; rewrite app_nil_r; reflexivity|].
    unfold io_bind at 1, f_write. cbn [file calls].
    destruct (negb (fits _ pos));
      [exists 1%nat; cbn [snd calls]; rewrite map_app; reflexivity|].
    destruct (pos <? 0).
    + exists 1%nat. cbn [snd calls]. rewrite map_app. reflexivity.
    + match goal with
      | |- context [decrypt_next_chunks fuel key es cs step ?p st' ?w1] =>
        destruct (IH key es cs step p st' w1) as [m Hm]
      end.
      exists (S m). rewrite Hm. cbn [calls]. rewrite map_app, <- app_assoc.
      f_equal. cbn [seq map]. unfold st'. rewrite map_nonce_from_succ. reflexivity.
Qed.

Lemma nonces_succ (first : bytes) (m : nat) :
  nonces first (S m) = first :: map chunk_nonce (seq 1 m).
Proof.
  unfold nonces. replace (S m - 1)%nat with m by lia. cbn [take].
  f_equal. apply take_ge. rewrite length_map, length_seq. lia.
Qed.

(** The first cipher of a mode takes the nonce of the key data, cut to
    [size]; the loop adds its own. *)
Lemma first_then_next_nonces (fuel : nat) (key nonce : bytes)
    (size n0 enc_size chunk_size chunk_step : Z) (k : unit -> io Z) (w : world) :
  (forall u w1, calls (snd (k u w1)) = calls w1) ->
  exists m,
    map call_nonce
      (calls (snd (
        (io! enc_data <- f_read 0 n0;
         io! data <- gcm key (slice_to nonce size) enc_data;
         io! _ <- f_write 0 data;
         io! u <- decrypt_next_chunks fuel key enc_size chunk_size chunk_step
                                      chunk_step RND64_INIT_STATE_DATA;
         k u) w)))
    = map call_nonce (calls w) ++ nonces (slice_to nonce size) m.
Proof.
  intros Hk. unfold io_bind at 1.
  assert (Hread : exists r, f_read 0 n0 w = (r, w)) by apply f_read_world.
  destruct Hread as [r ->].
  destruct r as [enc_data|e|];
    try (exists 0%nat; cbn [snd nonces take]; rewrite app_nil_r; reflexivity).
  unfold io_bind at 1, gcm.
  destruct (negb (CBC.valid_key_length key));
    [exists 0%nat; cbn [snd nonces take]; rewrite app_nil_r; reflexivity|].
  destruct (len (slice_to nonce size) =? 0);
    [exists 0%nat; cbn [snd nonces take]; rewrite app_nil_r; reflexivity|].
  erewrite (io_bind_return (f_write 0 _)) by (apply f_write_ok; inside).
  cbn [file calls]. unfold io_bind at 1.
  match goal with
  | |- context [decrypt_next_chunks fuel key enc_size chunk_size chunk_step
                                    chunk_step RND64_INIT_STATE_DATA ?w1] =>
    destruct (next_chunks_nonces fuel key enc_size chunk_size chunk_step
                                 chunk_step RND64_INIT_STATE_DATA w1) as [m Hm];
    destruct (decrypt_next_chunks fuel key enc_size chunk_size chunk_step
                                  chunk_step RND64_INIT_STATE_DATA w1)
      as [[u|e|] w2]
  end; exists (S m); cbn [snd] in *; rewrite ?Hk, Hm; cbn [calls];
    rewrite map_app, <- app_assoc, nonces_succ; reflexivity.
Qed.

Lemma range_count_done (pos stop step : Z) :
  0 < step -> stop <= pos -> range_count pos stop step = 0%nat.
Proof.
  intros Hstep Hdone. unfold range_count.
  assert ((stop - pos + step - 1) / step <= 0); [|lia].
  Z.div_mod_to_equations. nia.
Qed.

Lemma range_count_next (pos stop step : Z) :
  0 < step -> pos < stop ->
  range_count pos stop step = S (range_count (pos + step) stop step).
Proof.
  intros Hstep Hmore. unfold range_count.
  replace (stop - pos + step - 1) with (stop - (pos + step) + step - 1 + 1 * step)
    by lia.
  rewrite Z.div_add by lia.
  assert (0 <= (stop - (pos + step) + step - 1) / step)
    by (apply Z.div_pos; lia).
  lia.
Qed.

(** With a key that the cipher accepts, chunks that have a size, a
    step that advances and an encrypted size within the file, the loop
    ends when it has fuel for one turn per chunk position below the
    encrypted size, and it has then built one cipher for each. *)
Lemma next_chunks_run (fuel : nat) :
  forall (key : bytes) (enc_size chunk_size chunk_step pos : Z)
         (st : bytes) (w : world),
  CBC.valid_key_length key = true ->
  0 < chunk_size -> 0 < chunk_step -> 0 <= pos ->
  enc_size <= len (file w) ->
  (range_count pos enc_size chunk_step <= fuel)%nat ->
  exists w',
    decrypt_next_chunks fuel key enc_size chunk_size chunk_step pos st w
      = (Return tt, w') /\
    len (file w') = len (file w) /\
    map call_nonce (calls w')
      = map call_nonce (calls w)
        ++ map (nonce_from st) (seq 1 (range_count pos enc_size chunk_step)).
Proof.
  induction fuel as [|fuel IH]; intros key es cs step pos st w
    Hkey Hcs Hstep Hpos Hes Hfuel; cbn [decrypt_next_chunks];
    destruct (pos <? es) eqn:Hmore.
  - rewrite range_count_next in Hfuel by lia. lia.
  - exists w. rewrite range_count_done by lia.
    cbn [seq map]. rewrite app_nil_r. auto.
  - rewrite range_count_next in * by lia.
    set (n := Z.min (es - pos) cs).
    erewrite io_bind_return by (apply f_read_ok; inside).
    assert (Hln : len (read (file w) pos n) = n)
      by (apply len_read_inside; lia).
    destruct (read (file w) pos n) as [|x enc_data] eqn:Hread;
      [unfold len in Hln; simpl in Hln; lia|].
    rewrite <- Hread in *. clear Hread x enc_data.
    set (st' := rnd64data st).
    erewrite io_bind_return; cycle 1.
    { apply gcm_ok; [exact Hkey|].
      intros E. apply (f_equal (@length byte)) in E.
      rewrite length_app in E. unfold st' in E.
      rewrite length_rnd64data in E. simpl in E. lia. }
    erewrite io_bind_return by (apply f_write_ok; inside).
    cbn [file calls].
    match goal with
    | |- context [decrypt_next_chunks fuel key es cs step ?p st' ?w1] =>
      destruct (IH key es cs step p st' w1) as (w' & Hrun & Hlen & Hnonces);
        try assumption; try lia
    end.
    { cbn [file]. rewrite len_write_inside; [lia | lia |].
      rewrite len_gcm_decrypt. lia. }
    exists w'. split; [exact Hrun|]. split.
    + rewrite Hlen. cbn [file]. apply len_write_inside; [lia|].
      rewrite len_gcm_decrypt. lia.
    + rewrite Hnonces. cbn [calls]. rewrite map_app, <- app_assoc.
      f_equal. cbn [seq map]. unfold st'. rewrite map_nonce_from_succ.
      reflexivity.
  - exists w. rewrite range_count_done by lia.
    cbn [seq map]. rewrite app_nil_r. auto.
Qed.

(** The chunk mode as a whole, under the same conditions. *)
Lemma chunk_enc_run (fuel : nat) (key nonce : bytes)
    (chunk_size chunk_space enc_size file_size : Z) (w : world) :
  CBC.valid_key_length key = true ->
  slice_to nonce CHUNK_ENC_NONCE_SIZE <> [] ->
  0 < chunk_size -> 0 <= chunk_space ->
  0 <= enc_size <= len (file w) ->
  let chunk_step := chunk_size + chunk_space in
  (range_count chunk_step enc_size chunk_step <= fuel)%nat ->
  exists w',
    decrypt_chunk_enc fuel key nonce chunk_size chunk_space enc_size
                      file_size w
      = (Return file_size, w') /\
    map call_nonce (calls w')
      = map call_nonce (calls w)
        ++ nonces (slice_to nonce CHUNK_ENC_NONCE_SIZE)
                  (S (range_count chunk_step enc_size chunk_step)).
Proof.
  intros Hkey Hnonce Hcs Hsp Hes. cbv zeta. intros Hfuel.
  unfold decrypt_chunk_enc. cbv zeta.
  set (step := chunk_size + chunk_space) in *.
  erewrite io_bind_return by (apply f_read_ok; inside).
  erewrite io_bind_return by (apply gcm_ok; assumption).
  erewrite io_bind_return by (apply f_write_ok; inside).
  cbn [file calls].
  match goal with
  | |- exists _, io_bind _ _ ?w1 = _ /\ _ =>
    destruct (next_chunks_run fuel key enc_size chunk_size step step
                RND64_INIT_STATE_DATA w1)
      as (w' & Hrun & Hlen & Hnonces); try assumption; try (unfold step; lia)
  end.
  { cbn [file]. rewrite len_write_inside; [lia | lia |].
    rewrite len_gcm_decrypt, len_read_inside; lia. }
  exists w'. erewrite io_bind_return by exact Hrun.
  split; [reflexivity|].
  rewrite Hnonces. cbn [calls]. rewrite map_app, <- app_assoc, nonces_succ.
  reflexivity.
Qed.

(** A small file of some blocks as a whole: with a key and a nonce that
    the cipher accepts, the run ends when it has fuel for one turn
    per block after the first, and has then built one cipher for
    each block. *)
Lemma small_blocks_run (fuel : nat) (key nonce : bytes) (file_size : Z)
    (w : world) :
  CBC.valid_key_length key = true ->
  slice_to nonce FULL_ENC_NONCE_SIZE1 <> [] ->
  ENC_BLOCK_SIZE < file_size < MIN_BIG_FILE_SIZE ->
  file_size <= len (file w) ->
  (range_count ENC_BLOCK_SIZE (file_size - 2) ENC_BLOCK_SIZE <= fuel)%nat ->
  exists size w',
    decrypt_small_some_blocks fuel key nonce file_size w
      = (Return size, w') /\
    map call_nonce (calls w')
      = map call_nonce (calls w)
        ++ nonces (slice_to nonce FULL_ENC_NONCE_SIZE1)
                  (S (range_count ENC_BLOCK_SIZE (file_size - 2)
                                  ENC_BLOCK_SIZE)).
Proof.
  intros Hkey Hnonce Hsize Hlen Hfuel.
  assert (Hblock : ENC_BLOCK_SIZE = 512000) by reflexivity.
  assert (Hbig : MIN_BIG_FILE_SIZE = 2048000) by reflexivity.
  unfold decrypt_small_some_blocks. cbv zeta.
  replace (file_size - (ADDITIONAL_DATA_SIZE + 1)) with (file_size - 2)
    by reflexivity.
  erewrite io_bind_return by (apply f_read_ok; inside).
  erewrite io_bind_return by (apply gcm_ok; assumption).
  erewrite io_bind_return by (apply f_write_ok; inside).
  cbn [file calls].
  match goal with
  | |- exists _ _, io_bind _ _ ?w1 = _ /\ _ =>
    destruct (next_chunks_run fuel key (file_size - 2) ENC_BLOCK_SIZE
                ENC_BLOCK_SIZE ENC_BLOCK_SIZE RND64_INIT_STATE_DATA w1)
      as (w' & Hrun & Hlen' & Hnonces); try assumption; try lia
  end.
  { cbn [file]. rewrite len_write_inside; [lia | lia |].
    rewrite len_gcm_decrypt, len_read_inside; lia. }
  erewrite io_bind_return by exact Hrun.
  cbn [file] in Hlen'.
  rewrite len_write_inside in Hlen'
    by (rewrite ?len_gcm_decrypt, ?len_read_inside; lia).
  unfold remove_end_marker.
  change (len (longest [] [SMALL_FILE_END_MARKER1])) with 16.
  erewrite io_bind_return by (apply f_read_ok; lia).
  unfold ret. eexists _, _. split; [reflexivity|].
  rewrite Hnonces. cbn [calls]. rewrite map_app, <- app_assoc, nonces_succ.
  reflexivity.
Qed.

(** C1. In the chunk mode, and for a small file of some blocks, the
    first cipher is built with the nonce of the unwrapped key data
    cut to 12 bytes, and cipher [k] after it with the 12 bytes that
    step [k] of the sequencer gives: its 8 bytes of output followed by
    the last 4 of them.  The sequencer starts from [b'sxuojgdg'];
    each step reads the 8 bytes of the state before it as a
    little-endian number, runs [rnd64_seed] once and writes the number
    it returns, which is below [2^64], as 8 big-endian bytes, which
    are the state for the step after.  On a well-formed container
    the chunk mode ends, with one cipher for the first chunk and one
    for each chunk position after it; and so does the decryption of
    a small file of some blocks, with one cipher for each block of
    [ENC_BLOCK_SIZE] bytes below [file_size - 2]. *)
Theorem chunk_nonce_sequence
    (fuel : nat) (key nonce : bytes)
    (chunk_size chunk_space enc_size file_size : Z) (w : world) :
  (exists m,
     map call_nonce
       (calls (snd (decrypt_chunk_enc fuel key nonce chunk_size chunk_space
                                      enc_size file_size w)))
     = map call_nonce (calls w)
       ++ nonces (slice_to nonce CHUNK_ENC_NONCE_SIZE) m) /\
  (exists m,
     map call_nonce
       (calls (snd (decrypt_small_some_blocks fuel key nonce file_size w)))
     = map call_nonce (calls w)
       ++ nonces (slice_to nonce FULL_ENC_NONCE_SIZE1) m) /\
  (CBC.valid_key_length key = true ->
   slice_to nonce CHUNK_ENC_NONCE_SIZE <> [] ->
   0 < chunk_size -> 0 <= chunk_space ->
   0 <= enc_size <= len (file w) ->
   (range_count (chunk_size + chunk_space) enc_size
                (chunk_size + chunk_space) <= fuel)%nat ->
   exists w',
     decrypt_chunk_enc fuel key nonce chunk_size chunk_space enc_size
                       file_size w
       = (Return file_size, w') /\
     map call_nonce (calls w')
       = map call_nonce (calls w)
         ++ nonces (slice_to nonce CHUNK_ENC_NONCE_SIZE)
                   (S (range_count (chunk_size + chunk_space) enc_size
                                   (chunk_size + chunk_space)))) /\
  (CBC.valid_key_length key = true ->
   slice_to nonce FULL_ENC_NONCE_SIZE1 <> [] ->
   ENC_BLOCK_SIZE < file_size < MIN_BIG_FILE_SIZE ->
   file_size <= len (file w) ->
   (range_count ENC_BLOCK_SIZE (file_size - 2) ENC_BLOCK_SIZE <= fuel)%nat ->
   exists size w',
     decrypt_small_some_blocks fuel key nonce file_size w
       = (Return size, w') /\
     map call_nonce (calls w')
       = map call_nonce (calls w)
         ++ nonces (slice_to nonce FULL_ENC_NONCE_SIZE1)
                   (S (range_count ENC_BLOCK_SIZE (file_size - 2)
                                   ENC_BLOCK_SIZE))) /\
  CHUNK_ENC_NONCE_SIZE = 12 /\ FULL_ENC_NONCE_SIZE1 = 12 /\
  sequencer_state 0 = b "sxuojgdg" /\
  forall k : nat,
    let rnd64 :=
      fst (rnd64_seed (int_from_le (sequencer_state k)) RND64_A1 RND64_A2) in
    let out := int_to_be 8 rnd64 in
    0 <= rnd64 < 2 ^ 64 /\
    sequencer_state (S k) = out /\
    length out = 8%nat /\
    chunk_nonce (S k) = out ++ drop 4 out /\
    length (chunk_nonce (S k)) = 12%nat.
Proof.
  split; [|split; [|split; [|split]]].
  - unfold decrypt_chunk_enc. apply first_then_next_nonces.
    intros u w1. reflexivity.
  - unfold decrypt_small_some_blocks. apply first_then_next_nonces.
    intros u w1. unfold remove_end_marker, io_bind.
    destruct (f_read_world (file_size - len (longest [] [SMALL_FILE_END_MARKER1]))
                (len (longest [] [SMALL_FILE_END_MARKER1])) w1) as [r ->].
    destruct r; reflexivity.
  - intros Hkey Hnonce Hcs Hsp Hes Hfuel.
    apply chunk_enc_run; assumption.
  - intros Hkey Hnonce Hsize Hlen Hfuel.
    apply small_blocks_run; assumption.
  - repeat (split; [reflexivity|]). intros k. cbv zeta.
    assert (Hl : len (sequencer_state k) = 8)
      by (unfold len; rewrite length_sequencer_state; reflexivity).
    assert (Hstep : sequencer_state (S k)
      = int_to_be 8 (fst (rnd64_seed (int_from_le (sequencer_state k))
                                     RND64_A1 RND64_A2)))
      by (rewrite <- rnd64data_unfold by exact Hl; reflexivity).
    assert (Hlo : length (sequencer_state (S k)) = 8%nat)
      by apply length_sequencer_state.
    split; [apply rnd64_seed_range|].
    split; [exact Hstep|]. rewrite <- Hstep.
    split; [exact Hlo|].
    assert (Hn : chunk_nonce (S k)
                 = sequencer_state (S k) ++ drop 4 (sequencer_state (S k))).
    { unfold chunk_nonce, nonce_from. fold (sequencer_state (S k)). cbv zeta.
      unfold slice_from, len. rewrite Hlo. reflexivity. }
    split; [exact Hn|].
    rewrite Hn, length_app, length_drop, Hlo. reflexivity.
Qed.

End NonceSequence.

Lemma chunk_nonce_sequence_witness :
  (exists w',
     decrypt_chunk_enc (H := Toy.externals) 2 Toy.key (b "0123456789abcdef")
                       4 4 20 24 chunked_world
       = (Return 24, w') /\
     map call_nonce (calls w')
       = [b "0123456789ab"; chunk_nonce 1; chunk_nonce 2]) /\
  (exists size w',
     decrypt_small_some_blocks (H := Toy.externals) 3 Toy.key
                               (b "0123456789abcdef") 2000000 big_world
       = (Return size, w') /\
     map call_nonce (calls w')
       = [b "0123456789ab"; chunk_nonce 1; chunk_nonce 2; chunk_nonce 3]).
Proof.
  split.
  - destruct (chunk_nonce_sequence (H := Toy.externals) 2 Toy.key
                (b "0123456789abcdef") 4 4 20 24 chunked_world)
      as (_ & _ & Hrun & _).
    destruct Hrun as (w' & Hrun & Hnonces).
    + reflexivity.
    + discriminate.
    + lia.
    + lia.
    + vm_compute. split; discriminate.
    + vm_compute. lia.
    + exists w'. split; [exact Hrun|]. rewrite Hnonces. reflexivity.
  - destruct (chunk_nonce_sequence (H := Toy.externals) 3 Toy.key
                (b "0123456789abcdef") 4 4 20 2000000 big_world)
      as (_ & _ & _ & Hsmall & _).
    destruct Hsmall as (size & w' & Hrun & Hnonces).
    + reflexivity.
    + discriminate.
    + vm_compute. split; reflexivity.
    + unfold big_world, len. cbn [file]. rewrite length_replicate. lia.
    + vm_compute. lia.
    + exists size, w'. split; [exact Hrun|]. rewrite Hnonces. reflexivity.
Defined.

(** The first two nonces of the sequence. *)
Example chunk_nonce_vectors :
  map byte_to_Z (chunk_nonce 1)
    = [4; 241; 246; 112; 18; 98; 127; 129; 18; 98; 127; 129] /\
  map byte_to_Z (chunk_nonce 2)
    = [22; 136; 129; 255; 201; 8; 217; 99; 201; 8; 217; 99].
Proof. vm_compute. split; reflexivity. Qed.

End NonceSequence.

(** ** C9: what the engines do with a failure *)

Module Failures.
Import PhobosSpec Rcru64Spec Steps Samples.

(** The strict decoder raises nothing but [UnicodeDecodeError]. *)
Lemma utf16_units_raises (big : bool) (n : nat) :
  forall l : bytes, (length l <= n)%nat ->
  utf16_units big l <> OutOfFuel /\
  forall e, utf16_units big l = Raise e -> e = UnicodeDecodeError.
Proof.
  induction n as [|n IH]; intros l Hl.
  - destruct l; [|simpl in Hl; lia]. simpl. split; [|intros e]; discriminate.
  - destruct l as [|x [|y l]]; cbn [utf16_units].
    + split; [|intros e]; discriminate.
    + split; [discriminate|]. intros e [= <-]. reflexivity.
    + destruct (IH l ltac:(simpl in Hl; lia)) as [Hfuel Hraise].
      destruct (utf16_units big l) as [us|e'|]; cbn [bind].
      * split; [|intros e]; discriminate.
      * split; [discriminate|]. intros e [= <-]. apply Hraise. reflexivity.
      * contradiction.
Qed.

Lemma utf16_points_raises (n : nat) :
  forall us : list Z, (length us <= n)%nat ->
  utf16_points us <> OutOfFuel /\
  forall e, utf16_points us = Raise e -> e = UnicodeDecodeError.
Proof.
  induction n as [|n IH]; intros us Hl.
  - destruct us; [|simpl in Hl; lia]. simpl. split; [|intros e]; discriminate.
  - destruct us as [|u us]; cbn [utf16_points].
    + split; [|intros e]; discriminate.
    + destruct (is_high_surrogate u).
      * destruct us as [|v us].
        { split; [discriminate|]. intros e [= <-]. reflexivity. }
        destruct (is_low_surrogate v).
        -- destruct (IH us ltac:(simpl in Hl; lia)) as [Hfuel Hraise].
           destruct (utf16_points us) as [ps|e'|]; cbn [bind].
           ++ split; [|intros e]; discriminate.
           ++ split; [discriminate|]. intros e [= <-]. apply Hraise. reflexivity.
           ++ contradiction.
        -- split; [discriminate|]. intros e [= <-]. reflexivity.
      * destruct (is_low_surrogate u).
        { split; [discriminate|]. intros e [= <-]. reflexivity. }
        destruct (IH us ltac:(simpl in Hl; lia)) as [Hfuel Hraise].
        destruct (utf16_points us) as [ps|e'|]; cbn [bind].
        -- split; [|intros e]; discriminate.
        -- split; [discriminate|]. intros e [= <-]. apply Hraise. reflexivity.
        -- contradiction.
Qed.

Lemma units_then_points (big : bool) (l : bytes) :
  (do us <- utf16_units big l; utf16_points us) <> OutOfFuel /\
  forall e, (do us <- utf16_units big l; utf16_points us) = Raise e ->
            e = UnicodeDecodeError.
Proof.
  destruct (utf16_units_raises big (length l) l ltac:(lia)) as [Hfuel Hraise].
  destruct (utf16_units big l) as [us|e'|]; cbn [bind].
  - apply (utf16_points_raises (length us)). lia.
  - split; [discriminate|]. intros e [= <-]. apply Hraise. reflexivity.
  - contradiction.
Qed.

Lemma utf16_decode_raises (l : bytes) :
  utf16_decode l <> OutOfFuel /\
  forall e, utf16_decode l = Raise e -> e = UnicodeDecodeError.
Proof.
  unfold utf16_decode.
  repeat match goal with
  | |- context [match ?x with _ => _ end] =>
    lazymatch x with
    | bind _ _ => fail
    | _ => destruct x
    end
  end; apply units_then_points.
Qed.

Lemma index_inside (l : bytes) (i : Z) :
  0 <= i < len l ->
  exists x, index l i = Return x /\ l !! Z.to_nat i = Some x.
Proof.
  intros Hi. unfold index. replace (i <? 0) with false by lia.
  cbv zeta. replace (i <? 0) with false by lia.
  destruct (l !! Z.to_nat i) as [x|] eqn:E; [eauto|].
  apply lookup_ge_None_1 in E. unfold len in Hi. lia.
Qed.

Lemma index_outside (l : bytes) (i : Z) :
  len l <= i -> index l i = Raise IndexError /\ l !! Z.to_nat i = None.
Proof.
  intros Hi. pose proof (len_nonneg l) as Hl.
  assert (Hnone : l !! Z.to_nat i = None)
    by (apply lookup_ge_None_2; unfold len in *; lia).
  split; [|exact Hnone]. unfold index. replace (i <? 0) with false by lia.
  cbv zeta. replace (i <? 0) with false by lia. rewrite Hnone. reflexivity.
Qed.

Lemma zero_byte (x : byte) : byte_to_Z x = 0 -> x = "000"%byte.
Proof. intros E. apply byte_to_Z_inj. exact E. Qed.

(** The scan for the end of the name, entered at [i] with [n] turns to
    go, all of them within the end block but for the second byte of
    the last. *)
Lemma find_name_end_spec (n : nat) :
  forall (i : Z) (eb : bytes),
  0 <= i -> i + 2 * Z.of_nat n <= len eb + 1 ->
  match Phobos.find_name_end n i eb with
  | Return (Some j) =>
    (exists k, 0 <= k < Z.of_nat n /\ j = i + 2 * k) /\
    zero_unit eb j /\
    (forall k, 0 <= k -> i + 2 * k < j -> ~ zero_unit eb (i + 2 * k))
  | Return None =>
    (forall k, 0 <= k < Z.of_nat n -> ~ zero_unit eb (i + 2 * k)) /\
    ((0 < n)%nat -> i + 2 * Z.of_nat n = len eb + 1 ->
     eb !! Z.to_nat (len eb - 1) <> Some "000"%byte)
  | Raise e =>
    e = IndexError /\ i + 2 * Z.of_nat n = len eb + 1 /\ (0 < n)%nat /\
    eb !! Z.to_nat (len eb - 1) = Some "000"%byte /\
    (forall k, 0 <= k < Z.of_nat n -> ~ zero_unit eb (i + 2 * k))
  | OutOfFuel => False
  end.
Proof.
  induction n as [|n IH]; intros i eb Hi Hn; cbn [Phobos.find_name_end].
  - split; [intros k Hk|intros Hpos]; lia.
  - destruct (index_inside eb i ltac:(lia)) as (x & -> & Hx). cbn [bind].
    assert (Hrest :
      ~ zero_unit eb i ->
      (i + 2 = len eb + 1 ->
       eb !! Z.to_nat (len eb - 1) <> Some "000"%byte) ->
      match Phobos.find_name_end n (i + 2) eb with
      | Return (Some j) =>
        (exists k, 0 <= k < Z.of_nat (S n) /\ j = i + 2 * k) /\
        zero_unit eb j /\
        (forall k, 0 <= k -> i + 2 * k < j -> ~ zero_unit eb (i + 2 * k))
      | Return None =>
        (forall k, 0 <= k < Z.of_nat (S n) -> ~ zero_unit eb (i + 2 * k)) /\
        ((0 < S n)%nat -> i + 2 * Z.of_nat (S n) = len eb + 1 ->
         eb !! Z.to_nat (len eb - 1) <> Some "000"%byte)
      | Raise e =>
        e = IndexError /\ i + 2 * Z.of_nat (S n) = len eb + 1 /\
        (0 < S n)%nat /\
        eb !! Z.to_nat (len eb - 1) = Some "000"%byte /\
        (forall k, 0 <= k < Z.of_nat (S n) -> ~ zero_unit eb (i + 2 * k))
      | OutOfFuel => False
      end).
    { intros Hnot Hlast. specialize (IH (i + 2) eb ltac:(lia) ltac:(lia)).
      assert (Hshift : forall k, 1 <= k ->
                i + 2 * k = i + 2 + 2 * (k - 1)) by (intros; lia).
      destruct (Phobos.find_name_end n (i + 2) eb) as [[j|]|e|].
      - destruct IH as ((k & Hk & ->) & Hz & Hfirst).
        split; [exists (k + 1); split; lia|]. split; [exact Hz|].
        intros k' Hk' Hlt. destruct (Z.eq_dec k' 0) as [->|Hne].
        + replace (i + 2 * 0) with i by lia. exact Hnot.
        + rewrite Hshift by lia. apply Hfirst; lia.
      - destruct IH as [Hnone Hodd]. split.
        + intros k Hk. destruct (Z.eq_dec k 0) as [->|Hne].
          * replace (i + 2 * 0) with i by lia. exact Hnot.
          * rewrite Hshift by lia. apply Hnone. lia.
        + intros _ Hend. destruct n as [|n'].
          * apply Hlast. lia.
          * apply Hodd; lia.
      - destruct IH as (-> & Hlast' & Hpos & Hzero & Hnone).
        split; [reflexivity|]. split; [lia|]. split; [lia|].
        split; [exact Hzero|].
        intros k Hk. destruct (Z.eq_dec k 0) as [->|Hne].
        + replace (i + 2 * 0) with i by lia. exact Hnot.
        + rewrite Hshift by lia. apply Hnone. lia.
      - exact IH. }
    destruct (byte_to_Z x =? 0) eqn:Ex.
    + apply Z.eqb_eq, zero_byte in Ex. subst x.
      destruct (Z_lt_ge_dec (i + 1) (len eb)) as [Hin|Hout].
      * destruct (index_inside eb (i + 1) ltac:(lia)) as (y & -> & Hy).
        cbn [bind]. destruct (byte_to_Z y =? 0) eqn:Ey.
        -- apply Z.eqb_eq, zero_byte in Ey. subst y.
           split; [exists 0; split; lia|]. split; [split; assumption|].
           intros k Hk Hlt. lia.
        -- apply Hrest; [|lia]. intros [_ Hz]. rewrite Hy in Hz.
           injection Hz as ->. discriminate.
      * destruct (index_outside eb (i + 1) ltac:(lia)) as [-> Hnone].
        cbn [bind]. split; [reflexivity|]. split; [lia|]. split; [lia|].
        split; [replace (len eb - 1) with i by lia; exact Hx|].
        intros k Hk [_ Hz]. replace k with 0 in Hz by lia.
        replace (i + 2 * 0 + 1) with (i + 1) in Hz by lia. congruence.
    + assert (Hx0 : x <> "000"%byte) by (intros ->; discriminate).
      apply Hrest.
      * intros [Hz _]. congruence.
      * intros Hend. replace (len eb - 1) with i by lia. congruence.
Qed.

(** The scan that [decrypt_file2] makes, from the position [p] of
    the name to the end of the end block. *)
Lemma name_scan_spec (eb : bytes) (p : Z) :
  0 <= p ->
  match Phobos.find_name_end (range_count p (len eb) 2) p eb with
  | Return (Some j) =>
    p <= j /\ (j - p) mod 2 = 0 /\ zero_unit eb j /\
    (forall k, 0 <= k -> p + 2 * k < j -> ~ zero_unit eb (p + 2 * k))
  | Return None =>
    (forall k, 0 <= k -> ~ zero_unit eb (p + 2 * k)) /\
    (len eb <= p \/ (len eb - p) mod 2 = 0
     \/ eb !! Z.to_nat (len eb - 1) <> Some "000"%byte)
  | Raise e =>
    e = IndexError /\ p < len eb /\ (len eb - p) mod 2 = 1 /\
    eb !! Z.to_nat (len eb - 1) = Some "000"%byte /\
    (forall k, 0 <= k -> ~ zero_unit eb (p + 2 * k))
  | OutOfFuel => False
  end.
Proof.
  intros Hp. pose proof (len_nonneg eb) as Hl.
  assert (Hbeyond : forall k, len eb <= p + 2 * k + 1 -> 0 <= k ->
            ~ zero_unit eb (p + 2 * k)).
  { intros k Hk Hk0 [_ Hz]. apply lookup_lt_Some in Hz.
    unfold len in *. lia. }
  destruct (Z_lt_ge_dec p (len eb)) as [Hin|Hout].
  - set (n := range_count p (len eb) 2).
    assert (Hn : 2 * Z.of_nat n <= len eb - p + 1 < 2 * Z.of_nat n + 2).
    { unfold n, range_count.
      rewrite Z2Nat.id by (apply Z.div_pos; lia).
      Z.div_mod_to_equations. lia. }
    pose proof (find_name_end_spec n p eb Hp ltac:(lia)) as Hspec.
    destruct (Phobos.find_name_end n p eb) as [[j|]|e|].
    + destruct Hspec as ((k & Hk & ->) & Hz & Hfirst).
      split; [lia|]. split; [Z.div_mod_to_equations; lia|].
      split; [exact Hz | exact Hfirst].
    + destruct Hspec as [Hnone Hodd]. split.
      * intros k Hk. destruct (Z_lt_ge_dec k (Z.of_nat n)).
        -- apply Hnone. lia.
        -- apply Hbeyond; lia.
      * destruct (Z.eq_dec ((len eb - p) mod 2) 0) as [He|Ho];
          [right; left; exact He|].
        right. right. apply Hodd; [|Z.div_mod_to_equations]; lia.
    + destruct Hspec as (-> & Hlast & Hpos & Hzero & Hnone).
      split; [reflexivity|]. split; [exact Hin|].
      split; [Z.div_mod_to_equations; lia|]. split; [exact Hzero|].
      intros k Hk. destruct (Z_lt_ge_dec k (Z.of_nat n)).
      * apply Hnone. lia.
      * apply Hbeyond; lia.
    + exact Hspec.
  - replace (range_count p (len eb) 2) with 0%nat.
    + cbn [Phobos.find_name_end]. split; [|left; lia].
      intros k Hk. apply Hbeyond; lia.
    + unfold range_count. symmetry.
      assert ((len eb - p + 2 - 1) / 2 <= 0)
        by (Z.div_mod_to_equations; lia).
      lia.
Qed.

(** With no zero code unit at an even offset from the position of the
    name, the scan runs off the end block when its last turn is on
    the last byte and that byte is zero, and ends without a find
    otherwise. *)
Lemma name_scan_none (eb : bytes) (p : Z) :
  0 <= p ->
  (forall k, 0 <= k -> ~ zero_unit eb (p + 2 * k)) ->
  (p < len eb /\ (len eb - p) mod 2 = 1
   /\ eb !! Z.to_nat (len eb - 1) = Some "000"%byte ->
   Phobos.find_name_end (range_count p (len eb) 2) p eb = Raise IndexError) /\
  (len eb <= p \/ (len eb - p) mod 2 = 0
   \/ eb !! Z.to_nat (len eb - 1) <> Some "000"%byte ->
   Phobos.find_name_end (range_count p (len eb) 2) p eb = Return None).
Proof.
  intros Hp Hnone. pose proof (name_scan_spec eb p Hp) as Hspec.
  destruct (Phobos.find_name_end _ p eb) as [[j|]|e|].
  - destruct Hspec as (Hj & Hmod & Hz & _). exfalso.
    apply (Hnone ((j - p) / 2)); [Z.div_mod_to_equations; lia|].
    replace (p + 2 * ((j - p) / 2)) with j
      by (Z.div_mod_to_equations; lia).
    exact Hz.
  - destruct Hspec as [_ Hwhy]. split; [|reflexivity].
    intros (Hin & Hodd & Hzero). exfalso.
    destruct Hwhy as [Hw|[Hw|Hw]]; [lia | lia | contradiction].
  - destruct Hspec as (-> & Hin & Hodd & Hzero & _).
    split; [reflexivity|].
    intros [Hw|[Hw|Hw]]; exfalso; [lia | lia | contradiction].
  - contradiction.
Qed.

(** The scan stops at the first zero code unit at an even offset from
    the position of the name. *)
Lemma name_scan_some (eb : bytes) (p j : Z) :
  0 <= p -> p <= j -> (j - p) mod 2 = 0 -> zero_unit eb j ->
  (forall k, 0 <= k -> p + 2 * k < j -> ~ zero_unit eb (p + 2 * k)) ->
  Phobos.find_name_end (range_count p (len eb) 2) p eb = Return (Some j).
Proof.
  intros Hp Hj Hmod Hz Hfirst. pose proof (name_scan_spec eb p Hp) as Hspec.
  assert (Hat : forall j', p <= j' -> (j' - p) mod 2 = 0 ->
            j' = p + 2 * ((j' - p) / 2) /\ 0 <= (j' - p) / 2)
    by (intros; Z.div_mod_to_equations; lia).
  destruct (Hat j Hj Hmod) as [Ej Hk].
  destruct (Phobos.find_name_end _ p eb) as [[j'|]|e|].
  - destruct Hspec as (Hj' & Hmod' & Hz' & Hfirst').
    destruct (Hat j' Hj' Hmod') as [Ej' Hk'].
    destruct (Z.lt_trichotomy j j') as [Hlt|[->|Hgt]]; [|reflexivity|].
    + exfalso. apply (Hfirst' ((j - p) / 2) Hk); rewrite <- Ej; assumption.
    + exfalso. apply (Hfirst ((j' - p) / 2) Hk'); rewrite <- Ej'; assumption.
  - exfalso. destruct Hspec as [Hnone _].
    apply (Hnone _ Hk). rewrite <- Ej. exact Hz.
  - exfalso. destruct Hspec as (_ & _ & _ & _ & Hnone).
    apply (Hnone _ Hk). rewrite <- Ej. exact Hz.
  - contradiction.
Qed.


(** [int] raises nothing but [ValueError]. *)
Lemma int_of_bytes_raises (l : bytes) :
  int_of_bytes l <> OutOfFuel /\
  forall e, int_of_bytes l = Raise e -> e = ValueError.
Proof.
  unfold int_of_bytes.
  match goal with
  | |- context [match ?p with Some _ => _ | None => _ end] => destruct p
  end.
  - split; [|intros e]; discriminate.
  - split; [discriminate|]. intros e [= <-]. reflexivity.
Qed.

Section Failures.
Context `{BlockCipher} {D : Directory} `{Externals}.

Lemma decrypt_file2_short (file key_data : bytes) :
  len file < Phobos.METADATA_SIZE ->
  Phobos.decrypt_file2 file key_data = Phobos.finish (Return false).
Proof.
  intros Hshort. unfold Phobos.decrypt_file2, Phobos.read_info.
  replace (len file <? Phobos.METADATA_SIZE) with true by lia. reflexivity.
Qed.

Lemma magic_test (eb : bytes) :
  (if endblock_mode eb =? 1
   then endblock_magic eb =? Phobos.ENC_MODE1_MAGIC
   else if endblock_mode eb =? 2
        then endblock_magic eb =? Phobos.ENC_MODE2_MAGIC
        else false) = magic_ok eb.
Proof.
  unfold magic_ok.
  change Phobos.ENC_MODE1_MAGIC with 0xAF77BC0F.
  change Phobos.ENC_MODE2_MAGIC with 0xF0A75E12.
  destruct (endblock_mode eb =? 1) eqn:E1.
  - apply Z.eqb_eq in E1. rewrite E1. cbn [Z.eqb Pos.eqb andb].
    rewrite orb_false_r. reflexivity.
  - destruct (endblock_mode eb =? 2); reflexivity.
Qed.

(** [read_info] behind the key search: the tests of the footer size,
    the cipher, and the end block that it decrypts. *)
Lemma read_info_endblock (file key_data key : bytes) :
  Phobos.METADATA_SIZE <= len file ->
  Phobos.find_key (container_wrapped_key file) key_data = Some key ->
  let footer_size := container_footer_size file in
  let eb := container_endblock file key in
  (footer_size <= Phobos.METADATA_SIZE
   \/ (footer_size - Phobos.METADATA_SIZE) mod 16 <> 0
   \/ len file < footer_size ->
   Phobos.read_info file key_data = Return None) /\
  (Phobos.METADATA_SIZE < footer_size <= len file ->
   (footer_size - Phobos.METADATA_SIZE) mod 16 = 0 ->
   (CBC.valid_key_length key = false ->
    Phobos.read_info file key_data = Raise ValueError) /\
   (CBC.valid_key_length key = true ->
    len eb = footer_size - Phobos.METADATA_SIZE /\
    Phobos.read_info file key_data =
      if magic_ok eb then
        do p <- unpack_L eb Phobos.ORIG_FILENAME_POS_POS;
        do found <- Phobos.find_name_end (range_count p (len eb) 2) p eb;
        match found with
        | None => Return None
        | Some i =>
          do text <- utf16_decode (slice eb p i);
          Return (Some {| Phobos.aes_key := key;
                          Phobos.aes_iv := container_iv file;
                          Phobos.footer_size := footer_size;
                          Phobos.padding_size := container_padding_size file;
                          Phobos.endblock_data := eb;
                          Phobos.enc_mode := endblock_mode eb;
                          Phobos.orig_filename := after_last 92 text |})
        end
      else Return None)).
Proof.
  intros Hlen Hfind. cbv zeta. unfold Phobos.read_info.
  replace (len file <? Phobos.METADATA_SIZE) with false by lia.
  fold (container_wrapped_key file). rewrite Hfind.
  unfold container_endblock, container_iv, container_padding_size,
    container_footer_size.
  set (metadata := read file (len file - Phobos.METADATA_SIZE) Phobos.METADATA_SIZE).
  assert (Hlm : len metadata = Phobos.METADATA_SIZE)
    by (apply len_read_inside; unfold Phobos.METADATA_SIZE in *; lia).
  set (footer_size := int_from_le (slice metadata Phobos.FOOTER_SIZE_POS _)).
  assert (Hfooter : unpack_L metadata Phobos.FOOTER_SIZE_POS = Return footer_size)
    by (unfold unpack_L; rewrite Hlm; reflexivity).
  assert (Hpadding :
    unpack_L metadata Phobos.PADDING_SIZE_POS
    = Return (int_from_le (slice metadata Phobos.PADDING_SIZE_POS
                                 (Phobos.PADDING_SIZE_POS + 4))))
    by (unfold unpack_L; rewrite Hlm; reflexivity).
  rewrite Hfooter, Hpadding. cbn [bind]. rewrite land_15.
  split.
  - intros Hbad.
    destruct (footer_size <=? Phobos.METADATA_SIZE) eqn:E1; [reflexivity|].
    destruct ((footer_size - Phobos.METADATA_SIZE) mod 16 =? 0) eqn:E2;
      [|reflexivity].
    cbn [negb]. replace (len file <? footer_size) with true by lia. reflexivity.
  - intros Hfs Haligned.
    replace (footer_size <=? Phobos.METADATA_SIZE) with false by lia.
    rewrite Haligned. cbn [Z.eqb negb].
    replace (len file <? footer_size) with false by lia.
    split; intros Hkey; unfold CBC.new; rewrite Hkey; [reflexivity|].
    cbn [negb].
    set (iv := slice metadata Phobos.AES_IV_POS _).
    assert (Hiv : len iv = 16).
    { unfold iv. rewrite len_slice by (unfold Phobos.AES_IV_POS, Phobos.AES_IV_SIZE; lia).
      rewrite Hlm. reflexivity. }
    rewrite Hiv. cbn [Z.eqb Pos.eqb negb bind].
    set (data := read file (len file - footer_size)
                      (footer_size - Phobos.METADATA_SIZE)).
    assert (HM : Phobos.METADATA_SIZE = 0xB2) by reflexivity.
    assert (Hdata : len data = footer_size - Phobos.METADATA_SIZE)
      by (apply len_read_inside; lia).
    unfold CBC.decrypt. cbn [CBC.ckey CBC.chain].
    rewrite Hdata, Haligned. cbn [Z.eqb negb].
    destruct (CbcFacts.decrypt_blocks_length
                (Z.to_nat ((footer_size - Phobos.METADATA_SIZE) / 16))
                key iv data) as [Hplain _].
    { unfold len in Hiv. lia. }
    { unfold len in Hdata. Z.div_mod_to_equations. lia. }
    destruct (CBC.decrypt_blocks _ key iv data) as [eb last].
    cbn [fst] in *. cbn [bind].
    assert (Heb : len eb = footer_size - Phobos.METADATA_SIZE).
    { unfold len. rewrite Hplain. Z.div_mod_to_equations. lia. }
    split; [exact Heb|].
    unfold unpack_2L.
    replace (Phobos.ENC_MODE_POS + 8 <=? len eb) with true
      by (unfold Phobos.ENC_MODE_POS; Z.div_mod_to_equations; lia).
    cbn [bind].
    change (int_from_le (slice eb Phobos.ENC_MODE_POS (Phobos.ENC_MODE_POS + 4)))
      with (endblock_mode eb).
    change (int_from_le (slice eb (Phobos.ENC_MODE_POS + 4)
                               (Phobos.ENC_MODE_POS + 8)))
      with (endblock_magic eb).
    rewrite magic_test. destruct (magic_ok eb); reflexivity.
Qed.

(** The single-chunk mode does not return [False]. *)
Lemma decrypt_single_result (file key iv : bytes) (footer_size padding_size : Z)
    (name : list Z) :
  Phobos.result (Phobos.decrypt_single file key iv footer_size padding_size name)
  <> Return false.
Proof.
  unfold Phobos.decrypt_single.
  destruct (place_of name); try (cbn; discriminate);
    (destruct (CBC.new key iv); [|cbn; discriminate..]);
    (destruct (Phobos.decrypt_stream _ _ _); [|cbn; discriminate..]);
    destruct (_ <? _); cbn; discriminate.
Qed.

(** The multiple-chunk mode returns [False] for one reason: the copy
    is made and the checksum does not match. *)
Lemma decrypt_chunks_false (file eb : bytes) (footer_size : Z) (name : list Z) :
  0x18 <= len eb ->
  Phobos.result (Phobos.decrypt_chunks file eb footer_size name) = Return false
  <-> place_of name = Fresh
      /\ endblock_crc eb
         <> crc32 (chunk_data_of eb (endblock_num_chunks eb)
                                 (endblock_chunk_size eb)).
Proof.
  intros Hlen. unfold Phobos.decrypt_chunks, unpack_3L.
  replace (0x0C + 12 <=? len eb) with true by lia.
  change (int_from_le (slice eb 0x0C (0x0C + 4))) with (endblock_num_chunks eb).
  change (int_from_le (slice eb (0x0C + 4) (0x0C + 8)))
    with (endblock_chunk_size eb).
  change (int_from_le (slice eb (0x0C + 8) (0x0C + 12))) with (endblock_crc eb).
  fold (chunk_data_of eb (endblock_num_chunks eb) (endblock_chunk_size eb)).
  destruct (place_of name).
  - destruct (endblock_crc eb =? crc32 _) eqn:E; cbn [negb].
    + apply Z.eqb_eq in E. split.
      * destruct (Phobos.write_chunks _ _ _ _ _ _) as [[[]|e|] f'];
          [destruct (_ <? _)|..]; cbn; discriminate.
      * intros [_ Hne]. contradiction.
    + apply Z.eqb_neq in E. cbn. split; [intros _; split|]; auto.
  - cbn. split; [discriminate | intros [? _]; discriminate].
  - cbn. split; [discriminate | intros [? _]; discriminate].
Qed.


(** The parsing of the metadata and of the key data, in the terms of
    the positions of their markers. *)
Lemma parse_layout_cases (md : bytes) :
  RCRU64.parse_layout md =
    if 0 <=? chunk_marker_pos md then
      if size_text_end md <? 0 then Return None
      else
        do chunk_size <- float_blocks (size_text md);
        if space_text_end md <? 0 then Return None
        else
          do chunk_space <- float_blocks (space_text md);
          if size_marker_pos md <? 0 then Return None
          else
            do enc_size <- int_of_bytes (size_digits md);
            Return (Some (RCRU64.ChunkEnc (slice_to md (chunk_marker_pos md))
                                          chunk_size chunk_space enc_size))
    else Return (Some (RCRU64.FullEnc md)).
Proof. reflexivity. Qed.

Lemma parse_keydata_cases (enc_keydata priv_key_data : bytes) :
  RCRU64.parse_keydata enc_keydata priv_key_data =
    match rsa_decrypt enc_keydata priv_key_data with
    | None => None
    | Some kd =>
      if find RCRU64.KEYDATA_MARKER1 kd 0 <? 0 then None
      else if key_end kd <? 0 then None
      else if nonce_end kd <? 0 then None
      else Some (slice kd (key_start kd) (key_end kd),
                 slice kd (key_end kd + len RCRU64.KEYDATA_MARKER2)
                       (nonce_end kd))
    end.
Proof. reflexivity. Qed.

(** C9 (amended). The engines answer [False] to what they test for
    themselves, and what the calls they make raise leaves them.

    [decrypt_file2] returns [False], and writes nothing, when the
    file is shorter than the metadata, when no entry of the keystore
    matches, when the footer size is not above the metadata size, is
    not a whole number of cipher blocks above it, or is beyond the
    file, when mode and magic number of the end block do not go
    together, and when no zero code unit ends the name at an even
    offset from its position.  Past these tests it is in one of its
    two modes, and then it returns [False] in one case only: the
    multiple-chunk mode has made its copy and the checksum of the
    chunk data does not match.  It raises [ValueError] from [AES.new]
    when the key of the matching entry is not 16, 24 or 32 bytes
    long, [struct.error] when the end block stops short of the
    position of the name, [IndexError] from the scan when that
    position is odd and inside the end block, no code unit ends the
    name and the last byte is zero, and [UnicodeDecodeError] (the
    only exception of the decoder) when the name does not decode.

    [decrypt_file] returns [False] when the file is shorter than the
    end tag or, without it, than the minimum of metadata, when the
    metadata marker or, behind the first marker of a chunk
    encryption, one of the other three is missing, when the key data
    cannot be unwrapped and when one of their three markers is
    missing; past these tests it does not return [False].  What the
    parsing of the chunk size and of the chunk space raises leaves
    it, and so does the [ValueError] of [int] (its only exception) on
    the text of the encrypted size. *)
Theorem checked_failures_return_false (file key_data : bytes) :
  (len file < Phobos.METADATA_SIZE ->
   Phobos.decrypt_file2 file key_data = Phobos.finish (Return false)) /\
  (Phobos.METADATA_SIZE <= len file ->
   match Phobos.find_key (container_wrapped_key file) key_data with
   | None =>
     Phobos.decrypt_file2 file key_data = Phobos.finish (Return false)
   | Some key =>
     let footer_size := container_footer_size file in
     let eb := container_endblock file key in
     let p := name_pos eb in
     (footer_size <= Phobos.METADATA_SIZE
      \/ (footer_size - Phobos.METADATA_SIZE) mod 16 <> 0
      \/ len file < footer_size ->
      Phobos.decrypt_file2 file key_data = Phobos.finish (Return false)) /\
     (Phobos.METADATA_SIZE < footer_size <= len file ->
      (footer_size - Phobos.METADATA_SIZE) mod 16 = 0 ->
      (CBC.valid_key_length key = false ->
       Phobos.decrypt_file2 file key_data = Phobos.finish (Raise ValueError)) /\
      (CBC.valid_key_length key = true ->
       len eb = footer_size - Phobos.METADATA_SIZE /\
       (magic_ok eb = false ->
        Phobos.decrypt_file2 file key_data = Phobos.finish (Return false)) /\
       (magic_ok eb = true ->
        (len eb < 0x1C ->
         Phobos.decrypt_file2 file key_data
         = Phobos.finish (Raise StructError)) /\
        (0x1C <= len eb ->
         ((forall k, 0 <= k -> ~ zero_unit eb (p + 2 * k)) ->
          (p < len eb /\ p mod 2 = 1
           /\ eb !! Z.to_nat (len eb - 1) = Some "000"%byte ->
           Phobos.decrypt_file2 file key_data
           = Phobos.finish (Raise IndexError)) /\
          (len eb <= p \/ p mod 2 = 0
           \/ eb !! Z.to_nat (len eb - 1) <> Some "000"%byte ->
           Phobos.decrypt_file2 file key_data
           = Phobos.finish (Return false))) /\
         (forall j,
            p <= j -> (j - p) mod 2 = 0 -> zero_unit eb j ->
            (forall k, 0 <= k -> p + 2 * k < j ->
                       ~ zero_unit eb (p + 2 * k)) ->
            match utf16_decode (slice eb p j) with
            | Raise e =>
              e = UnicodeDecodeError /\
              Phobos.decrypt_file2 file key_data
              = Phobos.finish (Raise UnicodeDecodeError)
            | OutOfFuel => False
            | Return text =>
              let name := after_last 92 text in
              Phobos.decrypt_file2 file key_data
              = (if endblock_mode eb =? 1
                 then Phobos.decrypt_chunks file eb footer_size name
                 else Phobos.decrypt_single file key (container_iv file)
                        footer_size (container_padding_size file) name) /\
              (Phobos.result (Phobos.decrypt_file2 file key_data)
               = Return false
               <-> endblock_mode eb = 1 /\ place_of name = Fresh
                   /\ endblock_crc eb
                      <> crc32 (chunk_data_of eb (endblock_num_chunks eb)
                                              (endblock_chunk_size eb)))
            end)))))
   end) /\
  forall (fuel : nat) (FAST_ENC_NONCE priv_key_data : bytes)
         (w : RCRU64.world),
    let run := RCRU64.decrypt_file fuel FAST_ENC_NONCE priv_key_data w in
    let w1 := {| RCRU64.file := stripped (RCRU64.file w);
                 RCRU64.calls := RCRU64.calls w |} in
    let window := metadata_window (RCRU64.file w1) in
    let pos := find RCRU64.METADATA_MARKER window 0 in
    let md := slice_from window (pos + len RCRU64.METADATA_MARKER) in
    let file_size :=
      len (RCRU64.file w1)
      - (Z.min (len (RCRU64.file w1)) RCRU64.MAX_METADATA_SIZE - pos) in
    let unwrapped (l : RCRU64.layout) :=
      match rsa_decrypt (RCRU64.enc_keydata_of l) priv_key_data with
      | None => run = (Return false, w1)
      | Some kd =>
        (find RCRU64.KEYDATA_MARKER1 kd 0 < 0 \/ key_end kd < 0
         \/ nonce_end kd < 0 ->
         run = (Return false, w1)) /\
        (0 <= find RCRU64.KEYDATA_MARKER1 kd 0 -> 0 <= key_end kd ->
         0 <= nonce_end kd ->
         run = RCRU64.decrypt_body fuel FAST_ENC_NONCE
                 (slice kd (key_start kd) (key_end kd))
                 (slice kd (key_end kd + len RCRU64.KEYDATA_MARKER2)
                        (nonce_end kd))
                 l file_size w1 /\
         fst run <> Return false)
      end in
    (len (RCRU64.file w) < len RCRU64.METADATA_MARKER2 ->
     run = (Return false, w)) /\
    (len RCRU64.METADATA_MARKER2 <= len (RCRU64.file w) ->
     (len (RCRU64.file w1) < RCRU64.MIN_METADATA_SIZE \/ pos < 0 ->
      run = (Return false, w1)) /\
     (RCRU64.MIN_METADATA_SIZE <= len (RCRU64.file w1) -> 0 <= pos ->
      (chunk_marker_pos md < 0 -> unwrapped (RCRU64.FullEnc md)) /\
      (0 <= chunk_marker_pos md ->
       (size_text_end md < 0 -> run = (Return false, w1)) /\
       (0 <= size_text_end md ->
        match float_blocks (size_text md) with
        | Raise e => run = (Raise e, w1)
        | OutOfFuel => run = (OutOfFuel, w1)
        | Return chunk_size =>
          (space_text_end md < 0 -> run = (Return false, w1)) /\
          (0 <= space_text_end md ->
           match float_blocks (space_text md) with
           | Raise e => run = (Raise e, w1)
           | OutOfFuel => run = (OutOfFuel, w1)
           | Return chunk_space =>
             (size_marker_pos md < 0 -> run = (Return false, w1)) /\
             (0 <= size_marker_pos md ->
              match int_of_bytes (size_digits md) with
              | Raise e => e = ValueError /\ run = (Raise ValueError, w1)
              | OutOfFuel => False
              | Return enc_size =>
                unwrapped (RCRU64.ChunkEnc (slice_to md (chunk_marker_pos md))
                             chunk_size chunk_space enc_size)
              end)
           end)
        end)))).
Proof.
  split; [apply decrypt_file2_short|]. split.
  - intros Hlen.
    destruct (Phobos.find_key _ key_data) as [key|] eqn:Hfind;
      [|apply KeyLookup.decrypt_file2_no_key, Hfind].
    destruct (read_info_endblock file key_data key Hlen Hfind) as [Hbad Hgood].
    cbv zeta in *. split.
    { intros Hb. unfold Phobos.decrypt_file2. rewrite (Hbad Hb). reflexivity. }
    intros Hfs Ha. destruct (Hgood Hfs Ha) as [Hkey Hvalid]. split.
    { intros Hk. unfold Phobos.decrypt_file2. rewrite (Hkey Hk). reflexivity. }
    intros Hk. destruct (Hvalid Hk) as [Heb Hinfo]. split; [exact Heb|].
    set (eb := container_endblock file key) in *.
    split.
    { intros Hm. unfold Phobos.decrypt_file2. rewrite Hinfo, Hm. reflexivity. }
    intros Hm. rewrite Hm in Hinfo. unfold unpack_L in Hinfo.
    assert (Hpos : Phobos.ORIG_FILENAME_POS_POS + 4 = 0x1C) by reflexivity.
    split.
    { intros Hshort.
      replace (Phobos.ORIG_FILENAME_POS_POS + 4 <=? len eb) with false in Hinfo
        by lia.
      unfold Phobos.decrypt_file2. rewrite Hinfo. reflexivity. }
    intros Hlong.
    replace (Phobos.ORIG_FILENAME_POS_POS + 4 <=? len eb) with true in Hinfo
      by lia.
    cbn [bind] in Hinfo.
    change (int_from_le (slice eb Phobos.ORIG_FILENAME_POS_POS
                               (Phobos.ORIG_FILENAME_POS_POS + 4)))
      with (name_pos eb) in Hinfo.
    set (p := name_pos eb) in *.
    assert (Hp : 0 <= p) by apply int_from_le_nonneg.
    assert (Heven : len eb mod 2 = 0)
      by (rewrite Heb; Z.div_mod_to_equations; lia).
    split.
    + intros Hnone. destruct (name_scan_none eb p Hp Hnone) as [Hraise Hfalse].
      split.
      * intros (Hin & Hodd & Hzero).
        rewrite Hraise in Hinfo
          by (split; [exact Hin|split; [Z.div_mod_to_equations; lia|exact Hzero]]).
        unfold Phobos.decrypt_file2. rewrite Hinfo. reflexivity.
      * intros Hwhy.
        rewrite Hfalse in Hinfo
          by (destruct Hwhy as [Hw|[Hw|Hw]];
              [left; exact Hw
              |right; left; Z.div_mod_to_equations; lia
              |right; right; exact Hw]).
        unfold Phobos.decrypt_file2. rewrite Hinfo. reflexivity.
    + intros j Hj Hmod Hz Hfirst.
      rewrite (name_scan_some eb p j Hp Hj Hmod Hz Hfirst) in Hinfo.
      cbn [bind] in Hinfo.
      destruct (utf16_decode_raises (slice eb p j)) as [Hfuel Hraise].
      destruct (utf16_decode (slice eb p j)) as [text|e|];
        cbn [bind] in Hinfo.
      * cbv zeta.
        assert (Hrun :
          Phobos.decrypt_file2 file key_data
          = if endblock_mode eb =? 1
            then Phobos.decrypt_chunks file eb (container_footer_size file)
                   (after_last 92 text)
            else Phobos.decrypt_single file key (container_iv file)
                   (container_footer_size file) (container_padding_size file)
                   (after_last 92 text))
          by (unfold Phobos.decrypt_file2; rewrite Hinfo; reflexivity).
        split; [exact Hrun|]. rewrite Hrun.
        destruct (endblock_mode eb =? 1) eqn:Em.
        -- apply Z.eqb_eq in Em. rewrite decrypt_chunks_false by lia. tauto.
        -- apply Z.eqb_neq in Em. split.
           ++ intros Hr. apply decrypt_single_result in Hr. contradiction.
           ++ intros [Hone _]. contradiction.
      * rewrite (Hraise e eq_refl) in *. split; [reflexivity|].
        unfold Phobos.decrypt_file2. rewrite Hinfo. reflexivity.
      * apply Hfuel. reflexivity.
  - intros fuel N priv w. cbv zeta. split.
    { intros Hshort. unfold RCRU64.decrypt_file.
      replace (len (RCRU64.file w) <? len RCRU64.METADATA_MARKER2) with true
        by lia. reflexivity. }
    intros Hlen. rewrite EndTag.decrypt_file_front by exact Hlen. cbv zeta.
    set (w1 := {| RCRU64.file := stripped (RCRU64.file w);
                  RCRU64.calls := RCRU64.calls w |}).
    set (pos := find RCRU64.METADATA_MARKER (metadata_window (RCRU64.file w1)) 0).
    set (md := slice_from (metadata_window (RCRU64.file w1))
                          (pos + len RCRU64.METADATA_MARKER)).
    set (file_size := len (RCRU64.file w1) - _).
    split.
    { intros [Hsmall|Hnone].
      - replace (len _ <? RCRU64.MIN_METADATA_SIZE) with true by lia.
        reflexivity.
      - destruct (len _ <? RCRU64.MIN_METADATA_SIZE); [reflexivity|].
        replace (pos <? 0) with true by lia. reflexivity. }
    intros Hbig Hpos.
    replace (len _ <? RCRU64.MIN_METADATA_SIZE) with false by lia.
    replace (pos <? 0) with false by lia.
    assert (Hkeyed : forall l : RCRU64.layout,
      match rsa_decrypt (RCRU64.enc_keydata_of l) priv with
      | None =>
        match RCRU64.parse_keydata (RCRU64.enc_keydata_of l) priv with
        | None => (Return false, w1)
        | Some (key, nonce) =>
          RCRU64.decrypt_body fuel N key nonce l file_size w1
        end = (Return false, w1)
      | Some kd =>
        (find RCRU64.KEYDATA_MARKER1 kd 0 < 0 \/ key_end kd < 0
         \/ nonce_end kd < 0 ->
         match RCRU64.parse_keydata (RCRU64.enc_keydata_of l) priv with
         | None => (Return false, w1)
         | Some (key, nonce) =>
           RCRU64.decrypt_body fuel N key nonce l file_size w1
         end = (Return false, w1)) /\
        (0 <= find RCRU64.KEYDATA_MARKER1 kd 0 -> 0 <= key_end kd ->
         0 <= nonce_end kd ->
         match RCRU64.parse_keydata (RCRU64.enc_keydata_of l) priv with
         | None => (Return false, w1)
         | Some (key, nonce) =>
           RCRU64.decrypt_body fuel N key nonce l file_size w1
         end
         = RCRU64.decrypt_body fuel N
             (slice kd (key_start kd) (key_end kd))
             (slice kd (key_end kd + len RCRU64.KEYDATA_MARKER2)
                    (nonce_end kd))
             l file_size w1 /\
         fst match RCRU64.parse_keydata (RCRU64.enc_keydata_of l) priv with
             | None => (Return false, w1)
             | Some (key, nonce) =>
               RCRU64.decrypt_body fuel N key nonce l file_size w1
             end <> Return false)
      end).
    { intros l. rewrite parse_keydata_cases.
      destruct (rsa_decrypt _ priv) as [kd|]; [|reflexivity]. split.
      - intros Hmiss.
        destruct (find RCRU64.KEYDATA_MARKER1 kd 0 <? 0) eqn:E1; [reflexivity|].
        destruct (key_end kd <? 0) eqn:E2; [reflexivity|].
        destruct (nonce_end kd <? 0) eqn:E3; [reflexivity|]. lia.
      - intros H1 H2 H3.
        replace (find RCRU64.KEYDATA_MARKER1 kd 0 <? 0) with false by lia.
        replace (key_end kd <? 0) with false by lia.
        replace (nonce_end kd <? 0) with false by lia.
        split; [reflexivity | apply EndTag.decrypt_body_result]. }
    rewrite parse_layout_cases. split.
    { intros Hfull. replace (0 <=? chunk_marker_pos md) with false by lia.
      apply Hkeyed. }
    intros Hchunk. replace (0 <=? chunk_marker_pos md) with true by lia.
    split.
    { intros Hno. replace (size_text_end md <? 0) with true by lia.
      reflexivity. }
    intros H2. replace (size_text_end md <? 0) with false by lia.
    destruct (float_blocks (size_text md)) as [chunk_size|e|]; cbn [bind];
      [|reflexivity..].
    split.
    { intros Hno. replace (space_text_end md <? 0) with true by lia.
      reflexivity. }
    intros H3. replace (space_text_end md <? 0) with false by lia.
    destruct (float_blocks (space_text md)) as [chunk_space|e|]; cbn [bind];
      [|reflexivity..].
    split.
    { intros Hno. replace (size_marker_pos md <? 0) with true by lia.
      reflexivity. }
    intros H4. replace (size_marker_pos md <? 0) with false by lia.
    destruct (int_of_bytes_raises (size_digits md)) as [Hfuel Hraise].
    destruct (int_of_bytes (size_digits md)) as [enc_size|e|]; cbn [bind].
    + apply Hkeyed.
    + rewrite (Hraise e eq_refl). split; reflexivity.
    + apply Hfuel. reflexivity.
Qed.

End Failures.

(** The sample containers under the stand-in cipher: their end
    blocks, and where the names in them end. *)
Lemma open_name_has_no_end (header : bytes) (j : Z) :
  length header = 32%nat -> 32 <= j ->
  ~ zero_unit (header ++ open_name) j.
Proof.
  intros Hh Hj [H1 H2]. rewrite lookup_app_r in H1, H2 by lia.
  replace (Z.to_nat (j + 1) - length header)%nat
    with (S (Z.to_nat j - length header)) in H2 by lia.
  revert H1 H2. generalize (Z.to_nat j - length header)%nat. intros n H1 H2.
  do 16 (destruct n as [|n]; [cbn in H1, H2; discriminate|]).
  cbn in H1. discriminate.
Qed.

Lemma unterminated_endblock :
  container_endblock (H := Toy.cipher) unterminated_container Toy.key
  = single_header 0x20 ++ open_name.
Proof. vm_compute. reflexivity. Qed.

Lemma odd_name_endblock :
  container_endblock (H := Toy.cipher) odd_name_container Toy.key
  = single_header 0x21 ++ open_name.
Proof. vm_compute. reflexivity. Qed.

Lemma open_name_scan (name_pos0 k : Z) :
  32 <= name_pos (single_header name_pos0 ++ open_name) -> 0 <= k ->
  ~ zero_unit (single_header name_pos0 ++ open_name)
      (name_pos (single_header name_pos0 ++ open_name) + 2 * k).
Proof.
  intros Hp Hk. apply open_name_has_no_end; [reflexivity | lia].
Qed.

(** In the container with the lone surrogate the name ends at
    [0x22], and in the container with the wrong checksum at [0x42]. *)
Lemma surrogate_name_end :
  let eb := container_endblock (H := Toy.cipher) surrogate_container Toy.key in
  forall k, 0 <= k -> name_pos eb + 2 * k < 0x22 ->
            ~ zero_unit eb (name_pos eb + 2 * k).
Proof.
  cbv zeta. intros k Hk.
  replace (name_pos _) with 0x20 by (vm_compute; reflexivity).
  intros Hlt. replace k with 0 by lia. intros [_ H2].
  vm_compute in H2. discriminate.
Qed.

Lemma bad_crc_name_end :
  let eb := container_endblock (H := Toy.cipher) bad_crc_container Toy.key in
  forall k, 0 <= k -> name_pos eb + 2 * k < 0x42 ->
            ~ zero_unit eb (name_pos eb + 2 * k).
Proof.
  cbv zeta. intros k Hk.
  replace (name_pos _) with 0x38 by (vm_compute; reflexivity).
  intros Hlt [H1 _].
  assert (Hcases : k = 0 \/ k = 1 \/ k = 2 \/ k = 3 \/ k = 4) by lia.
  destruct Hcases as [->|[->|[->|[->| ->]]]]; vm_compute in H1; discriminate.
Qed.

Ltac computed :=
  vm_compute;
  repeat match goal with |- _ /\ _ => split end;
  first [reflexivity | discriminate].

Ltac settle H v :=
  lazymatch type of H with
  | match ?x with _ => _ end =>
    let E := fresh in
    assert (E : x = v) by (vm_compute; reflexivity);
    rewrite E in H; clear E; cbv beta iota zeta in H
  end.

(** The two engines on the samples: the keystore and a file that is
    too short; the containers with the wrong magic number, the end
    block of 16 bytes, the name without an end, at an even and at an
    odd position, the lone surrogate and the wrong checksum; the
    keystore that is cut; and working files whose metadata have
    digits that are none, a chunk size that is no number, no second
    marker, and key data without markers. *)
Lemma checked_failures_return_false_witness :
  Phobos.decrypt_file2 (H := Toy.cipher) (D := Toy.directory)
    (b "short") Toy.keystore = Phobos.finish (Return false) /\
  Phobos.decrypt_file2 (H := Toy.cipher) (D := Toy.directory)
    wrong_magic_container Toy.keystore = Phobos.finish (Return false) /\
  Phobos.decrypt_file2 (H := Toy.cipher) (D := Toy.directory)
    headless_container Toy.keystore = Phobos.finish (Raise StructError) /\
  Phobos.decrypt_file2 (H := Toy.cipher) (D := Toy.directory)
    unterminated_container Toy.keystore = Phobos.finish (Return false) /\
  Phobos.decrypt_file2 (H := Toy.cipher) (D := Toy.directory)
    odd_name_container Toy.keystore = Phobos.finish (Raise IndexError) /\
  Phobos.decrypt_file2 (H := Toy.cipher) (D := Toy.directory)
    surrogate_container Toy.keystore
  = Phobos.finish (Raise UnicodeDecodeError) /\
  Phobos.result (Phobos.decrypt_file2 (H := Toy.cipher) (D := Toy.directory)
                   bad_crc_container Toy.keystore) = Return false /\
  Phobos.decrypt_file2 (H := Toy.cipher) (D := Toy.directory)
    plain_container truncated_keystore = Phobos.finish (Raise ValueError) /\
  RCRU64.decrypt_file (H := Toy.externals) 0 [] []
    (tagged_world (b "KDP7A1s1:2$f1;Fs1z3"))
  = (Raise ValueError, tagged_world (b "KDP7A1s1:2$f1;Fs1z3")) /\
  RCRU64.decrypt_file (H := Toy.externals) 0 [] []
    (tagged_world (b "KDP7A1sx:2$f1;Fs1z320"))
  = (Raise ValueError, tagged_world (b "KDP7A1sx:2$f1;Fs1z320")) /\
  RCRU64.decrypt_file (H := Toy.externals) 0 [] []
    (tagged_world (b "KDP7A1s1"))
  = (Return false, tagged_world (b "KDP7A1s1")) /\
  RCRU64.decrypt_file (H := Toy.externals) 0 [] [] (tagged_world (b "KD"))
  = (Return false, tagged_world (b "KD")).
Proof.
  repeat match goal with |- _ /\ _ => split end.
  - refine (proj1 (checked_failures_return_false (H := Toy.cipher)
                     (D := Toy.directory) (H0 := Toy.externals)
                     (b "short") Toy.keystore) _).
    computed.
  - pose proof (checked_failures_return_false (H := Toy.cipher)
                  (D := Toy.directory) (H0 := Toy.externals)
                  wrong_magic_container Toy.keystore) as (_ & Hc & _).
    specialize (Hc ltac:(computed)). settle Hc (Some Toy.key).
    destruct Hc as [_ Hc].
    specialize (Hc ltac:(computed) ltac:(computed)). destruct Hc as [_ Hc].
    specialize (Hc ltac:(computed)). destruct Hc as (_ & Hc & _).
    exact (Hc ltac:(computed)).
  - pose proof (checked_failures_return_false (H := Toy.cipher)
                  (D := Toy.directory) (H0 := Toy.externals)
                  headless_container Toy.keystore) as (_ & Hc & _).
    specialize (Hc ltac:(computed)). settle Hc (Some Toy.key).
    destruct Hc as [_ Hc].
    specialize (Hc ltac:(computed) ltac:(computed)). destruct Hc as [_ Hc].
    specialize (Hc ltac:(computed)). destruct Hc as (_ & _ & Hc).
    specialize (Hc ltac:(computed)). destruct Hc as [Hc _].
    exact (Hc ltac:(computed)).
  - pose proof (checked_failures_return_false (H := Toy.cipher)
                  (D := Toy.directory) (H0 := Toy.externals)
                  unterminated_container Toy.keystore) as (_ & Hc & _).
    specialize (Hc ltac:(computed)). settle Hc (Some Toy.key).
    destruct Hc as [_ Hc].
    specialize (Hc ltac:(computed) ltac:(computed)). destruct Hc as [_ Hc].
    specialize (Hc ltac:(computed)). destruct Hc as (_ & _ & Hc).
    specialize (Hc ltac:(computed)). destruct Hc as [_ Hc].
    specialize (Hc ltac:(computed)). destruct Hc as [Hc _].
    rewrite unterminated_endblock in Hc.
    destruct Hc as [_ Hc].
    { intros k. apply open_name_scan. computed. }
    apply Hc. right. left. computed.
  - pose proof (checked_failures_return_false (H := Toy.cipher)
                  (D := Toy.directory) (H0 := Toy.externals)
                  odd_name_container Toy.keystore) as (_ & Hc & _).
    specialize (Hc ltac:(computed)). settle Hc (Some Toy.key).
    destruct Hc as [_ Hc].
    specialize (Hc ltac:(computed) ltac:(computed)). destruct Hc as [_ Hc].
    specialize (Hc ltac:(computed)). destruct Hc as (_ & _ & Hc).
    specialize (Hc ltac:(computed)). destruct Hc as [_ Hc].
    specialize (Hc ltac:(computed)). destruct Hc as [Hc _].
    rewrite odd_name_endblock in Hc.
    destruct Hc as [Hc _].
    { intros k. apply open_name_scan. computed. }
    apply Hc. computed.
  - pose proof (checked_failures_return_false (H := Toy.cipher)
                  (D := Toy.directory) (H0 := Toy.externals)
                  surrogate_container Toy.keystore) as (_ & Hc & _).
    specialize (Hc ltac:(computed)). settle Hc (Some Toy.key).
    destruct Hc as [_ Hc].
    specialize (Hc ltac:(computed) ltac:(computed)). destruct Hc as [_ Hc].
    specialize (Hc ltac:(computed)). destruct Hc as (_ & _ & Hc).
    specialize (Hc ltac:(computed)). destruct Hc as [_ Hc].
    specialize (Hc ltac:(computed)). destruct Hc as [_ Hc].
    specialize (Hc 0x22 ltac:(computed) ltac:(computed) ltac:(computed)
                   surrogate_name_end).
    settle Hc (@Raise (list Z) UnicodeDecodeError).
    exact (proj2 Hc).
  - pose proof (checked_failures_return_false (H := Toy.cipher)
                  (D := Toy.directory) (H0 := Toy.externals)
                  bad_crc_container Toy.keystore) as (_ & Hc & _).
    specialize (Hc ltac:(computed)). settle Hc (Some Toy.key).
    destruct Hc as [_ Hc].
    specialize (Hc ltac:(computed) ltac:(computed)). destruct Hc as [_ Hc].
    specialize (Hc ltac:(computed)). destruct Hc as (_ & _ & Hc).
    specialize (Hc ltac:(computed)). destruct Hc as [_ Hc].
    specialize (Hc ltac:(computed)). destruct Hc as [_ Hc].
    specialize (Hc 0x42 ltac:(computed) ltac:(computed) ltac:(computed)
                   bad_crc_name_end).
    settle Hc (Return [97; 46; 116; 120; 116]).
    apply (proj2 Hc). computed.
  - pose proof (checked_failures_return_false (H := Toy.cipher)
                  (D := Toy.directory) (H0 := Toy.externals)
                  plain_container truncated_keystore) as (_ & Hc & _).
    specialize (Hc ltac:(computed)). settle Hc (@Some bytes []).
    destruct Hc as [_ Hc].
    specialize (Hc ltac:(computed) ltac:(computed)). destruct Hc as [Hc _].
    exact (Hc ltac:(computed)).
  - pose proof (checked_failures_return_false (H := Toy.cipher)
                  (D := Toy.directory) (H0 := Toy.externals) [] [])
      as (_ & _ & Hr).
    specialize (Hr 0%nat [] [] (tagged_world (b "KDP7A1s1:2$f1;Fs1z3"))).
    cbv zeta in Hr. destruct Hr as [_ Hr].
    specialize (Hr ltac:(computed)). destruct Hr as [_ Hr].
    specialize (Hr ltac:(computed) ltac:(computed)). destruct Hr as [_ Hr].
    specialize (Hr ltac:(computed)). destruct Hr as [_ Hr].
    specialize (Hr ltac:(computed)). settle Hr (Return 1).
    destruct Hr as [_ Hr].
    specialize (Hr ltac:(computed)). settle Hr (Return 2).
    destruct Hr as [_ Hr].
    specialize (Hr ltac:(computed)). settle Hr (@Raise Z ValueError).
    exact (proj2 Hr).
  - pose proof (checked_failures_return_false (H := Toy.cipher)
                  (D := Toy.directory) (H0 := Toy.externals) [] [])
      as (_ & _ & Hr).
    specialize (Hr 0%nat [] [] (tagged_world (b "KDP7A1sx:2$f1;Fs1z320"))).
    cbv zeta in Hr. destruct Hr as [_ Hr].
    specialize (Hr ltac:(computed)). destruct Hr as [_ Hr].
    specialize (Hr ltac:(computed) ltac:(computed)). destruct Hr as [_ Hr].
    specialize (Hr ltac:(computed)). destruct Hr as [_ Hr].
    specialize (Hr ltac:(computed)). settle Hr (@Raise Z ValueError).
    exact Hr.
  - pose proof (checked_failures_return_false (H := Toy.cipher)
                  (D := Toy.directory) (H0 := Toy.externals) [] [])
      as (_ & _ & Hr).
    specialize (Hr 0%nat [] [] (tagged_world (b "KDP7A1s1"))).
    cbv zeta in Hr. destruct Hr as [_ Hr].
    specialize (Hr ltac:(computed)). destruct Hr as [_ Hr].
    specialize (Hr ltac:(computed) ltac:(computed)). destruct Hr as [_ Hr].
    specialize (Hr ltac:(computed)). destruct Hr as [Hr _].
    exact (Hr ltac:(computed)).
  - pose proof (checked_failures_return_false (H := Toy.cipher)
                  (D := Toy.directory) (H0 := Toy.externals) [] [])
      as (_ & _ & Hr).
    specialize (Hr 0%nat [] [] (tagged_world (b "KD"))).
    cbv zeta in Hr. destruct Hr as [_ Hr].
    specialize (Hr ltac:(computed)). destruct Hr as [_ Hr].
    specialize (Hr ltac:(computed) ltac:(computed)). destruct Hr as [Hr _].
    specialize (Hr ltac:(computed)). cbv beta in Hr.
    settle Hr (Some (slice_from (b "KD" ++ replicate 240 "."%byte) 0)).
    destruct Hr as [Hr _]. apply Hr. left. computed.
Defined.

(** A keystore that is cut after the wrapped key of its only entry:
    the key that the search returns is empty, [AES.new] refuses it,
    and the [ValueError] leaves [decrypt_file2], and the script,
    whatever the block cipher and the directory are. *)
Lemma truncated_entry_counterexample :
  Phobos.find_key (container_wrapped_key plain_container)
                  truncated_keystore = Some [] /\
  (forall (C : BlockCipher) (D : Directory),
     Phobos.result (Phobos.decrypt_file2 (H := C) (D := D) plain_container
                                         truncated_keystore)
     = Raise ValueError) /\
  (forall (C : BlockCipher) (D : Directory),
     Phobos.main (H := C) (D := D) truncated_key_file plain_container
     = (Raise ValueError, None)).
Proof.
  split; [vm_compute; reflexivity|].
  split; intros C D; vm_compute; reflexivity.
Qed.

End Failures.

(** * Further properties of the two scripts *)

(** ** RCRU64: runs that fail *)

Module FailedRuns.
Import RCRU64 Rcru64Spec Steps Samples.

Lemma io_bind_raise {A B} (m : io A) (k : A -> io B) (w w' : world) (e : exn) :
  m w = (Raise e, w') -> io_bind m k w = (Raise e, w').
Proof. unfold io_bind. intros ->. reflexivity. Qed.

(** The search for the tag finds it at the end of the file, and cuts
    it off, or leaves the file as it is. *)
Lemma stripped_cases (f : bytes) :
  stripped f = f
  \/ exists body, f = body ++ METADATA_MARKER2 /\ stripped f = body.
Proof.
  unfold stripped.
  destruct (bytes_eqb _ METADATA_MARKER2) eqn:E; [right|left; reflexivity].
  apply bytes_eqb_eq in E.
  assert (Hlen : len METADATA_MARKER2 <= len f).
  { apply (f_equal len) in E. unfold read, len in *.
    rewrite length_take, length_drop in E. lia. }
  set (n := len f - len METADATA_MARKER2) in *.
  assert (Hf : f = take (Z.to_nat n) f ++ METADATA_MARKER2).
  { rewrite <- E. unfold read.
    rewrite (take_ge (drop _ f))
      by (rewrite length_drop; unfold n, len in *; lia).
    symmetry. apply take_drop. }
  exists (take (Z.to_nat n) f). split; [exact Hf|].
  unfold truncate.
  replace (Z.to_nat n - length f)%nat with 0%nat by (unfold n, len in *; lia).
  apply app_nil_r.
Qed.

Section FailedRuns.
Context `{Externals}.

(** Every [return False] of [decrypt_file] comes before its first
    write: a run that returns [False] leaves the working file as it
    was, but for the tag at its end, which is gone when it was
    there. *)
Theorem false_run_writes_nothing
    (fuel : nat) (FAST_ENC_NONCE priv_key_data : bytes) (w : world) :
  fst (decrypt_file fuel FAST_ENC_NONCE priv_key_data w) = Return false ->
  snd (decrypt_file fuel FAST_ENC_NONCE priv_key_data w)
    = {| file := stripped (file w); calls := calls w |} /\
  (stripped (file w) = file w
   \/ exists body,
        file w = body ++ METADATA_MARKER2 /\ stripped (file w) = body).
Proof.
  intros Hfalse. split; [|apply stripped_cases].
  destruct (Z_lt_ge_dec (len (file w)) (len METADATA_MARKER2)) as [Hshort|Hlong].
  - unfold decrypt_file.
    replace (len (file w) <? len METADATA_MARKER2) with true by lia.
    cbn [snd]. unfold stripped.
    destruct (bytes_eqb _ METADATA_MARKER2) eqn:E; [|destruct w; reflexivity].
    apply bytes_eqb_eq in E. apply (f_equal len) in E.
    change (len METADATA_MARKER2) with 6 in *.
    unfold read, len in *. rewrite length_take, length_drop in E. lia.
  - revert Hfalse. rewrite EndTag.decrypt_file_front by lia. cbv zeta.
    destruct (len _ <? MIN_METADATA_SIZE); [reflexivity|].
    destruct (find METADATA_MARKER _ 0 <? 0); [reflexivity|].
    destruct (parse_layout _) as [[l|]|e|]; try reflexivity; try discriminate.
    destruct (parse_keydata _ _) as [[key nonce]|]; [|reflexivity].
    intros Hr. apply EndTag.decrypt_body_result in Hr. contradiction.
Qed.

(** With a key that is not 16, 24 or 32 bytes long, whatever the
    layout: when the first read asks for a size that fits a signed
    64-bit integer, the run ends with [ValueError], of the first
    [AES.new] or, for a size below [-1], of the read before it; when
    it asks for a size that does not fit, the run ends with the
    [OverflowError] of the read.  Nothing has been written. *)
Theorem bad_key_writes_nothing
    (fuel : nat) (FAST_ENC_NONCE key nonce : bytes) (l : layout)
    (file_size : Z) (w : world) :
  CBC.valid_key_length key = false ->
  (- 2 ^ 63 <= first_read l file_size ->
   first_read l file_size < 2 ^ 63 \/ first_read l file_size <= len (file w) ->
   decrypt_body fuel FAST_ENC_NONCE key nonce l file_size w
   = (Raise ValueError, w)) /\
  (first_read l file_size < - 2 ^ 63
   \/ 2 ^ 63 <= first_read l file_size /\ len (file w) < first_read l file_size ->
   decrypt_body fuel FAST_ENC_NONCE key nonce l file_size w
   = (Raise OverflowError, w)).
Proof.
  intros Hkey.
  assert (Hfirst : forall (n : Z) (nc : bytes) (k : bytes -> io Z),
    (- 2 ^ 63 <= n -> n < 2 ^ 63 \/ n <= len (file w) ->
     (io! enc_data <- f_read 0 n; io! data <- gcm key nc enc_data; k data) w
     = (Raise ValueError, w)) /\
    (n < - 2 ^ 63 \/ 2 ^ 63 <= n /\ len (file w) < n ->
     (io! enc_data <- f_read 0 n; io! data <- gcm key nc enc_data; k data) w
     = (Raise OverflowError, w))).
  { intros n nc k. pose proof (len_nonneg (file w)) as Hl.
    unfold io_bind at 1 3, f_read.
    rewrite (fits_inside (file w) 0) by lia. cbn [negb].
    replace (0 <? 0) with false by reflexivity. split; [intros Hlo Hn|intros Hn].
    - replace (fits (file w) n) with true by (unfold fits; lia). cbn [negb].
      destruct (n <? -1); [reflexivity|].
      destruct (n =? -1); unfold io_bind, gcm; rewrite Hkey; reflexivity.
    - replace (fits (file w) n) with false by (unfold fits; lia).
      reflexivity. }
  assert (Hbody : forall (n : Z) (nc : bytes) (k : bytes -> io Z) (e : exn),
    (io! enc_data <- f_read 0 n; io! data <- gcm key nc enc_data; k data) w
    = (Raise e, w) ->
    then_remove_footer
      (io! enc_data <- f_read 0 n; io! data <- gcm key nc enc_data; k data) w
    = (Raise e, w)).
  { intros n nc k e Hrun. unfold then_remove_footer.
    apply io_bind_raise. exact Hrun. }
  unfold decrypt_body, first_read.
  destruct l as [kd cs sp es|kd]; [|destruct (select_full_mode file_size)];
    (split; [intros Hlo Hn|intros Hn]; apply Hbody; apply Hfirst; assumption).
Qed.

(** When [FAST_ENC_NONCE] is empty, a big file has its head decrypted
    in place before the second [AES.new] raises [ValueError]: the run
    ends with the head patched, the tail as it was and the footer
    still there. *)
Theorem empty_fast_nonce_leaves_head_patched
    (fuel : nat) (key nonce enc_keydata : bytes) (enc_size : Z) (w : world) :
  CBC.valid_key_length key = true ->
  slice_to nonce FAST_ENC_NONCE_SIZE <> [] ->
  MIN_BIG_FILE_SIZE <= enc_size <= len (file w) ->
  let head_size := Z.min enc_size (FIRST_ENC_BLOCK_SIZE - AES_BLOCK_SIZE) in
  let head :=
    gcm_decrypt key (slice_to nonce FAST_ENC_NONCE_SIZE)
                (read (file w) 0 head_size) in
  decrypt_body fuel [] key nonce (FullEnc enc_keydata) enc_size w
    = (Raise ValueError,
       {| file := write (file w) 0 head;
          calls := calls w
            ++ [{| call_nonce := slice_to nonce FAST_ENC_NONCE_SIZE;
                   call_length := len (read (file w) 0 head_size) |}] |}) /\
  len (write (file w) 0 head) = len (file w).
Proof.
  intros Hkey Hnonce Hsize. cbv zeta.
  assert (Hbig : MIN_BIG_FILE_SIZE = 2048000) by reflexivity.
  assert (Hfirst : FIRST_ENC_BLOCK_SIZE - AES_BLOCK_SIZE = 184984) by reflexivity.
  assert (Hblock : ENC_BLOCK_SIZE = 512000) by reflexivity.
  assert (Haes : AES_BLOCK_SIZE = 16) by reflexivity.
  split.
  - unfold decrypt_body, then_remove_footer.
    replace (select_full_mode enc_size) with FastBigFile
      by (unfold select_full_mode;
          replace (enc_size <? MIN_BIG_FILE_SIZE) with false by lia;
          reflexivity).
    apply io_bind_raise. unfold decrypt_fast_big_file.
    erewrite io_bind_return by (apply f_read_ok; inside).
    erewrite io_bind_return by (apply gcm_ok; assumption).
    erewrite io_bind_return by (apply f_write_ok; inside).
    cbn [file calls].
    erewrite io_bind_return by (apply f_read_ok; inside).
    apply io_bind_raise. unfold gcm. rewrite Hkey. reflexivity.
  - apply len_write_inside; [lia|].
    rewrite len_gcm_decrypt, len_read_inside; lia.
Qed.

End FailedRuns.

Lemma false_run_writes_nothing_witness :
  snd (decrypt_file (H := Toy.externals) 0 [] []
         {| file := b "0123456789"; calls := [] |})
  = {| file := b "0123456789"; calls := [] |}.
Proof.
  apply (false_run_writes_nothing (H := Toy.externals) 0 [] []
           {| file := b "0123456789"; calls := [] |}).
  reflexivity.
Defined.

Lemma bad_key_writes_nothing_witness :
  decrypt_body (H := Toy.externals) 0 [] (b "short key") (b "nonce")
               (ChunkEnc [] 4 4 20) 20 chunked_world
  = (Raise ValueError, chunked_world) /\
  decrypt_body (H := Toy.externals) 0 [] (b "short key") (b "nonce")
               (ChunkEnc [] (-10240000000000000000) 4 20) 20 chunked_world
  = (Raise OverflowError, chunked_world).
Proof.
  split.
  - apply (bad_key_writes_nothing (H := Toy.externals));
      [reflexivity | vm_compute; discriminate | left; vm_compute; reflexivity].
  - apply (bad_key_writes_nothing (H := Toy.externals));
      [reflexivity | left; vm_compute; reflexivity].
Defined.

Lemma empty_fast_nonce_leaves_head_patched_witness :
  fst (decrypt_body (H := Toy.externals) 0 [] Toy.key (b "nonce")
                    (FullEnc []) 2048000 big_world)
  = Raise ValueError.
Proof.
  pose proof (empty_fast_nonce_leaves_head_patched (H := Toy.externals) 0
                Toy.key (b "nonce") [] 2048000 big_world) as Hrun.
  cbv zeta in Hrun. destruct Hrun as [Hrun _].
  - reflexivity.
  - discriminate.
  - unfold big_world, MIN_BIG_FILE_SIZE, len. cbn [file].
    rewrite length_replicate. lia.
  - rewrite Hrun. reflexivity.
Defined.

End FailedRuns.

(** ** RCRU64: what the chunk loop leaves in the file *)

Module ChunkContent.
Import RCRU64 Rcru64Spec Steps Samples.

Lemma write_lookup_far (f : bytes) (pos : Z) (data : bytes) (k : nat) :
  0 <= pos -> pos + len data <= len f ->
  (Z.of_nat k < pos \/ pos + len data <= Z.of_nat k) ->
  write f pos data !! k = f !! k.
Proof.
  intros Hpos Hin Hout.
  destruct (decide (k < length f)%nat) as [Hk|Hk].
  - apply write_lookup_outside; assumption.
  - rewrite (lookup_ge_None_2 f) by lia. apply lookup_ge_None_2.
    pose proof (len_write_inside f pos data Hpos Hin) as Hl.
    unfold len in Hl. lia.
Qed.

Lemma read_ext (f g : bytes) (pos n : Z) :
  0 <= pos ->
  (forall k : nat, pos <= Z.of_nat k < pos + n -> f !! k = g !! k) ->
  read f pos n = read g pos n.
Proof.
  intros Hpos Hsame. apply list_eq; intros j. rewrite !read_lookup.
  destruct (decide (j < Z.to_nat n)%nat); [|reflexivity].
  apply Hsame. lia.
Qed.

Section ChunkContent.
Context `{Externals}.

(** The loop entered at [pos] with the state [st]: chunk [j] from
    there, at [pos + j * chunk_step], is decrypted under the nonce of
    step [j + 1], from what the file held there; the bytes outside the
    chunks are what they were. *)
Lemma next_chunks_content (fuel : nat) :
  forall (key : bytes) (enc_size chunk_size chunk_step pos : Z)
         (st : bytes) (w : world),
  CBC.valid_key_length key = true ->
  0 < chunk_size <= chunk_step -> 0 <= pos ->
  enc_size <= len (file w) ->
  (range_count pos enc_size chunk_step <= fuel)%nat ->
  exists w',
    decrypt_next_chunks fuel key enc_size chunk_size chunk_step pos st w
      = (Return tt, w') /\
    len (file w') = len (file w) /\
    (forall j : nat, (j < range_count pos enc_size chunk_step)%nat ->
       let p := pos + Z.of_nat j * chunk_step in
       let n := Z.min (enc_size - p) chunk_size in
       read (file w') p n
       = gcm_decrypt key (nonce_from st (S j))
                     (read (file w) p n)) /\
    (forall k : nat,
       (forall j : nat, (j < range_count pos enc_size chunk_step)%nat ->
          let p := pos + Z.of_nat j * chunk_step in
          Z.of_nat k < p \/ p + Z.min (enc_size - p) chunk_size <= Z.of_nat k) ->
       file w' !! k = file w !! k).
Proof.
  induction fuel as [|fuel IH]; intros key es cs step pos st w
    Hkey Hcs Hpos Hes Hfuel; cbn [decrypt_next_chunks];
    destruct (pos <? es) eqn:Hmore.
  - rewrite NonceSequence.range_count_next in Hfuel by lia. lia.
  - exists w. rewrite NonceSequence.range_count_done by lia.
    split; [reflexivity|]. split; [reflexivity|].
    split; [intros j Hj; lia | intros k _; reflexivity].
  - rewrite NonceSequence.range_count_next in * by lia.
    set (n := Z.min (es - pos) cs).
    erewrite io_bind_return by (apply f_read_ok; inside).
    assert (Hln : len (read (file w) pos n) = n)
      by (apply len_read_inside; lia).
    destruct (read (file w) pos n) as [|x enc_data] eqn:Hread;
      [unfold len in Hln; simpl in Hln; lia|].
    rewrite <- Hread in *. clear Hread x enc_data.
    set (st' := rnd64data st).
    erewrite io_bind_return; cycle 1.
    { apply gcm_ok; [exact Hkey|].
      intros E. apply (f_equal (@length byte)) in E.
      rewrite length_app in E. unfold st' in E.
      rewrite NonceSequence.length_rnd64data in E. simpl in E. lia. }
    erewrite io_bind_return by (apply f_write_ok; inside).
    cbn [file calls].
    set (d := gcm_decrypt key (st' ++ slice_from st' 4) (read (file w) pos n)).
    assert (Hld : len d = n) by (unfold d; rewrite len_gcm_decrypt; exact Hln).
    match goal with
    | |- context [decrypt_next_chunks fuel key es cs step ?p st' ?x] =>
      set (w1 := x);
      destruct (IH key es cs step p st' w1)
        as (w' & Hrun & Hlen & Hcontent & Hframe);
        try assumption; try lia
    end.
    { unfold w1. cbn [file]. rewrite len_write_inside; lia. }
    assert (Hl1 : len (file w1) = len (file w))
      by (unfold w1; cbn [file]; apply len_write_inside; lia).
    exists w'. split; [exact Hrun|]. split; [lia|]. split.
    + intros [|j] Hj; cbv zeta.
      * replace (pos + Z.of_nat 0 * step) with pos by lia. fold n.
        transitivity (read (file w1) pos n).
        { apply read_ext; [lia|]. intros k Hk. apply Hframe.
          intros j' Hj'. cbv zeta. left. nia. }
        unfold w1. cbn [file]. rewrite <- Hld at 1. apply read_write_same.
      * specialize (Hcontent j ltac:(lia)). cbv zeta in Hcontent.
        replace (pos + Z.of_nat (S j) * step)
          with (pos + step + Z.of_nat j * step) by lia.
        rewrite Hcontent. unfold st'.
        rewrite NonceSequence.nonce_from_succ. f_equal.
        apply read_ext; [nia|]. intros k Hk. unfold w1. cbn [file].
        apply write_lookup_far; [lia | lia | right; nia].
    + intros k Hout. rewrite Hframe.
      * unfold w1. cbn [file]. apply write_lookup_far; [lia | lia |].
        specialize (Hout 0%nat ltac:(lia)). cbv zeta in Hout.
        replace (pos + Z.of_nat 0 * step) with pos in Hout by lia.
        fold n in Hout. lia.
      * intros j Hj. specialize (Hout (S j) ltac:(lia)). cbv zeta in *.
        replace (pos + Z.of_nat (S j) * step)
          with (pos + step + Z.of_nat j * step) in Hout by lia.
        exact Hout.
  - exists w. rewrite NonceSequence.range_count_done by lia.
    split; [reflexivity|]. split; [reflexivity|].
    split; [intros j Hj; lia | intros k _; reflexivity].
Qed.

(** The first chunk and the loop after it, as three of the modes run
    them (lines 261-293 and 357-388). *)
Lemma first_then_next_content (fuel : nat) (key nonce : bytes)
    (size enc_size chunk_size chunk_step : Z) (w : world) :
  CBC.valid_key_length key = true ->
  slice_to nonce size <> [] ->
  0 < chunk_size <= chunk_step ->
  0 <= enc_size <= len (file w) ->
  (range_count chunk_step enc_size chunk_step <= fuel)%nat ->
  exists w',
    (forall (A : Type) (k : unit -> io A),
       (io! enc_data <- f_read 0 (Z.min enc_size chunk_size);
        io! data <- gcm key (slice_to nonce size) enc_data;
        io! _ <- f_write 0 data;
        io! u <- decrypt_next_chunks fuel key enc_size chunk_size chunk_step
                                     chunk_step RND64_INIT_STATE_DATA;
        k u) w
       = k tt w') /\
    len (file w') = len (file w) /\
    (forall j : nat,
       (j < S (range_count chunk_step enc_size chunk_step))%nat ->
       let p := Z.of_nat j * chunk_step in
       let n := Z.min (enc_size - p) chunk_size in
       read (file w') p n
       = gcm_decrypt key (nonce_of_chunk nonce size j) (read (file w) p n)) /\
    (forall k : nat,
       (forall j : nat,
          (j < S (range_count chunk_step enc_size chunk_step))%nat ->
          let p := Z.of_nat j * chunk_step in
          Z.of_nat k < p \/ p + Z.min (enc_size - p) chunk_size <= Z.of_nat k) ->
       file w' !! k = file w !! k).
Proof.
  intros Hkey Hnonce Hcs Hes Hfuel.
  set (n0 := Z.min enc_size chunk_size).
  set (d := gcm_decrypt key (slice_to nonce size) (read (file w) 0 n0)).
  set (w1 := {| file := write (file w) 0 d;
                calls := calls w
                  ++ [{| call_nonce := slice_to nonce size;
                         call_length := len (read (file w) 0 n0) |}] |}).
  assert (Hld : len d = n0)
    by (unfold d; rewrite len_gcm_decrypt; apply len_read_inside; lia).
  assert (Hl1 : len (file w1) = len (file w))
    by (unfold w1; cbn [file]; apply len_write_inside; lia).
  destruct (next_chunks_content fuel key enc_size chunk_size chunk_step
              chunk_step RND64_INIT_STATE_DATA w1)
    as (w' & Hrun & Hlen & Hcontent & Hframe); try assumption; try lia.
  exists w'. split; [|split; [lia|split]].
  - intros A k.
    erewrite io_bind_return by (apply f_read_ok; inside).
    erewrite io_bind_return by (apply gcm_ok; assumption).
    erewrite io_bind_return by (apply f_write_ok; inside).
    cbn [file calls]. fold n0 d w1.
    erewrite io_bind_return by exact Hrun. reflexivity.
  - intros [|j] Hj; cbv zeta.
    + replace (Z.of_nat 0 * chunk_step) with 0 by lia.
      replace (enc_size - 0) with enc_size by lia. fold n0.
      transitivity (read (file w1) 0 n0).
      { apply read_ext; [lia|]. intros k Hk. apply Hframe.
        intros j' Hj'. cbv zeta. left. nia. }
      unfold w1. cbn [file]. rewrite <- Hld at 1. apply read_write_same.
    + specialize (Hcontent j ltac:(lia)). cbv zeta in Hcontent.
      replace (Z.of_nat (S j) * chunk_step)
        with (chunk_step + Z.of_nat j * chunk_step) by lia.
      rewrite Hcontent. f_equal.
      apply read_ext; [nia|]. intros k Hk. unfold w1. cbn [file].
      apply write_lookup_far; [lia | lia | right; nia].
  - intros k Hout. rewrite Hframe.
    + unfold w1. cbn [file]. apply write_lookup_far; [lia | lia |].
      specialize (Hout 0%nat ltac:(lia)). cbv zeta in Hout.
      replace (Z.of_nat 0 * chunk_step) with 0 in Hout by lia.
      replace (enc_size - 0) with enc_size in Hout by lia.
      fold n0 in Hout. lia.
    + intros j Hj. specialize (Hout (S j) ltac:(lia)). cbv zeta in *.
      replace (Z.of_nat (S j) * chunk_step)
        with (chunk_step + Z.of_nat j * chunk_step) in Hout by lia.
      exact Hout.
Qed.

(** In the chunk mode, on a container with a key and a nonce that the
    cipher accepts, chunks that have a size, a spacing that is not
    negative and an encrypted size within the file: the run ends;
    chunk [j], the [chunk_size] bytes from [j * (chunk_size +
    chunk_space)] or what of them lies below [enc_size], is the GCM
    decryption of what the file held there, under the nonce of the key
    data for the first chunk and under the nonce of step [j] of the
    sequencer for the others; every byte outside the chunks is
    unchanged, and so is the length of the file. *)
Theorem chunk_mode_decrypts_chunks
    (fuel : nat) (key nonce : bytes)
    (chunk_size chunk_space enc_size file_size : Z) (w : world) :
  CBC.valid_key_length key = true ->
  slice_to nonce CHUNK_ENC_NONCE_SIZE <> [] ->
  0 < chunk_size -> 0 <= chunk_space ->
  0 <= enc_size <= len (file w) ->
  let chunk_step := chunk_size + chunk_space in
  let chunks := S (range_count chunk_step enc_size chunk_step) in
  (range_count chunk_step enc_size chunk_step <= fuel)%nat ->
  exists w',
    decrypt_chunk_enc fuel key nonce chunk_size chunk_space enc_size
                      file_size w
      = (Return file_size, w') /\
    len (file w') = len (file w) /\
    (forall j : nat, (j < chunks)%nat ->
       let p := Z.of_nat j * chunk_step in
       let n := Z.min (enc_size - p) chunk_size in
       read (file w') p n
       = gcm_decrypt key (nonce_of_chunk nonce CHUNK_ENC_NONCE_SIZE j)
                     (read (file w) p n)) /\
    (forall k : nat,
       (forall j : nat, (j < chunks)%nat ->
          let p := Z.of_nat j * chunk_step in
          Z.of_nat k < p \/ p + Z.min (enc_size - p) chunk_size <= Z.of_nat k) ->
       file w' !! k = file w !! k).
Proof.
  intros Hkey Hnonce Hcs Hsp Hes. cbv zeta. intros Hfuel.
  destruct (first_then_next_content fuel key nonce CHUNK_ENC_NONCE_SIZE
              enc_size chunk_size (chunk_size + chunk_space) w)
    as (w' & Hrun & Hrest); try assumption; try lia.
  exists w'. split; [|exact Hrest].
  unfold decrypt_chunk_enc. cbv zeta. rewrite Hrun. reflexivity.
Qed.

Lemma starts_with_length (sub l : bytes) :
  starts_with sub l = true -> (length sub <= length l)%nat.
Proof.
  revert l; induction sub as [|x sub IH]; intros [|y l]; simpl;
    try discriminate; try lia.
  intros E. apply andb_true_iff in E as [_ E]. apply IH in E. lia.
Qed.

Lemma starts_with_same_length (sub l : bytes) :
  length sub = length l -> (starts_with sub l = true <-> l = sub).
Proof.
  revert l; induction sub as [|x sub IH]; intros [|y l]; simpl;
    try discriminate; [tauto|].
  intros [= Hl]. rewrite andb_true_iff, byte_eqb_eq, (IH l Hl).
  split; [intros [-> ->]; reflexivity | intros [= -> ->]; auto].
Qed.

(** The end marker of a small file of some blocks is looked for in
    the 16 bytes before [file_size]: the size is cut by 16 when they
    are the marker, and is kept otherwise. *)
Lemma cut_end_marker1 (data : bytes) (file_size : Z) :
  len data = 16 ->
  cut_end_marker [SMALL_FILE_END_MARKER1] data 16 file_size
  = if bytes_eqb data SMALL_FILE_END_MARKER1 then file_size - 16
    else file_size.
Proof.
  intros Hl. unfold cut_end_marker, find.
  replace (len data <? 0) with false by lia.
  change (drop (Z.to_nat 0) data) with data.
  assert (Hsame : starts_with SMALL_FILE_END_MARKER1 data = true
                  <-> data = SMALL_FILE_END_MARKER1)
    by (apply starts_with_same_length; unfold len in Hl; simpl; lia).
  destruct data as [|x data]; [discriminate Hl|].
  cbn [find_rel].
  destruct (starts_with SMALL_FILE_END_MARKER1 (x :: data)) eqn:E.
  - replace (bytes_eqb (x :: data) SMALL_FILE_END_MARKER1) with true
      by (symmetry; apply bytes_eqb_eq, Hsame; reflexivity).
    reflexivity.
  - replace (bytes_eqb (x :: data) SMALL_FILE_END_MARKER1) with false;
      cycle 1.
    { symmetry. apply bytes_eqb_neq. intros Heq. apply Hsame in Heq.
      congruence. }
    destruct (find_rel SMALL_FILE_END_MARKER1 data) as [k|] eqn:Hk;
      [|reflexivity].
    exfalso.
    assert (Hfound : forall (l : bytes) (k : nat),
      find_rel SMALL_FILE_END_MARKER1 l = Some k ->
      (16 <= length l)%nat).
    { clear. induction l as [|y l IH]; intros k; cbn [find_rel].
      - destruct (starts_with _ []) eqn:E; [|discriminate].
        apply starts_with_length in E. simpl in E. lia.
      - destruct (starts_with _ (y :: l)) eqn:E.
        + intros _. apply starts_with_length in E. exact E.
        + destruct (find_rel _ l) as [k'|]; [|discriminate].
          intros _. specialize (IH k' eq_refl). simpl. lia. }
    apply Hfound in Hk. unfold len in Hl. simpl in Hl. lia.
Qed.

(** A small file of some blocks, with a key and a nonce that the
    cipher accepts: three turns of the loop are enough; block [j], the
    [ENC_BLOCK_SIZE] bytes from [j * ENC_BLOCK_SIZE] or what of them
    lies below [file_size - 2], is the GCM decryption of what the file
    held there, under the nonce of the key data for the first block
    and under the nonce of step [j] of the sequencer for the others;
    the bytes after them are unchanged; the size that is returned is
    16 less when the 16 bytes before [file_size] are then the end
    marker, and [file_size] otherwise. *)
Theorem small_file_decrypts_blocks
    (fuel : nat) (key nonce : bytes) (file_size : Z) (w : world) :
  CBC.valid_key_length key = true ->
  slice_to nonce FULL_ENC_NONCE_SIZE1 <> [] ->
  ENC_BLOCK_SIZE < file_size < MIN_BIG_FILE_SIZE ->
  file_size <= len (file w) ->
  (3 <= fuel)%nat ->
  let enc_size := file_size - 2 in
  let blocks := S (range_count ENC_BLOCK_SIZE enc_size ENC_BLOCK_SIZE) in
  exists w',
    decrypt_small_some_blocks fuel key nonce file_size w
      = (Return
           (if bytes_eqb (read (file w') (file_size - 16) 16)
                         SMALL_FILE_END_MARKER1
            then file_size - 16 else file_size),
         w') /\
    len (file w') = len (file w) /\
    (forall j : nat, (j < blocks)%nat ->
       let p := Z.of_nat j * ENC_BLOCK_SIZE in
       let n := Z.min (enc_size - p) ENC_BLOCK_SIZE in
       read (file w') p n
       = gcm_decrypt key (nonce_of_chunk nonce FULL_ENC_NONCE_SIZE1 j)
                     (read (file w) p n)) /\
    (forall k : nat, enc_size <= Z.of_nat k ->
       file w' !! k = file w !! k).
Proof.
  intros Hkey Hnonce Hsize Hlen Hfuel. cbv zeta.
  assert (Hblock : ENC_BLOCK_SIZE = 512000) by reflexivity.
  assert (Hbig : MIN_BIG_FILE_SIZE = 2048000) by reflexivity.
  assert (Hcount :
    (range_count ENC_BLOCK_SIZE (file_size - 2) ENC_BLOCK_SIZE <= 3)%nat).
  { unfold range_count. rewrite Hblock.
    assert ((file_size - 2 - 512000 + 512000 - 1) / 512000 <= 3); [|lia].
    Z.div_mod_to_equations. lia. }
  destruct (first_then_next_content fuel key nonce FULL_ENC_NONCE_SIZE1
              (file_size - 2) ENC_BLOCK_SIZE ENC_BLOCK_SIZE w)
    as (w' & Hrun & Hl & Hcontent & Hframe); try assumption; try lia.
  exists w'. split; [|split; [exact Hl|split; [exact Hcontent|]]].
  - unfold decrypt_small_some_blocks. cbv zeta.
    replace (file_size - (ADDITIONAL_DATA_SIZE + 1)) with (file_size - 2)
      by reflexivity.
    rewrite Hrun. unfold remove_end_marker.
    change (len (longest [] [SMALL_FILE_END_MARKER1])) with 16.
    erewrite io_bind_return by (apply f_read_ok; inside).
    unfold ret. rewrite cut_end_marker1 by (apply len_read_inside; lia).
    reflexivity.
  - intros k Hk. apply Hframe. intros j Hj. cbv zeta. right.
    assert (0 <= Z.of_nat j * ENC_BLOCK_SIZE) by nia. lia.
Qed.

Lemma io_bind_fuel {A B} (m : io A) (k : A -> io B) (w w' : world) :
  m w = (OutOfFuel, w') -> io_bind m k w = (OutOfFuel, w').
Proof. unfold io_bind. intros ->. reflexivity. Qed.

(** A loop that does not advance: entered at 0 with a step of 0, it
    decrypts the first chunk again at every turn and is still running
    when any fuel is spent. *)
Lemma next_chunks_stuck (fuel : nat) :
  forall (key : bytes) (enc_size chunk_size : Z) (st : bytes) (w : world),
  CBC.valid_key_length key = true ->
  0 < chunk_size -> 0 < enc_size <= len (file w) ->
  fst (decrypt_next_chunks fuel key enc_size chunk_size 0 0 st w) = OutOfFuel.
Proof.
  induction fuel as [|fuel IH]; intros key es cs st w Hkey Hcs Hes;
    cbn [decrypt_next_chunks];
    replace (0 <? es) with true by lia; [reflexivity|].
  set (n := Z.min (es - 0) cs).
  erewrite io_bind_return by (apply f_read_ok; inside).
  assert (Hln : len (read (file w) 0 n) = n)
    by (apply len_read_inside; lia).
  destruct (read (file w) 0 n) as [|x enc_data] eqn:Hread;
    [unfold len in Hln; simpl in Hln; lia|].
  rewrite <- Hread in *. clear Hread x enc_data.
  erewrite io_bind_return; cycle 1.
  { apply gcm_ok; [exact Hkey|].
    intros E. apply (f_equal (@length byte)) in E.
    rewrite length_app, NonceSequence.length_rnd64data in E. simpl in E. lia. }
  erewrite io_bind_return by (apply f_write_ok; inside).
  cbn [file calls]. replace (0 + 0) with 0 by reflexivity.
  apply IH; try assumption. cbn [file].
  rewrite len_write_inside; [lia | lia |].
  rewrite len_gcm_decrypt. lia.
Qed.

(** A chunk space that cancels the chunk size gives a step of 0: on
    such metadata the chunk mode does not end. *)
Theorem zero_step_never_ends
    (key nonce : bytes) (chunk_size enc_size file_size : Z) (w : world) :
  CBC.valid_key_length key = true ->
  slice_to nonce CHUNK_ENC_NONCE_SIZE <> [] ->
  0 < chunk_size -> 0 < enc_size <= len (file w) ->
  forall fuel : nat,
    fst (decrypt_chunk_enc fuel key nonce chunk_size (- chunk_size) enc_size
                           file_size w)
    = OutOfFuel.
Proof.
  intros Hkey Hnonce Hcs Hes fuel. unfold decrypt_chunk_enc. cbv zeta.
  replace (chunk_size + - chunk_size) with 0 by lia.
  erewrite io_bind_return by (apply f_read_ok; inside).
  erewrite io_bind_return by (apply gcm_ok; assumption).
  erewrite io_bind_return by (apply f_write_ok; inside).
  cbn [file calls].
  match goal with
  | |- fst (io_bind ?m _ ?x) = _ =>
    pose proof (next_chunks_stuck fuel key enc_size chunk_size
                  RND64_INIT_STATE_DATA x Hkey Hcs) as Hstuck;
    destruct (m x) as [r w'] eqn:Hrun
  end.
  cbn [fst] in Hstuck. rewrite Hstuck in Hrun.
  - erewrite io_bind_fuel by exact Hrun. reflexivity.
  - cbn [file]. rewrite len_write_inside; [lia | lia |].
    rewrite len_gcm_decrypt, len_read_inside; lia.
Qed.

End ChunkContent.

Lemma chunk_mode_decrypts_chunks_witness :
  exists w',
    decrypt_chunk_enc (H := Toy.externals) 2 Toy.key (b "0123456789abcdef")
                      4 4 20 24 chunked_world
      = (Return 24, w') /\
    read (file w') 8 4
      = gcm_decrypt (Externals := Toy.externals) Toy.key (chunk_nonce 1)
                    (b "zzzz") /\
    read (file w') 4 4 = b "zzzz".
Proof.
  destruct (chunk_mode_decrypts_chunks (H := Toy.externals) 2 Toy.key
              (b "0123456789abcdef") 4 4 20 24 chunked_world)
    as (w' & Hrun & Hlen & Hcontent & Hframe).
  - reflexivity.
  - discriminate.
  - lia.
  - lia.
  - vm_compute. split; discriminate.
  - vm_compute. lia.
  - exists w'. split; [exact Hrun|]. split.
    + exact (Hcontent 1%nat ltac:(vm_compute; lia)).
    + change (b "zzzz") with (read (file chunked_world) 4 4).
      apply read_ext; [lia|]. intros k Hk. apply Hframe.
      intros j Hj. cbv zeta.
      change (range_count (4 + 4) 20 (4 + 4)) with 2%nat in Hj.
      assert (j = 0 \/ j = 1 \/ j = 2)%nat as [->| [->| ->]] by lia;
        cbn; lia.
Defined.

Lemma small_file_decrypts_blocks_witness :
  exists size,
    fst (decrypt_small_some_blocks (H := Toy.externals) 3 Toy.key
           (b "0123456789abcdef") 2000000 big_world)
    = Return size /\
    (size = 2000000 - 16 \/ size = 2000000).
Proof.
  destruct (small_file_decrypts_blocks (H := Toy.externals) 3 Toy.key
              (b "0123456789abcdef") 2000000 big_world)
    as (w' & Hrun & _).
  - reflexivity.
  - discriminate.
  - unfold ENC_BLOCK_SIZE, MIN_BIG_FILE_SIZE. lia.
  - unfold big_world, len. cbn [file]. rewrite length_replicate. lia.
  - lia.
  - rewrite Hrun. cbn [fst].
    destruct (bytes_eqb _ _); eexists; (split; [reflexivity|]); auto.
Defined.

Lemma zero_step_never_ends_witness :
  fst (decrypt_chunk_enc (H := Toy.externals) 100 Toy.key
         (b "0123456789abcdef") 4 (- 4) 20 24 chunked_world)
  = OutOfFuel.
Proof.
  apply (zero_step_never_ends (H := Toy.externals)).
  - reflexivity.
  - discriminate.
  - lia.
  - vm_compute. split; [reflexivity | discriminate].
Defined.

End ChunkContent.

(** ** Phobos: the single-chunk mode as one CBC pass *)

Module StreamPass.
Import Phobos PhobosSpec Samples CbcFacts.

Section StreamPass.
Context `{BlockCipher} {D : Directory}.

Lemma read_from_start (f : bytes) (n : Z) : read f 0 n = take (Z.to_nat n) f.
Proof. reflexivity. Qed.

Lemma split_block (f : bytes) (n : Z) :
  0 < n -> n <= len f ->
  length (take (Z.to_nat n) f) = Z.to_nat n /\
  len (take (Z.to_nat n) f) = n /\
  len (drop (Z.to_nat n) f) = len f - n /\
  (length (drop (Z.to_nat n) f) < length f)%nat.
Proof.
  intros Hn Hlen. unfold len in *. rewrite length_take, length_drop. lia.
Qed.

Lemma len_take_inside (f : bytes) (n : Z) :
  0 <= n <= len f -> len (take (Z.to_nat n) f) = n.
Proof. intros Hn. unfold len in *. rewrite length_take. lia. Qed.

Lemma decrypted_size_bounds (n : Z) :
  0 <= n -> 0 <= decrypted_size n <= n /\ decrypted_size n mod 16 = 0.
Proof.
  intros Hn. unfold decrypted_size, ENC_BLOCK_SIZE. cbv zeta.
  destruct ((n mod 851968) mod 16 =? 0) eqn:E.
  - apply Z.eqb_eq in E. Z.div_mod_to_equations. lia.
  - Z.div_mod_to_equations. lia.
Qed.

Lemma decrypted_size_short (n : Z) :
  0 <= n < ENC_BLOCK_SIZE ->
  decrypted_size n = if n mod 16 =? 0 then 0 else n - n mod 16.
Proof.
  intros Hn. unfold decrypted_size. cbv zeta.
  rewrite (Z.mod_small n ENC_BLOCK_SIZE) by exact Hn.
  destruct (n mod 16 =? 0); lia.
Qed.

Lemma decrypted_size_step (n : Z) :
  ENC_BLOCK_SIZE <= n ->
  decrypted_size n = ENC_BLOCK_SIZE + decrypted_size (n - ENC_BLOCK_SIZE).
Proof.
  intros Hn. unfold decrypted_size. cbv zeta.
  replace (n - ENC_BLOCK_SIZE) with (n + (-1) * ENC_BLOCK_SIZE) by lia.
  rewrite Z.mod_add by (unfold ENC_BLOCK_SIZE; lia).
  destruct (_ =? 0); lia.
Qed.

(** What the loop of the single-chunk mode writes is one CBC pass over
    the first [decrypted_size] bytes of the input, followed by the
    rest of the input as it is: reading in blocks of [ENC_BLOCK_SIZE]
    does not show in the output. *)
Lemma decrypt_stream_one_pass (fuel : nat) :
  forall (c : CBC.cipher) (fin : bytes),
  (length fin < fuel)%nat ->
  let cut := Z.to_nat (decrypted_size (len fin)) in
  decrypt_stream fuel c fin
  = do (plain, _) <- CBC.decrypt c (take cut fin);
    Return (plain ++ drop cut fin).
Proof.
  assert (Hpos : 0 < ENC_BLOCK_SIZE) by reflexivity.
  assert (H16 : ENC_BLOCK_SIZE mod 16 = 0) by reflexivity.
  induction fuel as [|fuel IH]; intros c fin Hfuel; [lia|]. cbv zeta.
  pose proof (len_nonneg fin) as Hlen.
  destruct (Z_lt_ge_dec (len fin) ENC_BLOCK_SIZE) as [Hshort|Hlong].
  - rewrite decrypted_size_short by lia.
    destruct (len fin mod 16 =? 0) eqn:E.
    + apply Z.eqb_eq in E.
      rewrite SingleStream.decrypt_stream_short_aligned by assumption.
      reflexivity.
    + apply Z.eqb_neq in E.
      rewrite SingleStream.decrypt_stream_short_unaligned by assumption.
      reflexivity.
  - set (blk := take (Z.to_nat ENC_BLOCK_SIZE) fin).
    set (fin' := drop (Z.to_nat ENC_BLOCK_SIZE) fin).
    destruct (split_block fin ENC_BLOCK_SIZE Hpos ltac:(apply Z.ge_le; exact Hlong))
      as (Hblkn & Hblk & Hfin' & Hshorter).
    fold blk in Hblkn, Hblk. fold fin' in Hfin', Hshorter.
    assert (Hsplit : fin = blk ++ fin')
      by (symmetry; apply take_drop).
    cbn [decrypt_stream]. rewrite read_from_start. fold blk fin'.
    rewrite Hblk, Z.eqb_refl. cbn [negb].
    rewrite (decrypted_size_step (len fin)) by (apply Z.ge_le; exact Hlong).
    rewrite <- Hfin'.
    destruct (decrypted_size_bounds (len fin') (len_nonneg fin'))
      as [Hcut Hcut16].
    rewrite Z2Nat.inj_add by (apply Z.lt_le_incl, Hpos || apply Hcut).
    assert (Htake : forall k, take (Z.to_nat ENC_BLOCK_SIZE + k) fin
                              = blk ++ take k fin').
    { intros k. rewrite Hsplit at 1. apply take_app_add'.
      symmetry. exact Hblkn. }
    assert (Hdrop : forall k, drop (Z.to_nat ENC_BLOCK_SIZE + k) fin
                              = drop k fin')
      by (intros k; unfold fin'; rewrite drop_drop; reflexivity).
    rewrite Htake, Hdrop.
    rewrite cbc_decrypt_app; cycle 1.
    { rewrite Hblk. exact H16. }
    { rewrite len_take_inside by exact Hcut. exact Hcut16. }
    destruct (CBC.decrypt c blk) as [[p1 c1]|e|]; cbn [bind]; try reflexivity.
    rewrite IH by (clear - Hshorter Hfuel; lia).
    cbv zeta.
    destruct (CBC.decrypt c1 _) as [[p2 c2]|e|]; cbn [bind]; try reflexivity.
    rewrite app_assoc. reflexivity.
Qed.

(** The single-chunk mode of [decrypt_file2] from end to end.  Where
    the new file can be created, it is one CBC pass over the first
    [decrypted_size] bytes of the container, then the rest of the
    container as it is, cut by footer and padding, so it has the
    length of the container less those two; when footer and padding
    are more than the container has, the last [seek] raises
    [OSError], which is not caught, and leaves the new file uncut.
    Where the name of the new file is refused, [io.open] raises and
    nothing is written; where it leads back to the input, the input
    is emptied and the last [seek] raises. *)
Theorem single_mode_output (file key_data : bytes) (i : info) :
  read_info file key_data = Return (Some i) ->
  enc_mode i <> 1 ->
  let cut := Z.to_nat (decrypted_size (len file)) in
  let trimmed := len file - (footer_size i + padding_size i) in
  exists plain c c',
    CBC.new (aes_key i) (aes_iv i) = Return c /\
    CBC.decrypt c (take cut file) = Return (plain, c') /\
    len (plain ++ drop cut file) = len file /\
    match place_of (orig_filename i) with
    | Fresh =>
      (0 <= trimmed ->
       decrypt_file2 file key_data
       = {| result := Return true;
            output := Some (orig_filename i,
                            truncate (plain ++ drop cut file) trimmed) |} /\
       len (truncate (plain ++ drop cut file) trimmed) = trimmed) /\
      (trimmed < 0 ->
       decrypt_file2 file key_data
       = {| result := Raise OSError;
            output := Some (orig_filename i, plain ++ drop cut file) |})
    | Refused =>
      decrypt_file2 file key_data
      = {| result := Raise OSError; output := None |}
    | Input =>
      decrypt_file2 file key_data
      = {| result := Raise OSError; output := Some (orig_filename i, []) |}
    end.
Proof.
  intros Hinfo Hmode. cbv zeta.
  destruct (SingleStream.read_info_cipher _ _ _ Hinfo) as [c Hc].
  pose proof (cbc_new_chain _ _ _ Hc) as Hchain.
  pose proof (len_nonneg file) as Hlen.
  destruct (decrypted_size_bounds (len file) Hlen) as [Hcut Hcut16].
  set (cut := Z.to_nat (decrypted_size (len file))).
  assert (Htake : len (take cut file) = decrypted_size (len file))
    by (unfold cut, len in *; rewrite length_take; lia).
  destruct (cbc_decrypt_whole c (take cut file) Hchain) as
    (plain & c' & Hdec & Hplain & _); [rewrite Htake; exact Hcut16|].
  assert (Hout : len (plain ++ drop cut file) = len file).
  { rewrite len_app, Hplain, Htake. unfold cut, len in *.
    rewrite length_drop. lia. }
  assert (Hstream : decrypt_stream (S (length file)) c file
                    = Return (plain ++ drop cut file)).
  { rewrite decrypt_stream_one_pass by lia. cbv zeta. fold cut.
    rewrite Hdec. reflexivity. }
  exists plain, c, c'. split; [exact Hc|]. split; [exact Hdec|].
  split; [exact Hout|].
  destruct (place_of (orig_filename i)) eqn:Hplace.
  - apply Z.eqb_neq in Hmode.
    split; intros Htrim; unfold decrypt_file2; rewrite Hinfo, Hmode;
      unfold decrypt_single; rewrite Hplace, Hc, Hstream, Hout.
    + replace (len file <? footer_size i + padding_size i) with false by lia.
      split; [reflexivity|]. apply EndTag.len_truncate. exact Htrim.
    + replace (len file <? footer_size i + padding_size i) with true by lia.
      reflexivity.
  - eapply ScatteredChunks.decrypt_file2_refused; eassumption.
  - apply SingleStream.decrypt_file2_onto_input; assumption.
Qed.

End StreamPass.

Lemma single_mode_output_witness :
  let r := decrypt_file2 (H := Toy.cipher) (D := Toy.directory)
                         unaligned_container Toy.keystore in
  result r = Return true /\ option_map snd (output r) = Some (b "0123456789abc").
Proof.
  cbv zeta.
  edestruct (single_mode_output (H := Toy.cipher) (D := Toy.directory)
               unaligned_container Toy.keystore)
    as (plain & c & c' & Hc & Hdec & Hlen & Hrun).
  - vm_compute. reflexivity.
  - vm_compute. discriminate.
  - cbn [orig_filename place_of Toy.directory Toy.fresh_but_empty] in Hrun.
    destruct Hrun as [Hok _].
    rewrite (proj1 (Hok ltac:(vm_compute; discriminate))).
    vm_compute in Hc. inversion Hc; subst c.
    vm_compute in Hdec. inversion Hdec; subst plain c'.
    split; vm_compute; reflexivity.
Defined.

End StreamPass.

(** ** What a container must be for a file to be created *)

Module ParsedContainer.
Import Phobos PhobosSpec Steps Samples.



Section ParsedContainer.
Context `{BlockCipher} {D : Directory}.





End ParsedContainer.



End ParsedContainer.

(** ** RCRU64: the name of the working copy *)

Module WorkingCopy.
Import RCRU64.

Lemma starts_with_app (sub l : bytes) :
  starts_with sub l = true -> l = sub ++ drop (length sub) l.
Proof.
  revert l; induction sub as [|x sub IH]; intros [|y l]; simpl;
    try discriminate; try reflexivity.
  intros E. apply andb_true_iff in E as [Ex E].
  apply byte_eqb_eq in Ex. subst y. f_equal. apply IH, E.
Qed.

(** What [find] has found is there, and lies within the sequence. *)
Lemma find_rel_found (sub l : bytes) (k : nat) :
  find_rel sub l = Some k ->
  (k + length sub <= length l)%nat /\
  l = take k l ++ sub ++ drop (k + length sub) l.
Proof.
  revert k; induction l as [|y l IH]; intros k; cbn [find_rel].
  - destruct (starts_with sub []) eqn:E; [|discriminate].
    intros [= <-]. split.
    + apply ChunkContent.starts_with_length in E. simpl in *. lia.
    + apply starts_with_app in E. exact E.
  - destruct (starts_with sub (y :: l)) eqn:E.
    + intros [= <-]. split.
      * apply ChunkContent.starts_with_length in E. simpl in *. lia.
      * apply starts_with_app in E. exact E.
    + destruct (find_rel sub l) as [k'|]; [|discriminate].
      intros [= <-]. destruct (IH k' eq_refl) as [Hk Hl]. split.
      * simpl. lia.
      * cbn [take drop Nat.add app]. f_equal. exact Hl.
Qed.

Lemma find_from_start (sub l : bytes) :
  find sub l 0
  = match find_rel sub l with Some k => Z.of_nat k | None => -1 end.
Proof.
  unfold find. pose proof (len_nonneg l) as Hl.
  replace (len l <? 0) with false by lia.
  change (drop (Z.to_nat 0) l) with l.
  destruct (find_rel sub l); reflexivity.
Qed.

(** The working copy never has the name of the file it is copied
    from: when the name holds the prefix [_[ID-] of the extension,
    the copy is named by what comes before its first occurrence, and
    otherwise by the name with [.dec] added. *)
Theorem working_copy_is_another_file (filename : bytes) :
  new_filename filename <> filename /\
  ((exists rest,
      filename = new_filename filename ++ RANSOM_EXT_PREFIX ++ rest)
   \/ (find RANSOM_EXT_PREFIX filename 0 = -1 /\
       new_filename filename = filename ++ b ".dec")).
Proof.
  unfold new_filename. cbv zeta. rewrite find_from_start.
  destruct (find_rel RANSOM_EXT_PREFIX filename) as [k|] eqn:Hfind.
  - destruct (find_rel_found _ _ _ Hfind) as [Hk Hsplit].
    replace (0 <=? Z.of_nat k) with true by lia.
    assert (Hcut : slice_to filename (Z.of_nat k) = take k filename).
    { unfold slice_to. rewrite clamp_inside by (unfold len; lia).
      rewrite Nat2Z.id. reflexivity. }
    rewrite Hcut. split.
    + intros Heq. apply (f_equal (@length byte)) in Heq.
      rewrite length_take in Heq. simpl in Hk. lia.
    + left. eexists. exact Hsplit.
  - cbn [Z.leb Z.compare]. split.
    + intros Heq. apply (f_equal (@length byte)) in Heq.
      rewrite length_app in Heq. simpl in Heq. lia.
    + right. split; reflexivity.
Qed.

Example new_filename_examples :
  new_filename (b "report.doc_[ID-XYZ].abc") = b "report.doc" /\
  new_filename (b "report.doc") = b "report.doc.dec" /\
  new_filename (b "_[ID-XYZ].abc") = [].
Proof. vm_compute. repeat split. Qed.

End WorkingCopy.

(** ** RCRU64: the rotations of the sequencer *)

Module Rotations.
Import RCRU64.

Lemma testbit_above (v n : Z) :
  0 <= v < 2 ^ 64 -> 64 <= n -> Z.testbit v n = false.
Proof.
  intros Hv Hn. destruct (Z.eq_dec v 0) as [->|Hz]; [apply Z.testbit_0_l|].
  apply Z.bits_above_log2; [lia|].
  assert (Z.log2 v < 64) by (apply Z.log2_lt_pow2; lia). lia.
Qed.

Lemma land_mask64_small (v : Z) : 0 <= v < 2 ^ 64 -> Z.land v MASK64 = v.
Proof.
  intros Hv. change MASK64 with (Z.ones 64). rewrite Z.land_ones by lia.
  apply Z.mod_small. exact Hv.
Qed.

Lemma shiftr_range (v s : Z) :
  0 <= v < 2 ^ 64 -> 0 <= s -> 0 <= Z.shiftr v s < 2 ^ 64.
Proof.
  intros Hv Hs. rewrite Z.shiftr_div_pow2 by lia.
  assert (0 < 2 ^ s) by (apply Z.pow_pos_nonneg; lia).
  split; [apply Z.div_pos; lia|].
  apply Z.div_lt_upper_bound; nia.
Qed.

Lemma rol64_range (v s : Z) :
  0 <= v < 2 ^ 64 -> s <= 64 -> 0 <= rol64 v s < 2 ^ 64.
Proof.
  intros Hv Hs. unfold rol64.
  apply NonceSequence.lor_range;
    [lia | apply NonceSequence.land_mask64_range|].
  apply shiftr_range; [apply NonceSequence.land_mask64_range | lia].
Qed.

Lemma rol64_bits (v s n : Z) :
  0 <= v < 2 ^ 64 -> 0 <= s <= 64 -> 0 <= n < 64 ->
  Z.testbit (rol64 v s) n = Z.testbit v ((n - s) mod 64).
Proof.
  intros Hv Hs Hn. unfold rol64. rewrite (land_mask64_small v Hv).
  change MASK64 with (Z.ones 64).
  rewrite Z.lor_spec, Z.land_spec, Z.shiftl_spec, Z.shiftr_spec by lia.
  rewrite Z.ones_spec_low by lia. rewrite andb_true_r.
  destruct (Z_lt_ge_dec n s) as [Hlt|Hge].
  - rewrite (Z.testbit_neg_r v (n - s)) by lia. cbn [orb].
    f_equal. Z.div_mod_to_equations. lia.
  - rewrite (testbit_above v (n + (64 - s))) by lia. rewrite orb_false_r.
    f_equal. Z.div_mod_to_equations. lia.
Qed.

Lemma ror64_bits (v s n : Z) :
  0 <= v < 2 ^ 64 -> 0 <= s <= 64 -> 0 <= n < 64 ->
  Z.testbit (ror64 v s) n = Z.testbit v ((n + s) mod 64).
Proof.
  intros Hv Hs Hn. unfold ror64. change MASK64 with (Z.ones 64).
  rewrite Z.lor_spec, Z.land_spec, Z.shiftl_spec, Z.shiftr_spec by lia.
  rewrite Z.ones_spec_low by lia. rewrite andb_true_r.
  destruct (Z_lt_ge_dec (n + s) 64) as [Hlt|Hge].
  - rewrite (Z.testbit_neg_r v (n - (64 - s))) by lia. rewrite orb_false_r.
    f_equal. Z.div_mod_to_equations. lia.
  - rewrite (testbit_above v (n + s)) by lia. cbn [orb].
    f_equal. Z.div_mod_to_equations. lia.
Qed.

(** [rol64] and [ror64] are the rotations of a 64-bit word: on a
    number below [2^64] and a count from 0 to 64, the result is below
    [2^64], its bit [n] is bit [n - s], or [n + s], modulo 64 of the
    argument, and each of the two undoes the other. *)
Theorem rotations_rotate (v s : Z) :
  0 <= v < 2 ^ 64 -> 0 <= s <= 64 ->
  (0 <= rol64 v s < 2 ^ 64 /\
   forall n, 0 <= n < 64 ->
     Z.testbit (rol64 v s) n = Z.testbit v ((n - s) mod 64)) /\
  (0 <= ror64 v s < 2 ^ 64 /\
   forall n, 0 <= n < 64 ->
     Z.testbit (ror64 v s) n = Z.testbit v ((n + s) mod 64)) /\
  ror64 (rol64 v s) s = v /\
  rol64 (ror64 v s) s = v.
Proof.
  intros Hv Hs.
  pose proof (rol64_range v s Hv ltac:(lia)) as Hl.
  pose proof (NonceSequence.ror64_range v s Hv ltac:(lia)) as Hr.
  split; [split; [exact Hl | intros n Hn; apply rol64_bits; assumption]|].
  split; [split; [exact Hr | intros n Hn; apply ror64_bits; assumption]|].
  split; apply Z.bits_inj'; intros n Hn0;
    destruct (Z_lt_ge_dec n 64) as [Hn|Hn].
  - rewrite ror64_bits by (assumption || lia).
    rewrite rol64_bits
      by (assumption || lia || (apply Z.mod_pos_bound; lia)).
    f_equal. Z.div_mod_to_equations. lia.
  - rewrite (testbit_above v n) by lia. apply testbit_above; [|lia].
    apply NonceSequence.ror64_range; [exact Hl | lia].
  - rewrite rol64_bits by (assumption || lia).
    rewrite ror64_bits
      by (assumption || lia || (apply Z.mod_pos_bound; lia)).
    f_equal. Z.div_mod_to_equations. lia.
  - rewrite (testbit_above v n) by lia. apply testbit_above; [|lia].
    apply rol64_range; [exact Hr | lia].
Qed.

Lemma rotations_rotate_witness :
  rol64 0x8000000000000001 4 = 0x18 /\
  ror64 (rol64 0x0123456789ABCDEF 15) 15 = 0x0123456789ABCDEF.
Proof.
  split; [reflexivity|].
  apply (rotations_rotate 0x0123456789ABCDEF 15); lia.
Defined.

End Rotations.

(** ** RCRU64: a small file of a single block *)

Module SingleBlock.
Import RCRU64 Rcru64Spec Steps Samples.

Lemma find_range (sub l : bytes) : -1 <= find sub l 0 <= len l.
Proof.
  rewrite WorkingCopy.find_from_start. pose proof (len_nonneg l) as Hl.
  destruct (find_rel sub l) as [k|] eqn:Hk; [|lia].
  apply WorkingCopy.find_rel_found in Hk as [Hk _]. unfold len. lia.
Qed.

(** Whatever the end markers are, cutting one off takes at most the
    bytes that were searched. *)
Lemma cut_end_marker_range (end_markers : list bytes) (data : bytes)
    (size file_size : Z) :
  len data <= size ->
  file_size - size <= cut_end_marker end_markers data size file_size
                   <= file_size.
Proof.
  intros Hd. pose proof (len_nonneg data) as Hl.
  induction end_markers as [|m rest IH]; cbn [cut_end_marker]; [lia|].
  pose proof (find_range m data) as Hf.
  destruct (0 <=? find m data 0) eqn:E; [|exact IH].
  apply Z.leb_le in E. lia.
Qed.

Section SingleBlock.
Context `{Externals}.

(** A small file of a single block, with a key and a nonce that the
    cipher accepts.  From 16 bytes on, all but the last 16 bytes
    before [file_size] are decrypted in one GCM call under the first
    32 bytes of the nonce of the key data, and the size that is
    returned is [file_size] less what the end marker found in those
    last 16 bytes, as they were, takes: 16 bytes at most.  With 15
    bytes the whole working file is read and decrypted, whatever
    follows [file_size] included, and the search for the end marker
    ends in [OSError]; with fewer the first read raises and nothing is
    written: [ValueError], or [OverflowError] for a size that does not
    fit. *)
Theorem single_block_decrypts_all_but_16
    (key nonce : bytes) (file_size : Z) (w : world) :
  CBC.valid_key_length key = true ->
  slice_to nonce FULL_ENC_NONCE_SIZE2 <> [] ->
  let first_nonce := slice_to nonce FULL_ENC_NONCE_SIZE2 in
  let patched (enc_data : bytes) :=
    {| file := write (file w) 0 (gcm_decrypt key first_nonce enc_data);
       calls := calls w ++ [{| call_nonce := first_nonce;
                               call_length := len enc_data |}] |} in
  (16 <= file_size <= len (file w) ->
   let size :=
     cut_end_marker [SMALL_FILE_END_MARKER1; SMALL_FILE_END_MARKER2]
                    (read (file w) (file_size - 16) 16) 16 file_size in
   decrypt_small_single_block key nonce file_size w
   = (Return size, patched (read (file w) 0 (file_size - 16))) /\
   len (read (file w) 0 (file_size - 16)) = file_size - 16 /\
   file_size - 16 <= size <= file_size) /\
  (file_size = 15 ->
   decrypt_small_single_block key nonce file_size w
   = (Raise OSError, patched (file w))) /\
  (16 - 2 ^ 63 <= file_size < 15 ->
   decrypt_small_single_block key nonce file_size w
   = (Raise ValueError, w)) /\
  (file_size < 16 - 2 ^ 63 ->
   decrypt_small_single_block key nonce file_size w
   = (Raise OverflowError, w)).
Proof.
  intros Hkey Hnonce. cbv zeta.
  unfold decrypt_small_single_block. cbv zeta.
  change (len (longest [] ([SMALL_FILE_END_MARKER1] ++
                           [SMALL_FILE_END_MARKER2]))) with 16.
  unfold remove_end_marker.
  change (len (longest [] ([SMALL_FILE_END_MARKER1] ++
                           [SMALL_FILE_END_MARKER2]))) with 16.
  change AES_BLOCK_SIZE with 16.
  split; [|split; [|split]].
  - intros Hsize.
    assert (Hle : len (read (file w) 0 (file_size - 16)) = file_size - 16)
      by (apply len_read_inside; lia).
    erewrite io_bind_return by (apply f_read_ok; inside).
    erewrite io_bind_return by (apply gcm_ok; assumption).
    erewrite io_bind_return by (apply f_write_ok; inside).
    erewrite io_bind_return by (apply f_read_ok; inside).
    cbn [file calls]. unfold ret.
    assert (Hkept :
      read (write (file w) 0
              (gcm_decrypt key (slice_to nonce FULL_ENC_NONCE_SIZE2)
                 (read (file w) 0 (file_size - 16))))
           (file_size - 16) 16
      = read (file w) (file_size - 16) 16).
    { assert (Hl16 : len (read (file w) (file_size - 16) 16) = 16)
        by (apply len_read_inside; lia).
      pose proof (read_write_other (file w) 0 (file_size - 16)
                    (gcm_decrypt key (slice_to nonce FULL_ENC_NONCE_SIZE2)
                                 (read (file w) 0 (file_size - 16)))
                    (read (file w) (file_size - 16) 16)) as Hother.
      rewrite Hl16 in Hother. apply Hother; [lia | lia | reflexivity|].
      right. rewrite len_gcm_decrypt. lia. }
    rewrite Hkept. split; [reflexivity|]. split; [exact Hle|].
    pose proof (cut_end_marker_range
                  [SMALL_FILE_END_MARKER1; SMALL_FILE_END_MARKER2]
                  (read (file w) (file_size - 16) 16) 16 file_size) as Hr.
    apply Hr. rewrite len_read_inside; lia.
  - intros ->.
    assert (Hread : f_read 0 (15 - 16) w = (Return (file w), w))
      by reflexivity.
    erewrite io_bind_return by exact Hread.
    erewrite io_bind_return by (apply gcm_ok; assumption).
    erewrite io_bind_return by (apply f_write_ok; inside).
    reflexivity.
  - intros Hsize. unfold io_bind at 1, f_read.
    rewrite (fits_inside (file w) 0) by lia.
    rewrite (fits_inside (file w) (file_size - 16)) by lia. cbn [negb].
    replace (0 <? 0) with false by reflexivity.
    replace (file_size - 16 <? -1) with true by lia. reflexivity.
  - intros Hsize. unfold io_bind at 1, f_read.
    rewrite (fits_inside (file w) 0) by lia. cbn [negb].
    replace (0 <? 0) with false by reflexivity.
    replace (fits (file w) (file_size - 16)) with false
      by (unfold fits; pose proof (len_nonneg (file w)); lia).
    reflexivity.
Qed.

End SingleBlock.

Lemma single_block_decrypts_all_but_16_witness :
  fst (decrypt_small_single_block (H := Toy.externals)
         Toy.key (b "n") 24 chunked_world)
  = Return 24.
Proof.
  rewrite (proj1 (proj1 (single_block_decrypts_all_but_16
                           (H := Toy.externals) Toy.key (b "n") 24
                           chunked_world eq_refl
                           ltac:(vm_compute; discriminate))
                        ltac:(vm_compute; split; discriminate))).
  reflexivity.
Defined.

End SingleBlock.

(** ** RCRU64: a chunk step below zero *)

Module BackwardStep.
Import RCRU64 Rcru64Spec Steps Samples.

Section BackwardStep.
Context `{Externals}.

(** A chunk space that more than cancels the chunk size gives a step
    below zero: the first chunk is decrypted in place, the loop then
    seeks to the step, and the run ends with what that [seek] raises:
    [OSError], or [ValueError] for a step below [-2^63], which does
    not fit an offset. *)
Theorem backward_step_raises
    (fuel : nat) (key nonce : bytes)
    (chunk_size chunk_space enc_size file_size : Z) (w : world) :
  CBC.valid_key_length key = true ->
  slice_to nonce CHUNK_ENC_NONCE_SIZE <> [] ->
  0 < chunk_size -> 0 < enc_size <= len (file w) ->
  chunk_size + chunk_space < 0 ->
  (0 < fuel)%nat ->
  let first_nonce := slice_to nonce CHUNK_ENC_NONCE_SIZE in
  let enc_data := read (file w) 0 (Z.min enc_size chunk_size) in
  decrypt_chunk_enc fuel key nonce chunk_size chunk_space enc_size file_size w
  = (Raise (if chunk_size + chunk_space <? - 2 ^ 63 then ValueError
            else OSError),
     {| file := write (file w) 0 (gcm_decrypt key first_nonce enc_data);
        calls := calls w ++ [{| call_nonce := first_nonce;
                                call_length := len enc_data |}] |}).
Proof.
  intros Hkey Hnonce Hcs Hes Hstep Hfuel. cbv zeta.
  unfold decrypt_chunk_enc. cbv zeta.
  erewrite io_bind_return by (apply f_read_ok; inside).
  erewrite io_bind_return by (apply gcm_ok; assumption).
  erewrite io_bind_return by (apply f_write_ok; inside).
  cbn [file calls].
  apply FailedRuns.io_bind_raise.
  destruct fuel as [|fuel]; [lia|]. cbn [decrypt_next_chunks].
  replace (chunk_size + chunk_space <? enc_size) with true by lia.
  apply FailedRuns.io_bind_raise. unfold f_read. cbn [file].
  destruct (chunk_size + chunk_space <? - 2 ^ 63) eqn:E.
  - replace (fits _ (chunk_size + chunk_space)) with false
      by (unfold fits; lia).
    reflexivity.
  - rewrite fits_inside by lia. cbn [negb].
    replace (chunk_size + chunk_space <? 0) with true by lia. reflexivity.
Qed.

End BackwardStep.

Lemma backward_step_raises_witness :
  fst (decrypt_chunk_enc (H := Toy.externals) 1 Toy.key (b "n") 4 (-8) 20 24
                         chunked_world)
  = Raise OSError /\
  fst (decrypt_chunk_enc (H := Toy.externals) 1 Toy.key (b "n") 4
                         (-10240000000000000000) 20 24 chunked_world)
  = Raise ValueError.
Proof.
  split.
  - rewrite (backward_step_raises (H := Toy.externals) 1 Toy.key (b "n")
               4 (-8) 20 24 chunked_world);
      [reflexivity | reflexivity | vm_compute; discriminate | lia
       | vm_compute; split; [reflexivity | discriminate] | lia | lia].
  - rewrite (backward_step_raises (H := Toy.externals) 1 Toy.key (b "n")
               4 (-10240000000000000000) 20 24 chunked_world);
      [reflexivity | reflexivity | vm_compute; discriminate | lia
       | vm_compute; split; [reflexivity | discriminate] | lia | lia].
Defined.

End BackwardStep.

(** ** RCRU64: the key data *)

Module KeyData.
Import RCRU64.

(** What [find] from a position on has found is there. *)
Lemma find_split (sub l : bytes) (start p : Z) :
  0 <= start -> find sub l start = p -> 0 <= p ->
  exists k : nat,
    p = start + Z.of_nat k /\
    p + len sub <= len l /\
    drop (Z.to_nat start) l
    = take k (drop (Z.to_nat start) l) ++ sub
      ++ drop (Z.to_nat (p + len sub)) l.
Proof.
  intros Hs Hfind Hp. unfold find in Hfind.
  destruct (len l <? start) eqn:E; [lia|]. apply Z.ltb_ge in E.
  destruct (find_rel sub (drop (Z.to_nat start) l)) as [k|] eqn:Hk; [|lia].
  apply WorkingCopy.find_rel_found in Hk as [Hin Hsplit].
  rewrite length_drop in Hin.
  exists k. split; [lia|]. split; [unfold len in *; lia|].
  rewrite Hsplit at 1. do 2 f_equal. rewrite drop_drop. f_equal.
  unfold len in *. lia.
Qed.

Lemma slice_inside (l : bytes) (lo : Z) (k : nat) :
  0 <= lo -> lo + Z.of_nat k <= len l ->
  slice l lo (lo + Z.of_nat k) = take k (drop (Z.to_nat lo) l).
Proof.
  intros Hlo Hhi. unfold slice. cbv zeta.
  rewrite !clamp_inside by lia. do 2 f_equal. lia.
Qed.

Section KeyData.
Context `{Externals}.

(** When the key data parse, they are made as the markers say: the
    key stands between the first [d7j3] and the next [y9a0], and the
    nonce between that and the next [m5ha]. *)
Theorem keydata_layout (enc_keydata priv_key_data key nonce : bytes) :
  parse_keydata enc_keydata priv_key_data = Some (key, nonce) ->
  exists keydata before after,
    rsa_decrypt enc_keydata priv_key_data = Some keydata /\
    keydata = before ++ KEYDATA_MARKER1 ++ key ++ KEYDATA_MARKER2
              ++ nonce ++ KEYDATA_MARKER3 ++ after /\
    find KEYDATA_MARKER1 keydata 0 = len before.
Proof.
  unfold parse_keydata. cbv zeta.
  destruct (rsa_decrypt enc_keydata priv_key_data) as [kd|]; [|discriminate].
  set (p1 := find KEYDATA_MARKER1 kd 0).
  destruct (p1 <? 0) eqn:E1; [discriminate|]. apply Z.ltb_ge in E1.
  set (p2 := find KEYDATA_MARKER2 kd (p1 + len KEYDATA_MARKER1)).
  destruct (p2 <? 0) eqn:E2; [discriminate|]. apply Z.ltb_ge in E2.
  set (p3 := find KEYDATA_MARKER3 kd (p2 + len KEYDATA_MARKER2)).
  destruct (p3 <? 0) eqn:E3; [discriminate|]. apply Z.ltb_ge in E3.
  intros [= <- <-].
  assert (Hm1 : len KEYDATA_MARKER1 = 4) by reflexivity.
  assert (Hm2 : len KEYDATA_MARKER2 = 4) by reflexivity.
  assert (Hm3 : len KEYDATA_MARKER3 = 4) by reflexivity.
  destruct (find_split KEYDATA_MARKER1 kd 0 p1 ltac:(lia) eq_refl E1)
    as (k1 & Hk1 & Hin1 & Hs1).
  destruct (find_split KEYDATA_MARKER2 kd (p1 + len KEYDATA_MARKER1) p2
              ltac:(lia) eq_refl E2) as (k2 & Hk2 & Hin2 & Hs2).
  destruct (find_split KEYDATA_MARKER3 kd (p2 + len KEYDATA_MARKER2) p3
              ltac:(lia) eq_refl E3) as (k3 & Hk3 & Hin3 & Hs3).
  change (drop (Z.to_nat 0) kd) with kd in Hs1.
  exists kd, (take k1 kd), (drop (Z.to_nat (p3 + len KEYDATA_MARKER3)) kd).
  split; [reflexivity|]. split.
  - rewrite Hk2 at 1. rewrite slice_inside by lia.
    rewrite Hk3 at 1. rewrite slice_inside by lia.
    rewrite <- Hs3, <- Hs2. exact Hs1.
  - unfold len. rewrite length_take. unfold len in *. lia.
Qed.

End KeyData.

Lemma keydata_layout_witness :
  exists before after,
    b "..d7j3KEYy9a0NONCEm5ha.."
    = before ++ KEYDATA_MARKER1 ++ b "KEY" ++ KEYDATA_MARKER2
      ++ b "NONCE" ++ KEYDATA_MARKER3 ++ after.
Proof.
  destruct (keydata_layout (H := Toy.externals)
              (b "..d7j3KEYy9a0NONCEm5ha..") [] (b "KEY") (b "NONCE")
              ltac:(vm_compute; reflexivity))
    as (keydata & before & after & Hrsa & Hsplit & _).
  vm_compute in Hrsa. injection Hrsa as Hk. rewrite <- Hk in Hsplit.
  exists before, after. exact Hsplit.
Defined.

End KeyData.

(** ** Phobos: a key file that loads *)

Module KeyFileRoundTrip.
Import Phobos PhobosSpec Samples.

Lemma byte_to_of_Z (n : Z) : byte_to_Z (byte_of_Z n) = n mod 256.
Proof.
  unfold byte_to_Z, byte_of_Z.
  pose proof (Z.mod_pos_bound n 256 ltac:(lia)) as Hm.
  destruct (Byte.of_N (Z.to_N (n mod 256))) as [x|] eqn:E.
  - apply Byte.to_of_N in E. rewrite E. lia.
  - exfalso. apply Byte.of_N_None_iff in E. lia.
Qed.

Lemma int_from_to_le (k : nat) (n : Z) :
  int_from_le (int_to_le k n) = n mod 256 ^ Z.of_nat k.
Proof.
  revert n; induction k as [|k IH]; intros n.
  - simpl. rewrite Z.mod_1_r. reflexivity.
  - cbn [int_to_le int_from_le]. rewrite byte_to_of_Z, IH.
    rewrite Nat2Z.inj_succ, Z.pow_succ_r by lia.
    rewrite Z.rem_mul_r; [reflexivity | lia | apply Z.pow_pos_nonneg; lia].
Qed.

Lemma obfuscated_word (n : Z) :
  0 <= n < 2 ^ 32 ->
  Z.lxor (int_from_le (int_to_le 4 (Z.lxor n KEY_DATA_XOR))) KEY_DATA_XOR = n.
Proof.
  intros Hn. rewrite int_from_to_le.
  change (256 ^ Z.of_nat 4) with (2 ^ 32).
  rewrite Z.mod_small
    by (apply Crc.lxor_range; [lia | exact Hn | unfold KEY_DATA_XOR; lia]).
  rewrite Z.lxor_assoc, Z.lxor_nilpotent. apply Z.lxor_0_r.
Qed.

Lemma crc32_range (data : bytes) : 0 <= crc32 data < 2 ^ 32.
Proof.
  unfold crc32. apply Crc.lxor_range; [lia | | lia].
  apply Crc.crc_fold_range. unfold in32. lia.
Qed.

(** The loader accepts every key file that is made of the obfuscated
    count and checksum of a payload of whole entries and of that
    payload, and answers with the payload; what follows the payload
    in the file is not looked at. *)
Theorem key_file_loads (payload trailing : bytes) :
  len payload mod KEY_ENTRY_SIZE = 0 ->
  len payload / KEY_ENTRY_SIZE < 2 ^ 32 ->
  load_keys (key_file payload trailing) = Return payload.
Proof.
  intros Hwhole Hcount.
  pose proof (len_nonneg payload) as Hlen.
  assert (Hentry : KEY_ENTRY_SIZE = 160) by reflexivity.
  set (n := len payload / KEY_ENTRY_SIZE) in *.
  assert (Hn : 0 <= n /\ n * KEY_ENTRY_SIZE = len payload).
  { unfold n. rewrite Hentry in *. Z.div_mod_to_equations. lia. }
  set (a := int_to_le 4 (Z.lxor n KEY_DATA_XOR)).
  set (c := int_to_le 4 (Z.lxor (crc32 payload) KEY_DATA_XOR)).
  assert (Ha : length a = 4%nat) by apply NonceSequence.length_int_to_le.
  assert (Hc : length c = 4%nat) by apply NonceSequence.length_int_to_le.
  assert (Hfile : key_file payload trailing = a ++ c ++ payload ++ trailing)
    by reflexivity.
  assert (Hcnt : header_count (key_file payload trailing) = n).
  { unfold header_count. rewrite Hfile, slice_take_drop by lia.
    change (Z.to_nat (4 - 0)) with 4%nat. change (Z.to_nat 0) with 0%nat.
    rewrite drop_0, take_app_length' by (symmetry; exact Ha).
    apply obfuscated_word. lia. }
  assert (Hcrc : header_crc (key_file payload trailing) = crc32 payload).
  { unfold header_crc. rewrite Hfile, slice_take_drop by lia.
    change (Z.to_nat (8 - 4)) with 4%nat. change (Z.to_nat 4) with 4%nat.
    rewrite drop_app_length' by (symmetry; exact Ha).
    rewrite take_app_length' by (symmetry; exact Hc).
    apply obfuscated_word, crc32_range. }
  assert (Hpay : PhobosSpec.payload (key_file payload trailing) = payload).
  { unfold PhobosSpec.payload. rewrite Hcnt, Hfile.
    rewrite slice_take_drop by lia.
    change (Z.to_nat 8) with 8%nat.
    rewrite (app_assoc a c), drop_app_length'
      by (rewrite length_app; lia).
    apply take_app_length'. unfold len in *. lia. }
  rewrite KeyFile.load_keys_unfold.
  - rewrite Hcrc, Hpay, Z.eqb_refl. reflexivity.
  - rewrite Hfile. unfold len. rewrite !length_app. lia.
Qed.

Lemma key_file_loads_witness :
  load_keys (key_file one_key_payload (b "anything")) = Return one_key_payload.
Proof.
  apply key_file_loads; vm_compute; reflexivity.
Defined.

End KeyFileRoundTrip.

(** ** RCRU64: runs that succeed *)

Module TrueRuns.
Import RCRU64 Rcru64Spec Steps Samples.

Lemma io_bind_inv {A B} (m : io A) (k : A -> io B) (w w' : world) (r : B) :
  io_bind m k w = (Return r, w') ->
  exists a w1, m w = (Return a, w1) /\ k a w1 = (Return r, w').
Proof.
  unfold io_bind. destruct (m w) as [[a|e|] w1]; intros E;
    try discriminate. eauto.
Qed.

Lemma f_read_len (pos n : Z) (w w' : world) (data : bytes) :
  0 <= n -> f_read pos n w = (Return data, w') -> len data <= n.
Proof.
  intros Hn. unfold f_read. destruct (negb (fits _ pos)); [discriminate|].
  destruct (pos <? 0); [discriminate|].
  destruct (negb (fits _ n)); [discriminate|].
  replace (n <? -1) with false by lia. replace (n =? -1) with false by lia.
  intros [= <- _]. unfold read, len. rewrite length_take. lia.
Qed.

Lemma remove_end_marker_range (end_markers : list bytes) (file_size size : Z)
    (w w' : world) :
  remove_end_marker end_markers file_size w = (Return size, w') ->
  file_size - len (longest [] end_markers) <= size <= file_size.
Proof.
  unfold remove_end_marker. intros Hrun.
  apply io_bind_inv in Hrun as (data & w1 & Hread & Hret).
  apply f_read_len in Hread; [|apply len_nonneg].
  unfold ret in Hret. injection Hret as <- _.
  apply SingleBlock.cut_end_marker_range. exact Hread.
Qed.

Section TrueRuns.
Context `{Externals}.

(** Every way of decrypting answers with a size that is the size left
    of the metadata, or up to 16 less. *)
Lemma mode_size (fuel : nat) (FAST_ENC_NONCE key nonce : bytes) (l : layout)
    (file_size size : Z) (w w' : world) :
  match l with
  | FullEnc _ =>
    match select_full_mode file_size with
    | SmallFileSomeBlocks =>
      decrypt_small_some_blocks fuel key nonce file_size
    | SmallFileSingleBlock => decrypt_small_single_block key nonce file_size
    | FastBigFile => decrypt_fast_big_file FAST_ENC_NONCE key nonce file_size
    end
  | ChunkEnc _ chunk_size chunk_space enc_size =>
    decrypt_chunk_enc fuel key nonce chunk_size chunk_space enc_size file_size
  end w = (Return size, w') ->
  file_size - 16 <= size <= file_size.
Proof.
  destruct l as [kd cs sp es|kd]; [|destruct (select_full_mode file_size)].
  - unfold decrypt_chunk_enc. cbv zeta. intros Hrun.
    do 4 (apply io_bind_inv in Hrun as (? & ? & _ & Hrun); cbv beta in Hrun).
    unfold ret in Hrun. injection Hrun as <- _. lia.
  - unfold decrypt_small_some_blocks. cbv zeta. intros Hrun.
    do 4 (apply io_bind_inv in Hrun as (? & ? & _ & Hrun); cbv beta in Hrun).
    apply remove_end_marker_range in Hrun. exact Hrun.
  - unfold decrypt_small_single_block. cbv zeta. intros Hrun.
    do 3 (apply io_bind_inv in Hrun as (? & ? & _ & Hrun); cbv beta in Hrun).
    apply remove_end_marker_range in Hrun. exact Hrun.
  - unfold decrypt_fast_big_file. cbv zeta. intros Hrun.
    do 6 (apply io_bind_inv in Hrun as (? & ? & _ & Hrun); cbv beta in Hrun).
    unfold ret in Hrun. injection Hrun as <- _. lia.
Qed.

(** A run of [decrypt_file] that returns [True] has found the
    metadata marker and has cut the working file before it: with
    [file_size] the position of the marker in the file, the file is
    left with [file_size - 1] bytes, or with up to 16 fewer when an
    end marker was cut off as well.  No byte of the metadata is
    left. *)
Theorem true_run_cuts_metadata
    (fuel : nat) (FAST_ENC_NONCE priv_key_data : bytes) (w : world) :
  fst (decrypt_file fuel FAST_ENC_NONCE priv_key_data w) = Return true ->
  let f := stripped (file w) in
  let pos := find METADATA_MARKER (metadata_window f) 0 in
  let file_size := len f - (Z.min (len f) MAX_METADATA_SIZE - pos) in
  0 <= pos /\
  file_size - 17
    <= len (file (snd (decrypt_file fuel FAST_ENC_NONCE priv_key_data w)))
    <= file_size - 1.
Proof.
  cbv zeta.
  destruct (Z_lt_ge_dec (len (file w)) (len METADATA_MARKER2))
    as [Hshort|Hlong].
  { unfold decrypt_file.
    replace (len (file w) <? len METADATA_MARKER2) with true by lia.
    discriminate. }
  rewrite EndTag.decrypt_file_front by lia. cbv zeta. cbn [file].
  set (f := stripped (file w)).
  destruct (len f <? MIN_METADATA_SIZE); [discriminate|].
  destruct (find METADATA_MARKER (metadata_window f) 0 <? 0) eqn:Epos;
    [discriminate|].
  apply Z.ltb_ge in Epos.
  set (file_size := len f - _).
  destruct (parse_layout _) as [[l|]|e|]; try discriminate.
  destruct (parse_keydata _ _) as [[key nonce]|]; [|discriminate].
  unfold decrypt_body, then_remove_footer.
  match goal with
  | |- fst (?run) = _ -> _ => destruct run as [r w'] eqn:Hrun
  end.
  cbn [fst snd]. intros ->. split; [exact Epos|].
  apply io_bind_inv in Hrun as (size & w1 & Hmode & Hrun).
  apply mode_size in Hmode.
  apply io_bind_inv in Hrun as ([] & w2 & Htrunc & Hret).
  unfold ret in Hret. injection Hret as <-.
  unfold f_truncate in Htrunc.
  destruct (negb (fits _ _)); [discriminate|].
  destruct (size - ADDITIONAL_DATA_SIZE <? 0) eqn:E; [discriminate|].
  apply Z.ltb_ge in E. injection Htrunc as <-. cbn [file].
  rewrite EndTag.len_truncate by exact E.
  change ADDITIONAL_DATA_SIZE with 1 in *. lia.
Qed.

End TrueRuns.

Lemma true_run_cuts_metadata_witness :
  3 <= len (file (snd (decrypt_file (H := Toy.externals) 0 [] []
                                     small_world)))
    <= 19.
Proof.
  exact (proj2 (true_run_cuts_metadata (H := Toy.externals) 0 [] []
                  small_world ltac:(vm_compute; reflexivity))).
Defined.

End TrueRuns.

(** ** RCRU64: the fields of the metadata *)

Module Layout.
Import RCRU64.

Lemma slice_from_inside (l : bytes) (lo : Z) :
  0 <= lo <= len l -> slice_from l lo = drop (Z.to_nat lo) l.
Proof. intros Hlo. unfold slice_from. rewrite clamp_inside by lia. reflexivity. Qed.

Section Layout.
Context `{Externals}.

(** When the metadata parse, they are made as the markers say.  With
    no [P7A1s] in them they are the wrapped key data as a whole.
    Otherwise the wrapped key data come before the first [P7A1s];
    the text of the chunk size runs from there to the next [:], the
    text of the chunk space from there to the next [$f1;], and the
    digits of the encrypted size from the next [Fs1z3] to the end. *)
Theorem layout_fields (metadata : bytes) (l : layout) :
  parse_layout metadata = Return (Some l) ->
  match l with
  | FullEnc enc_keydata =>
    enc_keydata = metadata /\ find CHUNK_INFO_MARKER1 metadata 0 < 0
  | ChunkEnc enc_keydata chunk_size chunk_space enc_size =>
    exists size_text space_text skipped size_digits,
      metadata = enc_keydata ++ CHUNK_INFO_MARKER1 ++ size_text
                 ++ CHUNK_INFO_MARKER2 ++ space_text
                 ++ CHUNK_INFO_MARKER3 ++ skipped
                 ++ ENC_SIZE_MARKER ++ size_digits /\
      float_blocks size_text = Return chunk_size /\
      float_blocks space_text = Return chunk_space /\
      int_of_bytes size_digits = Return enc_size
  end.
Proof.
  unfold parse_layout. cbv zeta.
  assert (Hm1 : len CHUNK_INFO_MARKER1 = 5) by reflexivity.
  assert (Hm2 : len CHUNK_INFO_MARKER2 = 1) by reflexivity.
  assert (Hm3 : len CHUNK_INFO_MARKER3 = 4) by reflexivity.
  assert (Hm4 : len ENC_SIZE_MARKER = 5) by reflexivity.
  set (p1 := find CHUNK_INFO_MARKER1 metadata 0).
  destruct (0 <=? p1) eqn:E1; cycle 1.
  { apply Z.leb_gt in E1. intros [= <-]. split; [reflexivity | exact E1]. }
  apply Z.leb_le in E1.
  set (p2 := find CHUNK_INFO_MARKER2 metadata (p1 + len CHUNK_INFO_MARKER1)).
  destruct (p2 <? 0) eqn:E2; [discriminate|]. apply Z.ltb_ge in E2.
  destruct (float_blocks _) as [cs|e|] eqn:Hcs; cbn [bind];
    try discriminate.
  set (p3 := find CHUNK_INFO_MARKER3 metadata (p2 + len CHUNK_INFO_MARKER2)).
  destruct (p3 <? 0) eqn:E3; [discriminate|]. apply Z.ltb_ge in E3.
  destruct (float_blocks _) as [sp|e|] eqn:Hsp in |- *; cbn [bind];
    try discriminate.
  set (p4 := find ENC_SIZE_MARKER metadata (p3 + len CHUNK_INFO_MARKER3)).
  destruct (p4 <? 0) eqn:E4; [discriminate|]. apply Z.ltb_ge in E4.
  destruct (int_of_bytes _) as [es|e|] eqn:Hes; cbn [bind];
    try discriminate.
  intros [= <-].
  destruct (KeyData.find_split CHUNK_INFO_MARKER1 metadata 0 p1
              ltac:(lia) eq_refl E1) as (k1 & Hk1 & Hin1 & Hs1).
  destruct (KeyData.find_split CHUNK_INFO_MARKER2 metadata
              (p1 + len CHUNK_INFO_MARKER1) p2 ltac:(lia) eq_refl E2)
    as (k2 & Hk2 & Hin2 & Hs2).
  destruct (KeyData.find_split CHUNK_INFO_MARKER3 metadata
              (p2 + len CHUNK_INFO_MARKER2) p3 ltac:(lia) eq_refl E3)
    as (k3 & Hk3 & Hin3 & Hs3).
  destruct (KeyData.find_split ENC_SIZE_MARKER metadata
              (p3 + len CHUNK_INFO_MARKER3) p4 ltac:(lia) eq_refl E4)
    as (k4 & Hk4 & Hin4 & Hs4).
  change (drop (Z.to_nat 0) metadata) with metadata in Hs1.
  rewrite Hk2 in Hcs at 1. rewrite KeyData.slice_inside in Hcs by lia.
  rewrite Hk3 in Hsp at 1. rewrite KeyData.slice_inside in Hsp by lia.
  rewrite slice_from_inside in Hes by lia.
  eexists _, _, _, _. split; [|split; [exact Hcs|split; [exact Hsp|exact Hes]]].
  rewrite <- Hs4, <- Hs3, <- Hs2.
  assert (Hkd : slice_to metadata p1 = take k1 metadata).
  { unfold slice_to. rewrite clamp_inside by lia. f_equal. lia. }
  rewrite Hkd. exact Hs1.
Qed.

End Layout.

Lemma layout_fields_witness :
  exists size_text space_text skipped size_digits,
    b "KDP7A1s1:2$f1;..Fs1z320"
    = b "KD" ++ CHUNK_INFO_MARKER1 ++ size_text
      ++ CHUNK_INFO_MARKER2 ++ space_text
      ++ CHUNK_INFO_MARKER3 ++ skipped
      ++ ENC_SIZE_MARKER ++ size_digits /\
    int_of_bytes size_digits = Return 20.
Proof.
  destruct (layout_fields (H := Toy.externals) (b "KDP7A1s1:2$f1;..Fs1z320")
              (ChunkEnc (b "KD") 1 2 20) ltac:(vm_compute; reflexivity))
    as (t1 & t2 & t3 & t4 & Hsplit & _ & _ & Hes).
  exists t1, t2, t3, t4. split; [exact Hsplit | exact Hes].
Defined.

End Layout.
